(** * Astrohab layout editor (App.jsx): a shallow embedding

    The application keeps four pieces of React state ([modules], [selected],
    [crew], [controlsMode]) and mutates them from event handlers.  The
    embedding below follows App.jsx handler by handler.  JavaScript values
    are modelled as they are at run time:

    - numbers are IEEE-754 binary64 values (the [spec_float] of the standard
      library, precision 53, maximal exponent 1024);
    - strings are sequences of UTF-16 code units;
    - arrays are lists, plain objects are association lists kept in property
      enumeration order;
    - [JSON.stringify], [JSON.parse], [Number.prototype.toFixed] and the
      other built-ins the handlers call are written out after ECMA-262. *)

From Stdlib Require Import ZArith List Bool Lia String Ascii.
From Stdlib Require Import Floats.SpecFloat.
Import ListNotations.
Local Open Scope Z_scope.

(* ================================================================== *)
(** * Part I. Definitions                                               *)
(* ================================================================== *)

(** ** Strings: sequences of UTF-16 code units *)

Definition code_unit := N.
Definition jsstring := list code_unit.

(** An ASCII literal, one code unit per character. *)
Definition str (s : string) : jsstring :=
  map N_of_ascii (list_ascii_of_string s).

Definition cu_eqb (a b : code_unit) : bool := N.eqb a b.

Fixpoint jsstring_eqb (a b : jsstring) : bool :=
  match a, b with
  | [], [] => true
  | x :: a', y :: b' => cu_eqb x y && jsstring_eqb a' b'
  | _, _ => false
  end.

(** ** Numbers: binary64 *)

Definition number := spec_float.

Definition prec : Z := 53.
Definition emax : Z := 1024.

Definition NaN : number := S754_nan.
Definition pos_zero : number := S754_zero false.
Definition Infinity : number := S754_infinity false.

(** The Number value of a non-negative integer: round to nearest, ties to
    even. *)
Definition number_of_Z (z : Z) : number :=
  binary_normalize prec emax z 0 false.

(** The Number value of the decimal [s * 10^E], with [s >= 0]: the exact
    rational value rounded to nearest, ties to even.  For [E < 0] the
    quotient is taken in units of [2^-1074], the spacing of the smallest
    binary64 values, and the remainder gives the rounding position. *)
Definition number_of_decimal (s E : Z) : number :=
  if 0 <=? E then number_of_Z (s * 10 ^ E)
  else
    let d := 10 ^ (- E) in
    let '(q, r) := Z.div_eucl (s * 2 ^ 1074) d in
    binary_round_aux prec emax false q (-1074) (new_location d r).

Definition num_opp (x : number) : number := SFopp x.
Definition num_mul (x y : number) : number := SFmul prec emax x y.
Definition num_sub (x y : number) : number := SFsub prec emax x y.

(** [x === y] on numbers: NaN differs from everything, the two zeros are
    equal. *)
Definition num_eqb (x y : number) : bool := SFeqb x y.
Definition num_ltb (x y : number) : bool := SFltb x y.
Definition num_leb (x y : number) : bool := SFleb x y.

Definition is_finite (x : number) : bool :=
  match x with
  | S754_zero _ | S754_finite _ _ _ => true
  | _ => false
  end.

(** A number the binary64 format contains: the mantissa is canonical for its
    exponent. *)
Definition valid_number (x : number) : bool := valid_binary prec emax x.

(** [Math.floor]. *)
Definition Math_floor (x : number) : number :=
  match x with
  | S754_finite s m e =>
      if 0 <=? e then x
      else
        let q := (if s then Z.neg m else Z.pos m) / 2 ^ (- e) in
        binary_normalize prec emax q 0 s
  | _ => x
  end.

(** The index an integral, non-negative number denotes (array access
    [a[x]]); [None] when [x] is no array index. *)
Definition array_index (x : number) : option nat :=
  match x with
  | S754_zero _ => Some O
  | S754_finite false m e =>
      if 0 <=? e then Some (Z.to_nat (Z.pos m * 2 ^ e))
      else if (Z.pos m mod 2 ^ (- e)) =? 0
           then Some (Z.to_nat (Z.pos m / 2 ^ (- e)))
           else None
  | _ => None
  end.

(** ** Decimal digits *)

Definition digit_char (d : Z) : code_unit := Z.to_N (48 + d).

Fixpoint digits_le (fuel : nat) (n : Z) : list code_unit :=
  match fuel with
  | O => []
  | S f =>
      if n <? 10 then [digit_char n]
      else digit_char (n mod 10) :: digits_le f (n / 10)
  end.

(** The decimal representation of [n >= 0], most significant digit first,
    without leading zeros. *)
Definition to_digits (n : Z) : jsstring :=
  rev (digits_le (S (Z.to_nat (Z.log2 n))) n).

Definition is_digit (c : code_unit) : bool :=
  (48 <=? c)%N && (c <=? 57)%N.

Definition digit_value (c : code_unit) : Z := Z.of_N c - 48.

(** The value of a digit string read in base ten. *)
Definition digits_value (l : jsstring) : Z :=
  fold_left (fun acc c => acc * 10 + digit_value c) l 0.

Definition zlength {A} (l : list A) : Z := Z.of_nat (List.length l).

(** ** Number::toString (ECMA-262, 6.1.6.1.20), radix 10 *)

(** Does the decimal [s * 10^E] denote the finite positive number with
    mantissa [m] and exponent [e]? *)
Definition reads_back (m : positive) (e : Z) (s E : Z) : bool :=
  match number_of_decimal s E with
  | S754_finite false m' e' => Pos.eqb m m' && Z.eqb e e'
  | _ => false
  end.

(** [floor (m * 2^e / 10^E)]. *)
Definition scaled_floor (m : positive) (e E : Z) : Z :=
  let num := Z.pos m * (if 0 <=? e then 2 ^ e else 1)
                     * (if 0 <=? E then 1 else 10 ^ (- E)) in
  let den := (if 0 <=? e then 1 else 2 ^ (- e))
             * (if 0 <=? E then 10 ^ E else 1) in
  num / den.

(** Twice the distance, in units of [10^E / den], decides which of the two
    neighbours [lo] and [lo + 1] is nearer to [m * 2^e]. *)
Definition upper_is_nearer (m : positive) (e E : Z) : bool :=
  let num := Z.pos m * (if 0 <=? e then 2 ^ e else 1)
                     * (if 0 <=? E then 1 else 10 ^ (- E)) in
  let den := (if 0 <=? e then 1 else 2 ^ (- e))
             * (if 0 <=? E then 10 ^ E else 1) in
  den <? 2 * (num mod den).

(** The shortest decimal that reads back as [m * 2^e]: the search runs
    downwards from the decimal exponent [E], trying at each exponent the two
    integers that enclose [m * 2^e / 10^E], the nearer one first.  Fewer
    digits go with a larger exponent, so the first hit has the least number
    of digits. *)
Fixpoint shortest_decimal (fuel : nat) (m : positive) (e E : Z)
  : option (Z * Z) :=
  match fuel with
  | O => None
  | S f =>
      let lo := scaled_floor m e E in
      let hi := lo + 1 in
      let ok_lo := (0 <? lo) && reads_back m e lo E in
      let ok_hi := reads_back m e hi E in
      if ok_lo && ok_hi then
        Some (if upper_is_nearer m e E then hi else lo, E)
      else if ok_lo then Some (lo, E)
      else if ok_hi then Some (hi, E)
      else shortest_decimal f m e (E - 1)
  end.

(** An exponent [E] with [m * 2^e < 10^E], where the search starts, and the
    exponent [min e 0], at which [m * 2^e] is itself an integer multiple of
    [10^E] and the search ends at the latest. *)
Definition start_exponent (m : positive) (e : Z) : Z :=
  if 0 <=? e then zlength (to_digits (Z.pos m * 2 ^ e))
  else zlength (to_digits (Z.pos m / 2 ^ (- e))).

Definition decimal_of (m : positive) (e : Z) : option (Z * Z) :=
  let E0 := start_exponent m e in
  shortest_decimal (S (Z.to_nat (E0 - Z.min e 0))) m e E0.

Definition zeros (n : Z) : jsstring := repeat 48%N (Z.to_nat n).

(** The digits [ds] of [s] ([k] of them) placed according to [n], the
    position of the decimal point: steps 6 to 10 of Number::toString. *)
Definition place_digits (ds : jsstring) (n : Z) : jsstring :=
  let k := zlength ds in
  if (k <=? n) && (n <=? 21) then
    ds ++ zeros (n - k)
  else if (0 <? n) && (n <=? 21) then
    firstn (Z.to_nat n) ds ++ [46%N] ++ skipn (Z.to_nat n) ds
  else if (-6 <? n) && (n <=? 0) then
    [48%N; 46%N] ++ zeros (- n) ++ ds
  else
    let e := n - 1 in
    let sign := if 0 <=? e then 43%N else 45%N in
    match ds with
    | [d] => [d; 101%N; sign] ++ to_digits (Z.abs e)
    | d :: rest => [d; 46%N] ++ rest ++ [101%N; sign] ++ to_digits (Z.abs e)
    | [] => []
    end.

Definition Number_toString (x : number) : jsstring :=
  match x with
  | S754_nan => str "NaN"
  | S754_zero _ => str "0"
  | S754_infinity false => str "Infinity"
  | S754_infinity true => str "-Infinity"
  | S754_finite sg m e =>
      (if sg then [45%N] else []) ++
      match decimal_of m e with
      | Some (s, E) => let ds := to_digits s in place_digits ds (zlength ds + E)
      | None => []
      end
  end.

(** ** Number.prototype.toFixed (ECMA-262, 21.1.3.3) *)

(** The integer [n] for which [n / 10^f - m * 2^e] is as close to zero as
    possible, the larger one when there are two. *)
Definition nearest_scaled (m : positive) (e : Z) (f : Z) : Z :=
  if 0 <=? e then Z.pos m * 2 ^ e * 10 ^ f
  else (2 * Z.pos m * 10 ^ f + 2 ^ (- e)) / 2 ^ (1 - e).

Definition fixed_digits (n f : Z) : jsstring :=
  let m := to_digits n in
  if f =? 0 then m
  else
    let k := zlength m in
    let m' := if k <=? f then zeros (f + 1 - k) ++ m else m in
    let k' := if k <=? f then f + 1 else k in
    firstn (Z.to_nat (k' - f)) m' ++ [46%N] ++ skipn (Z.to_nat (k' - f)) m'.

(** [m * 2^e >= 10^21] (a value with [e < 0] is below [2^53]). *)
Definition at_least_1e21 (m : positive) (e : Z) : bool :=
  (0 <=? e) && (10 ^ 21 <=? Z.pos m * 2 ^ e).

Definition toFixed (x : number) (f : Z) : jsstring :=
  match x with
  | S754_finite sg m e =>
      if at_least_1e21 m e then Number_toString x
      else (if sg then [45%N] else []) ++ fixed_digits (nearest_scaled m e f) f
  | S754_zero _ => fixed_digits 0 f
  | _ => Number_toString x
  end.

(** A numeric literal of the source text, [s * 10^E]. *)
Definition lit (s E : Z) : number := number_of_decimal s E.

(** ** Values *)

#[local] Unset Elimination Schemes.
Inductive Value : Type :=
| VUndefined
| VNull
| VBool (b : bool)
| VNum (x : number)
| VStr (s : jsstring)
| VArr (l : list Value)
| VObj (props : list (jsstring * Value)).
#[local] Set Elimination Schemes.

Inductive exn : Type := TypeError | SyntaxError.

(** The completion of an evaluation: a value, or a thrown exception. *)
Inductive completion (A : Type) : Type :=
| Normal (a : A)
| Throw (e : exn).
Arguments Normal {A} a.
Arguments Throw {A} e.

Definition bind {A B} (c : completion A) (k : A -> completion B)
  : completion B :=
  match c with
  | Normal a => k a
  | Throw e => Throw e
  end.

Notation "x <- c ;; k" := (bind c (fun x => k))
  (at level 61, c at next level, right associativity).

(** ToBoolean. *)
Definition truthy (v : Value) : bool :=
  match v with
  | VUndefined | VNull => false
  | VBool b => b
  | VNum (S754_zero _) | VNum S754_nan => false
  | VNum _ => true
  | VStr [] => false
  | VStr _ => true
  | VArr _ | VObj _ => true
  end.

(** [a === b].  Two objects (or arrays) are equal only when they are the same
    object; the embedding carries no object identities and takes two object
    operands for distinct objects. *)
Definition strict_eq (a b : Value) : bool :=
  match a, b with
  | VUndefined, VUndefined => true
  | VNull, VNull => true
  | VBool x, VBool y => Bool.eqb x y
  | VNum x, VNum y => num_eqb x y
  | VStr x, VStr y => jsstring_eqb x y
  | _, _ => false
  end.

(** *** Property keys and ordinary objects *)

(** A canonical numeric string below [2^32 - 1] is an array index; such keys
    are enumerated first, in ascending order, before all other keys, which
    come in creation order. *)
Definition key_index (k : jsstring) : option Z :=
  match k with
  | [] => None
  | c :: r =>
      if forallb is_digit k
         && (negb (cu_eqb c 48%N) || match r with [] => true | _ => false end)
         && (digits_value k <? 2 ^ 32 - 1)
      then Some (digits_value k) else None
  end.

Fixpoint lookup (k : jsstring) (props : list (jsstring * Value))
  : option Value :=
  match props with
  | [] => None
  | (k', v) :: r => if jsstring_eqb k k' then Some v else lookup k r
  end.

Fixpoint replace (k : jsstring) (v : Value) (props : list (jsstring * Value))
  : list (jsstring * Value) :=
  match props with
  | [] => []
  | (k', v') :: r =>
      if jsstring_eqb k k' then (k', v) :: r else (k', v') :: replace k v r
  end.

(** Where a new property goes: an array index before the first key that is
    no index or a larger one, any other key at the end. *)
Fixpoint insert_new (k : jsstring) (v : Value)
  (props : list (jsstring * Value)) : list (jsstring * Value) :=
  match props with
  | [] => [(k, v)]
  | (k', v') :: r =>
      match key_index k, key_index k' with
      | Some i, Some i' =>
          if i <? i' then (k, v) :: props else (k', v') :: insert_new k v r
      | Some _, None => (k, v) :: props
      | None, _ => (k', v') :: insert_new k v r
      end
  end.

(** CreateDataProperty on an ordinary object. *)
Definition obj_set (k : jsstring) (v : Value)
  (props : list (jsstring * Value)) : list (jsstring * Value) :=
  match lookup k props with
  | Some _ => replace k v props
  | None => insert_new k v props
  end.

(** The object literal [{k1: v1, ..., kn: vn}]. *)
Definition obj_literal (kvs : list (jsstring * Value)) : Value :=
  VObj (fold_left (fun acc kv => obj_set (fst kv) (snd kv) acc) kvs []).

Fixpoint indexed {A} (f : A -> Value) (i : Z) (l : list A)
  : list (jsstring * Value) :=
  match l with
  | [] => []
  | x :: r => (to_digits i, f x) :: indexed f (i + 1) r
  end.

(** The own enumerable properties an object spread [{...m}] copies. *)
Definition own_props (m : Value) : list (jsstring * Value) :=
  match m with
  | VObj props => props
  | VArr l => indexed (fun x => x) 0 l
  | VStr s => indexed (fun c => VStr [c]) 0 s
  | _ => []
  end.

(** [{...m, [field]: value}]. *)
Definition spread_with (m : Value) (field : jsstring) (value : Value)
  : Value :=
  VObj (obj_set field value (own_props m)).

(** [m[k]] for a data property: a TypeError on [null] and [undefined],
    [undefined] where the property is missing.  Inherited properties (the
    methods of the prototypes) are not data and are left out. *)
Definition Get (m : Value) (k : jsstring) : completion Value :=
  match m with
  | VUndefined | VNull => Throw TypeError
  | VObj props =>
      Normal (match lookup k props with Some v => v | None => VUndefined end)
  | VArr l =>
      if jsstring_eqb k (str "length") then Normal (VNum (number_of_Z (zlength l)))
      else Normal (match key_index k with
                   | Some i => nth (Z.to_nat i) l VUndefined
                   | None => VUndefined
                   end)
  | VStr s =>
      if jsstring_eqb k (str "length") then Normal (VNum (number_of_Z (zlength s)))
      else Normal (match key_index k with
                   | Some i => match nth_error s (Z.to_nat i) with
                               | Some c => VStr [c]
                               | None => VUndefined
                               end
                   | None => VUndefined
                   end)
  | VBool _ | VNum _ => Normal VUndefined
  end.

(** [a[x]] on an array literal, [x] a number. *)
Definition array_get (a : list Value) (x : number) : Value :=
  match array_index x with
  | Some i => nth i a VUndefined
  | None => VUndefined
  end.

Definition is_high_surrogate (c : code_unit) : bool :=
  (55296 <=? c)%N && (c <=? 56319)%N.
Definition is_low_surrogate (c : code_unit) : bool :=
  (56320 <=? c)%N && (c <=? 57343)%N.

(** The strings a string iterator yields: one per code point. *)
Fixpoint code_points (s : jsstring) : list Value :=
  match s with
  | [] => []
  | c :: r =>
      match r with
      | d :: r' =>
          if is_high_surrogate c && is_low_surrogate d
          then VStr [c; d] :: code_points r'
          else VStr [c] :: code_points r
      | [] => [VStr [c]]
      end
  end.

(** The elements [...v] spreads into an array literal. *)
Definition iterate (v : Value) : completion (list Value) :=
  match v with
  | VArr l => Normal l
  | VStr s => Normal (code_points s)
  | _ => Throw TypeError
  end.

(** [Array.prototype.filter] and [Array.prototype.map] with a callback that
    may throw. *)
Fixpoint filterM (f : Value -> completion bool) (l : list Value)
  : completion (list Value) :=
  match l with
  | [] => Normal []
  | x :: r =>
      b <- f x ;;
      r' <- filterM f r ;;
      Normal (if b then x :: r' else r')
  end.

Fixpoint mapM (f : Value -> completion Value) (l : list Value)
  : completion (list Value) :=
  match l with
  | [] => Normal []
  | x :: r =>
      y <- f x ;;
      r' <- mapM f r ;;
      Normal (y :: r')
  end.

(** [v.filter(f)] and [v.map(f)]: only an array has these methods. *)
Definition call_filter (v : Value) (f : Value -> completion bool)
  : completion Value :=
  match v with
  | VArr l => l' <- filterM f l ;; Normal (VArr l')
  | _ => Throw TypeError
  end.

Definition call_map (v : Value) (f : Value -> completion Value)
  : completion Value :=
  match v with
  | VArr l => l' <- mapM f l ;; Normal (VArr l')
  | _ => Throw TypeError
  end.

(** [String.prototype.charAt], [slice(1)] and [toUpperCase]; the latter on
    the ASCII letters, which is all [addModule] applies it to. *)
Definition charAt (s : jsstring) (i : nat) : jsstring :=
  match nth_error s i with
  | Some c => [c]
  | None => []
  end.

Definition slice_from (s : jsstring) (i : nat) : jsstring := skipn i s.

Definition toUpperCase (s : jsstring) : jsstring :=
  map (fun c => if (97 <=? c)%N && (c <=? 122)%N then (c - 32)%N else c) s.

(** ** JSON.stringify (ECMA-262, 25.5.2), without replacer or indentation *)

Definition hex_char (d : N) : code_unit :=
  if (d <? 10)%N then (48 + d)%N else (87 + d)%N.

(** UnicodeEscape: [\uXXXX] with lower-case hexadecimal digits. *)
Definition unicode_escape (c : code_unit) : jsstring :=
  [92%N; 117%N;
   hex_char ((c / 4096) mod 16)%N; hex_char ((c / 256) mod 16)%N;
   hex_char ((c / 16) mod 16)%N; hex_char (c mod 16)%N].

Definition quote_char (c : code_unit) : jsstring :=
  match c with
  | 8%N => [92%N; 98%N]
  | 9%N => [92%N; 116%N]
  | 10%N => [92%N; 110%N]
  | 12%N => [92%N; 102%N]
  | 13%N => [92%N; 114%N]
  | 34%N => [92%N; 34%N]
  | 92%N => [92%N; 92%N]
  | _ => if (c <? 32)%N then unicode_escape c else [c]
  end.

Fixpoint quote_chars (s : jsstring) : jsstring :=
  match s with
  | [] => []
  | c :: r =>
      if is_high_surrogate c then
        match r with
        | d :: r' =>
            if is_low_surrogate d then c :: d :: quote_chars r'
            else unicode_escape c ++ quote_chars r
        | [] => unicode_escape c
        end
      else if is_low_surrogate c then unicode_escape c ++ quote_chars r
      else quote_char c ++ quote_chars r
  end.

(** QuoteJSONString. *)
Definition quote (s : jsstring) : jsstring :=
  [34%N] ++ quote_chars s ++ [34%N].

Fixpoint join (l : list jsstring) : jsstring :=
  match l with
  | [] => []
  | [x] => x
  | x :: r => x ++ [44%N] ++ join r
  end.

(** SerializeJSONProperty: [None] stands for [undefined]. *)
Fixpoint serialize (v : Value) : option jsstring :=
  match v with
  | VUndefined => None
  | VNull => Some (str "null")
  | VBool true => Some (str "true")
  | VBool false => Some (str "false")
  | VNum x => Some (if is_finite x then Number_toString x else str "null")
  | VStr s => Some (quote s)
  | VArr l =>
      let fix elements (l : list Value) : list jsstring :=
        match l with
        | [] => []
        | x :: r =>
            match serialize x with
            | Some t => t
            | None => str "null"
            end :: elements r
        end in
      Some ([91%N] ++ join (elements l) ++ [93%N])
  | VObj props =>
      let fix members (l : list (jsstring * Value)) : list jsstring :=
        match l with
        | [] => []
        | (k, x) :: r =>
            match serialize x with
            | Some t => (quote k ++ [58%N] ++ t) :: members r
            | None => members r
            end
        end in
      Some ([123%N] ++ join (members props) ++ [125%N])
  end.

Definition JSON_stringify (v : Value) : option jsstring := serialize v.

(** ** JSON.parse (ECMA-262, 25.5.1, and the grammar of ECMA-404) *)

Definition is_ws (c : code_unit) : bool :=
  match c with
  | 9%N | 10%N | 13%N | 32%N => true
  | _ => false
  end.

Fixpoint skip_ws (s : jsstring) : jsstring :=
  match s with
  | c :: r => if is_ws c then skip_ws r else s
  | [] => []
  end.

Definition hex_value (c : code_unit) : option N :=
  if (48 <=? c)%N && (c <=? 57)%N then Some (c - 48)%N
  else if (97 <=? c)%N && (c <=? 102)%N then Some (c - 87)%N
  else if (65 <=? c)%N && (c <=? 70)%N then Some (c - 55)%N
  else None.

Definition hex4 (a b c d : code_unit) : option code_unit :=
  match hex_value a, hex_value b, hex_value c, hex_value d with
  | Some x, Some y, Some z, Some w => Some (x * 4096 + y * 256 + z * 16 + w)%N
  | _, _, _, _ => None
  end.

(** The characters of a string literal after the opening quote, up to and
    including the closing one. *)
Fixpoint parse_chars (s : jsstring) : option (jsstring * jsstring) :=
  match s with
  | [] => None
  | 34%N :: r => Some ([], r)
  | 92%N :: e :: r =>
      let simple (c : code_unit) :=
        match parse_chars r with
        | Some (t, rest) => Some (c :: t, rest)
        | None => None
        end in
      match e with
      | 34%N => simple 34%N
      | 92%N => simple 92%N
      | 47%N => simple 47%N
      | 98%N => simple 8%N
      | 102%N => simple 12%N
      | 110%N => simple 10%N
      | 114%N => simple 13%N
      | 116%N => simple 9%N
      | 117%N =>
          match r with
          | a :: b :: c :: d :: r' =>
              match hex4 a b c d, parse_chars r' with
              | Some u, Some (t, rest) => Some (u :: t, rest)
              | _, _ => None
              end
          | _ => None
          end
      | _ => None
      end
  | c :: r =>
      if (c <? 32)%N then None
      else match parse_chars r with
           | Some (t, rest) => Some (c :: t, rest)
           | None => None
           end
  end.

Fixpoint take_digits (s : jsstring) : jsstring * jsstring :=
  match s with
  | c :: r =>
      if is_digit c then let '(ds, rest) := take_digits r in (c :: ds, rest)
      else ([], s)
  | [] => ([], [])
  end.

(** The integer part: a single [0], or a non-zero digit and more digits. *)
Definition parse_int (s : jsstring) : option (jsstring * jsstring) :=
  match s with
  | 48%N :: r => Some ([48%N], r)
  | c :: r =>
      if is_digit c then let '(ds, rest) := take_digits r in Some (c :: ds, rest)
      else None
  | [] => None
  end.

Definition parse_frac (s : jsstring) : option (jsstring * jsstring) :=
  match s with
  | 46%N :: r =>
      match take_digits r with
      | ([], _) => None
      | (ds, rest) => Some (ds, rest)
      end
  | _ => Some ([], s)
  end.

Definition parse_exp (s : jsstring) : option (Z * jsstring) :=
  let digits (neg : bool) (r : jsstring) :=
    match take_digits r with
    | ([], _) => None
    | (ds, rest) =>
        Some (if neg then - digits_value ds else digits_value ds, rest)
    end in
  match s with
  | 101%N :: r | 69%N :: r =>
      match r with
      | 43%N :: r' => digits false r'
      | 45%N :: r' => digits true r'
      | _ => digits false r
      end
  | _ => Some (0, s)
  end.

(** A number token and its Number value. *)
Definition parse_number (s : jsstring) : option (number * jsstring) :=
  let '(neg, s1) := match s with
                    | 45%N :: r => (true, r)
                    | _ => (false, s)
                    end in
  match parse_int s1 with
  | None => None
  | Some (ip, s2) =>
      match parse_frac s2 with
      | None => None
      | Some (fp, s3) =>
          match parse_exp s3 with
          | None => None
          | Some (ex, s4) =>
              let x := number_of_decimal (digits_value (ip ++ fp))
                                         (ex - zlength fp) in
              Some (if neg then num_opp x else x, s4)
          end
      end
  end.

Fixpoint starts_with (p s : jsstring) : option jsstring :=
  match p, s with
  | [], _ => Some s
  | a :: p', b :: s' => if cu_eqb a b then starts_with p' s' else None
  | _ :: _, [] => None
  end.

(** The value at the head of [s] (after white space) and the rest of the
    input.  [fuel] bounds the nesting and the number of elements. *)
Fixpoint parse_value (fuel : nat) (s : jsstring) : option (Value * jsstring) :=
  match fuel with
  | O => None
  | S f =>
      match skip_ws s with
      | 91%N :: r =>
          match skip_ws r with
          | 93%N :: r' => Some (VArr [], r')
          | _ =>
              match parse_elements f r with
              | Some (l, r') => Some (VArr l, r')
              | None => None
              end
          end
      | 123%N :: r =>
          match skip_ws r with
          | 125%N :: r' => Some (VObj [], r')
          | _ =>
              match parse_members f r [] with
              | Some (props, r') => Some (VObj props, r')
              | None => None
              end
          end
      | 34%N :: r =>
          match parse_chars r with
          | Some (t, r') => Some (VStr t, r')
          | None => None
          end
      | 110%N :: r =>
          match starts_with (str "ull") r with
          | Some r' => Some (VNull, r')
          | None => None
          end
      | 116%N :: r =>
          match starts_with (str "rue") r with
          | Some r' => Some (VBool true, r')
          | None => None
          end
      | 102%N :: r =>
          match starts_with (str "alse") r with
          | Some r' => Some (VBool false, r')
          | None => None
          end
      | s' =>
          match parse_number s' with
          | Some (x, r') => Some (VNum x, r')
          | None => None
          end
      end
  end
with parse_elements (fuel : nat) (s : jsstring)
  : option (list Value * jsstring) :=
  match fuel with
  | O => None
  | S f =>
      match parse_value f s with
      | None => None
      | Some (v, r) =>
          match skip_ws r with
          | 44%N :: r' =>
              match parse_elements f r' with
              | Some (l, r'') => Some (v :: l, r'')
              | None => None
              end
          | 93%N :: r' => Some ([v], r')
          | _ => None
          end
      end
  end
with parse_members (fuel : nat) (s : jsstring)
  (acc : list (jsstring * Value))
  : option (list (jsstring * Value) * jsstring) :=
  match fuel with
  | O => None
  | S f =>
      match skip_ws s with
      | 34%N :: r =>
          match parse_chars r with
          | None => None
          | Some (k, r1) =>
              match skip_ws r1 with
              | 58%N :: r2 =>
                  match parse_value f r2 with
                  | None => None
                  | Some (v, r3) =>
                      let acc' := obj_set k v acc in
                      match skip_ws r3 with
                      | 44%N :: r4 => parse_members f r4 acc'
                      | 125%N :: r4 => Some (acc', r4)
                      | _ => None
                      end
                  end
              | _ => None
              end
          end
      | _ => None
      end
  end.

(** [JSON.parse(text)]: the value of the whole text, or a SyntaxError. *)
Definition JSON_parse (text : jsstring) : completion Value :=
  match parse_value (S (List.length text)) text with
  | Some (v, rest) =>
      match skip_ws rest with
      | [] => Normal v
      | _ => Throw SyntaxError
      end
  | None => Throw SyntaxError
  end.

(** ** The application state (App.jsx, lines 49-52)

    The four [useState] cells of [App], the origin's [localStorage] and the
    messages shown by [alert] so far. *)

Record State : Type := mkState {
  modules : Value;
  selected : Value;
  crew : number;
  controlsMode : jsstring;
  localStorage : list (jsstring * jsstring);
  alerts : list jsstring
}.

Definition setModules (v : Value) (st : State) : State :=
  mkState v (selected st) (crew st) (controlsMode st) (localStorage st)
          (alerts st).

Definition setSelected (v : Value) (st : State) : State :=
  mkState (modules st) v (crew st) (controlsMode st) (localStorage st)
          (alerts st).

Definition setCrew (x : number) (st : State) : State :=
  mkState (modules st) (selected st) x (controlsMode st) (localStorage st)
          (alerts st).

Definition alert (msg : jsstring) (st : State) : State :=
  mkState (modules st) (selected st) (crew st) (controlsMode st)
          (localStorage st) (alerts st ++ [msg]).

Fixpoint getItem (k : jsstring) (store : list (jsstring * jsstring))
  : option jsstring :=
  match store with
  | [] => None
  | (k', v) :: r => if jsstring_eqb k k' then Some v else getItem k r
  end.

Fixpoint setItem (k v : jsstring) (store : list (jsstring * jsstring))
  : list (jsstring * jsstring) :=
  match store with
  | [] => [(k, v)]
  | (k', v') :: r =>
      if jsstring_eqb k k' then (k', v) :: r else (k', v') :: setItem k v r
  end.

Definition setStorage (k v : jsstring) (st : State) : State :=
  mkState (modules st) (selected st) (crew st) (controlsMode st)
          (setItem k v (localStorage st)) (alerts st).

(** The state of a freshly mounted [App]; the storage is whatever earlier
    sessions left. *)
Definition initial (store : list (jsstring * jsstring)) : State :=
  mkState (VArr []) VNull (lit 4 0) (str "translate") store [].

(** ** addModule (App.jsx, lines 56-78)

    [now] is the reading of [Date.now()]; [r1], [r2] and [r3] are the three
    results of [Math.random()], in call order. *)

Definition types : list Value :=
  [VStr (str "cube"); VStr (str "sphere"); VStr (str "cylinder");
   VStr (str "cone"); VStr (str "solar"); VStr (str "tunnel")].

Definition colors : Value :=
  obj_literal
    [(str "cube", VStr (str "#00aaff"));
     (str "sphere", VStr (str "#ffcc00"));
     (str "cylinder", VStr (str "#00ffaa"));
     (str "cone", VStr (str "#ff4444"));
     (str "solar", VStr (str "#2233ff"));
     (str "tunnel", VStr (str "#aaaaaa"))].

Definition newModule (now r2 r3 : number) (type : jsstring) (color : Value)
  : Value :=
  obj_literal
    [(str "id", VNum now);
     (str "label",
      VStr (toUpperCase (charAt type 0) ++ slice_from type 1));
     (str "color", color);
     (str "size", VNum (lit 2 0));
     (str "type", VStr type);
     (str "position",
      VArr [VNum (num_sub (num_mul r2 (lit 6 0)) (lit 3 0));
            VNum (lit 0 0);
            VNum (num_sub (num_mul r3 (lit 6 0)) (lit 3 0))])].

Definition addModule (now r1 r2 r3 : number) (st : State)
  : completion State :=
  match array_get types
          (Math_floor (num_mul r1 (number_of_Z (zlength types)))) with
  | VStr type =>
      color <- Get colors type ;;
      let m := newModule now r2 r3 type color in
      l <- iterate (modules st) ;;
      id <- Get m (str "id") ;;
      Normal (setSelected id (setModules (VArr (l ++ [m])) st))
  | _ => Throw TypeError   (* [type.charAt] on [undefined] *)
  end.

(** ** deleteModule (App.jsx, lines 81-85) *)

Definition msg_select : jsstring := str "Select a module to delete!".

Definition deleteModule (st : State) : completion State :=
  if negb (truthy (selected st)) then Normal (alert msg_select st)
  else
    ms <- call_filter (modules st)
            (fun m => id <- Get m (str "id") ;;
                      Normal (negb (strict_eq id (selected st)))) ;;
    Normal (setSelected VNull (setModules ms st)).

(** ** updateSelected (App.jsx, lines 88-93) *)

Definition updateSelected (field : jsstring) (value : Value) (st : State)
  : completion State :=
  if negb (truthy (selected st)) then Normal st
  else
    ms <- call_map (modules st)
            (fun m => id <- Get m (str "id") ;;
                      Normal (if strict_eq id (selected st)
                              then spread_with m field value else m)) ;;
    Normal (setModules ms st).

(** ** saveLayout and loadLayout (App.jsx, lines 96-108) *)

Definition slot : jsstring := str "astrohab_layout".

Definition msg_saved : jsstring := [9989%N] ++ str " Layout saved!".
Definition msg_loaded : jsstring :=
  [55357%N; 56514%N] ++ str " Layout loaded!".

(** [setItem] stores the string form of its argument: ["undefined"] when
    [JSON.stringify] returns [undefined]. *)
Definition saveLayout (st : State) : completion State :=
  let text := match JSON_stringify (modules st) with
              | Some t => t
              | None => str "undefined"
              end in
  Normal (alert msg_saved (setStorage slot text st)).

Definition loadLayout (st : State) : completion State :=
  match getItem slot (localStorage st) with
  | Some (c :: t) =>
      data <- JSON_parse (c :: t) ;;
      Normal (alert msg_loaded (setModules data st))
  | _ => Normal st   (* [null], or the empty string: falsy *)
  end.

(** ** importLayout (App.jsx, lines 124-138)

    [file] is the text of the first selected file as [readAsText] delivers
    it to [reader.onload], [None] when no file was selected. *)

Definition msg_imported : jsstring := [9989%N] ++ str " Layout imported!".
Definition msg_invalid : jsstring := [10060%N] ++ str " Invalid JSON file!".

Definition importLayout (file : option jsstring) (st : State)
  : completion State :=
  match file with
  | None => Normal st
  | Some text =>
      match JSON_parse text with
      | Normal data => Normal (alert msg_imported (setModules data st))
      | Throw _ => Normal (alert msg_invalid st)
      end
  end.

(** ** Selecting by click (App.jsx, line 190) and the selected module
    (line 140) *)

Definition onClick (m : Value) (st : State) : completion State :=
  id <- Get m (str "id") ;;
  Normal (setSelected id st).

Fixpoint findM (f : Value -> completion bool) (l : list Value)
  : completion Value :=
  match l with
  | [] => Normal VUndefined
  | x :: r => b <- f x ;; if b then Normal x else findM f r
  end.

Definition selectedModule (st : State) : completion Value :=
  match modules st with
  | VArr l =>
      findM (fun m => id <- Get m (str "id") ;;
                      Normal (strict_eq id (selected st))) l
  | _ => Throw TypeError
  end.

(** ** Resource calculations (App.jsx, lines 143-145, 206) *)

Definition dailyOxygen (crew : number) : jsstring :=
  toFixed (num_mul crew (lit 84 (-2))) 2.
Definition dailyWater (crew : number) : jsstring :=
  toFixed (num_mul crew (lit 25 (-1))) 2.
Definition dailyFood (crew : number) : jsstring :=
  toFixed (num_mul crew (lit 62 (-2))) 2.

Definition onChange_crew (value : number) (st : State) : State :=
  setCrew value st.

(* ================================================================== *)
(** * Part I, continued. Notions used in the statements               *)
(* ================================================================== *)

(** The record after [k] one-bit shifts of the exact integer [M]: quotient,
    round bit and sticky bit in terms of the Euclidean division by [2^k]. *)
Definition shifted (M : Z) (k : Z) : shr_record :=
  let q := M / 2 ^ k in
  let rem := M mod 2 ^ k in
  Build_shr_record q (2 ^ k <=? 2 * rem)
                   (negb (rem =? 0) && negb (2 * rem =? 2 ^ k)).

(** Round to nearest, ties to even, of [M / 2^n]. *)
Definition rne (M n : Z) : Z :=
  let q := M / 2 ^ n in
  let rem := M mod 2 ^ n in
  if rem =? 0 then q
  else match 2 * rem ?= 2 ^ n with
       | Lt => q
       | Eq => if Z.even q then q else q + 1
       | Gt => q + 1
       end.

(** The last step of [binary_round_aux]. *)
Definition finish (sx : bool) (m e : Z) : spec_float :=
  match m with
  | Z0 => S754_zero sx
  | Zpos p => if e <=? emax - prec then S754_finite sx p e else S754_infinity sx
  | Zneg _ => S754_nan
  end.

Definition fexp64 (e : Z) : Z := fexp prec emax e.

(** The value [m * 2^e] in units of [2^-2200], an integer for every exponent
    that occurs. *)
Definition scaled (m e : Z) : Z := m * 2 ^ (e + 2200).

(** What [Math.random()] returns: a number of the format, at least [+0] and
    below [1]. *)
Definition is_random (r : number) : bool :=
  valid_number r && num_leb (lit 0 0) r && num_ltb r (lit 1 0).

Definition six_m : positive := 6755399441055744.   (* 3 * 2^51 *)

(** The largest number below 6, [6 - 2^-50]. *)
Definition below6_m : positive := 6755399441055743.

(** [3 - 2^-50], the largest number below 3. *)
Definition below3_m : positive := 6755399441055742.

(** What may follow a number token: the end of the text, or a character
    that continues none of its parts. *)
Definition delimits (rest : jsstring) : bool :=
  match rest with
  | [] => true
  | c :: _ => negb (is_digit c) && negb (c =? 46)%N
              && negb (c =? 101)%N && negb (c =? 69)%N
  end.

Definition no_digit_ahead (rest : jsstring) : bool :=
  match rest with
  | [] => true
  | c :: _ => negb (is_digit c)
  end.

(** The numbers JSON can carry: finite, of the format, and not [-0]. *)
Definition json_number (x : number) : bool :=
  match x with
  | S754_zero s => negb s
  | S754_finite _ m e => bounded prec emax m e
  | _ => false
  end.

Definition cons_char (c : code_unit) (p : option (jsstring * jsstring))
  : option (jsstring * jsstring) :=
  match p with
  | Some (t, rest) => Some (c :: t, rest)
  | None => None
  end.

(** The id of a record, [undefined] where reading it throws. *)
Definition id_of (m : Value) : Value :=
  match Get m (str "id") with
  | Normal v => v
  | Throw _ => VUndefined
  end.

(** [m.id === v] evaluates to [true] / to [false]. *)
Definition has_id (v m : Value) : Prop :=
  exists id, Get m (str "id") = Normal id /\ strict_eq id v = true.
Definition other_id (v m : Value) : Prop :=
  exists id, Get m (str "id") = Normal id /\ strict_eq id v = false.

(** The selection is none, or the id of a record of the registry. *)
Definition selection_valid (st : State) : Prop :=
  selected st = VNull \/
  exists l m, modules st = VArr l /\ In m l /\ has_id (selected st) m.

(** The document shape of section 6 of the specification: an ordered
    sequence of module records. *)
Definition module_record (v : Value) : Prop :=
  exists props, v = VObj props /\
    forall k, In k [str "id"; str "label"; str "color"; str "size";
                    str "type"; str "position"] ->
              lookup k props <> None.
Definition registry_shape (v : Value) : Prop :=
  exists l, v = VArr l /\ Forall module_record l.

(** Induction on values, with the hypothesis for every element of an array
    and every property value of an object. *)
Fixpoint Value_induction (P : Value -> Prop)
  (Hundef : P VUndefined) (Hnull : P VNull)
  (Hbool : forall b, P (VBool b)) (Hnum : forall x, P (VNum x))
  (Hstr : forall s, P (VStr s))
  (Harr : forall l, Forall P l -> P (VArr l))
  (Hobj : forall props, Forall (fun kv => P (snd kv)) props -> P (VObj props))
  (v : Value) {struct v} : P v :=
  match v with
  | VUndefined => Hundef
  | VNull => Hnull
  | VBool b => Hbool b
  | VNum x => Hnum x
  | VStr s => Hstr s
  | VArr l =>
      Harr l ((fix go (l : list Value) : Forall P l :=
                 match l with
                 | [] => Forall_nil P
                 | x :: r =>
                     Forall_cons x
                       (Value_induction P Hundef Hnull Hbool Hnum Hstr Harr
                          Hobj x) (go r)
                 end) l)
  | VObj props =>
      Hobj props
        ((fix go (l : list (jsstring * Value))
            : Forall (fun kv => P (snd kv)) l :=
            match l with
            | [] => Forall_nil _
            | kv :: r =>
                Forall_cons kv
                  (Value_induction P Hundef Hnull Hbool Hnum Hstr Harr Hobj
                     (snd kv)) (go r)
            end) props)
  end.

(** The keys of an ordinary object in enumeration order: no key twice, the
    array indices first and ascending, then the other keys. *)
Fixpoint keys_canonical (ks : list jsstring) : bool :=
  match ks with
  | [] => true
  | k :: r =>
      negb (existsb (jsstring_eqb k) r)
      && match key_index k with
         | Some i =>
             forallb (fun k' => match key_index k' with
                                | Some j => i <? j
                                | None => true
                                end) r
         | None =>
             forallb (fun k' => match key_index k' with
                                | Some _ => false
                                | None => true
                                end) r
         end
      && keys_canonical r
  end.

(** The values [JSON.stringify] and [JSON.parse] carry faithfully: no
    [undefined], numbers that are finite and not [-0], objects whose keys
    are in enumeration order. *)
Fixpoint json_safe (v : Value) : bool :=
  match v with
  | VUndefined => false
  | VNull | VBool _ | VStr _ => true
  | VNum x => json_number x
  | VArr l =>
      (fix all (l : list Value) : bool :=
         match l with
         | [] => true
         | x :: r => json_safe x && all r
         end) l
  | VObj props =>
      keys_canonical (map fst props)
      && (fix all (l : list (jsstring * Value)) : bool :=
            match l with
            | [] => true
            | (_, x) :: r => json_safe x && all r
            end) props
  end.

(** The fuel the parser needs for a value. *)
Fixpoint weight (v : Value) : nat :=
  match v with
  | VArr l =>
      S ((fix go (l : list Value) : nat :=
            match l with
            | [] => O
            | x :: r => S (weight x + go r)
            end) l)
  | VObj props =>
      S ((fix go (l : list (jsstring * Value)) : nat :=
            match l with
            | [] => O
            | (_, x) :: r => S (weight x + go r)
            end) props)
  | _ => 1%nat
  end.

Definition weights (l : list Value) : nat :=
  fold_right (fun x n => S (weight x + n)) O l.

Definition element_text (x : Value) : jsstring :=
  match serialize x with
  | Some t => t
  | None => str "null"
  end.

Definition member_text (kv : jsstring * Value) : jsstring :=
  quote (fst kv) ++ [58%N] ++ element_text (snd kv).

(** The first character of a serialized value opens a value. *)
Definition opens_value (c : code_unit) : Prop :=
  is_digit c = true \/
  In c [45%N; 110%N; 116%N; 102%N; 34%N; 91%N; 123%N].

(** A value whose text parses back to it, whatever follows. *)
Definition parses_back (v : Value) : Prop :=
  exists t,
    serialize v = Some t /\
    forall fuel rest,
      (weight v <= fuel)%nat -> delimits rest = true ->
      parse_value fuel (t ++ rest) = Some (v, rest).

(** The digits of [n] hundredths: the whole part, a point, two decimals. *)
Definition two_decimals (n : Z) : jsstring :=
  to_digits (n / 100)
  ++ [46%N; digit_char (n / 10 mod 10); digit_char (n mod 10)].

Definition strip_minus (s : jsstring) : jsstring :=
  match s with
  | 45%N :: r => r
  | _ => s
  end.

(** An optional minus sign, one or more digits, a point, two digits. *)
Definition two_decimal_format (s : jsstring) : bool :=
  match rev (strip_minus s) with
  | d0 :: d1 :: 46%N :: ip =>
      is_digit d0 && is_digit d1 && forallb is_digit ip
      && negb (match ip with [] => true | _ => false end)
  | _ => false
  end.

(** A registry with one record whose id is [0], that record selected. *)
Definition zero_record : Value :=
  VObj [(str "id", VNum (lit 0 0)); (str "label", VStr (str "Old"))].
Definition zero_selected : State :=
  mkState (VArr [zero_record]) (VNum (lit 0 0)) (lit 4 0) (str "translate")
          [] [].

(** The text [[{"id":0,"label":"Old"}]]. *)
Definition zero_text : jsstring :=
  str "[{" ++ quote (str "id") ++ str ":0," ++ quote (str "label") ++ str ":"
  ++ quote (str "Old") ++ str "}]".

Definition sample_now : number := lit 1730000000000 0.
Definition sample_r : number := lit 5 (-1).

(** The state after one add from the initial state. *)
Definition added_once : State :=
  match addModule sample_now sample_r sample_r sample_r (initial []) with
  | Normal st => st
  | Throw _ => initial []
  end.

Definition added_record : Value :=
  match modules added_once with
  | VArr (m :: _) => m
  | _ => VNull
  end.

Definition two_records : list Value :=
  [VObj [(str "id", VNum (lit 7 0)); (str "label", VStr (str "A"))];
   VObj [(str "id", VNum (lit 8 0)); (str "label", VStr (str "B"))]].
Definition second_selected : State :=
  mkState (VArr two_records) (VNum (lit 8 0)) (lit 4 0) (str "translate")
          [] [].

(** Type, label and colour of the six kinds of module. *)
Definition catalogue : list (jsstring * jsstring * jsstring) :=
  [(str "cube", str "Cube", str "#00aaff");
   (str "sphere", str "Sphere", str "#ffcc00");
   (str "cylinder", str "Cylinder", str "#00ffaa");
   (str "cone", str "Cone", str "#ff4444");
   (str "solar", str "Solar", str "#2233ff");
   (str "tunnel", str "Tunnel", str "#aaaaaa")].


(** The record [addModule] builds, written out. *)
Definition module_of (now : number) (type label color : jsstring)
  (x z : number) : Value :=
  VObj [(str "id", VNum now); (str "label", VStr label);
        (str "color", VStr color); (str "size", VNum (lit 2 0));
        (str "type", VStr type);
        (str "position", VArr [VNum x; VNum (lit 0 0); VNum z])].


(** What one add reads from its environment: the clock and three draws. *)
Record inputs : Type := mkInputs {
  reading : number;
  draw1 : number;
  draw2 : number;
  draw3 : number
}.

Fixpoint addModules (ins : list inputs) (st : State) : completion State :=
  match ins with
  | [] => Normal st
  | i :: r =>
      st' <- addModule (reading i) (draw1 i) (draw2 i) (draw3 i) st ;;
      addModules r st'
  end.

Fixpoint pairwise {A} (R : A -> A -> Prop) (l : list A) : Prop :=
  match l with
  | [] => True
  | x :: r => Forall (R x) r /\ pairwise R r
  end.

Definition type_of (m : Value) : Value :=
  match Get m (str "type") with
  | Normal v => v
  | Throw _ => VUndefined
  end.

Definition same_instant : inputs :=
  mkInputs sample_now sample_r sample_r sample_r.

Definition added_twice : State :=
  match addModules [same_instant; same_instant] (initial []) with
  | Normal st => st
  | Throw _ => initial []
  end.

Definition later_instant : inputs :=
  mkInputs (lit 1730000000001 0) sample_r sample_r sample_r.

(** The text [[{"id":1,"size":1e999}]]. *)
Definition overflow_text : jsstring :=
  str "[{" ++ quote (str "id") ++ str ":1," ++ quote (str "size")
  ++ str ":1e999}]".

Definition overflow_state : State :=
  match importLayout (Some overflow_text) (initial []) with
  | Normal st => st
  | Throw _ => initial []
  end.

(** The three figures of a crew, each with the rate it is computed from. *)
Definition estimates (crew : number) : list (number * jsstring) :=
  [(lit 84 (-2), dailyOxygen crew);
   (lit 25 (-1), dailyWater crew);
   (lit 62 (-2), dailyFood crew)].

(** ** Moving a module (App.jsx, lines 176-185)

    [onMouseUp] of the transform gizmo around the record [m]; [px], [py] and
    [pz] are the coordinates read from the dragged object. *)

Definition onMouseUp (m : Value) (px py pz : number) (st : State)
  : completion State :=
  ms <- call_map (modules st)
          (fun x => id <- Get x (str "id") ;;
                    mid <- Get m (str "id") ;;
                    Normal (if strict_eq id mid
                            then spread_with x (str "position")
                                   (VArr [VNum px; VNum py; VNum pz])
                            else x)) ;;
  Normal (setModules ms st).

(** [isSelected] of the render loop (App.jsx, line 160). *)
Definition isSelected (m : Value) (st : State) : completion bool :=
  id <- Get m (str "id") ;;
  Normal (strict_eq (selected st) id).

(** The values [===] compares by what they hold; two objects or arrays it
    compares by identity. *)
Definition is_primitive (v : Value) : bool :=
  match v with
  | VArr _ | VObj _ => false
  | _ => true
  end.

Definition stored_text (v : Value) : jsstring :=
  match JSON_stringify v with
  | Some t => t
  | None => str "undefined"
  end.

Definition other_store : list (jsstring * jsstring) :=
  [(str "theme", str "dark"); (slot, str "[]")].

Definition broken_store : list (jsstring * jsstring) := [(slot, str "[1,")].

(** The state after one add and the import of the text [[{"id":5}]]. *)
Definition dangling : State :=
  setModules (VArr [VObj [(str "id", VNum (lit 5 0))]]) added_once.

(** The draws of an add are results of [Math.random()] and its clock
    reading is a finite number other than [-0]. *)
Definition sane (i : inputs) : Prop :=
  json_number (reading i) = true /\
  is_random (draw1 i) = true /\ is_random (draw2 i) = true /\
  is_random (draw3 i) = true.

(** ** JSON.stringify with indentation (ECMA-262, 25.5.2), no replacer *)

Fixpoint join_with (sep : jsstring) (l : list jsstring) : jsstring :=
  match l with
  | [] => []
  | [x] => x
  | x :: r => x ++ sep ++ join_with sep r
  end.

(** The last steps of SerializeJSONArray and SerializeJSONObject: the parts
    between the brackets [open] and [close], one per line at the new
    indentation when there is a gap. *)
Definition wrap (open close : code_unit) (gap indent : jsstring)
  (parts : list jsstring) : jsstring :=
  match parts with
  | [] => [open; close]
  | _ =>
      match gap with
      | [] => [open] ++ join_with [44%N] parts ++ [close]
      | _ =>
          let inner := indent ++ gap in
          [open] ++ [10%N] ++ inner
          ++ join_with ([44%N; 10%N] ++ inner) parts
          ++ [10%N] ++ indent ++ [close]
      end
  end.

(** The separator after the colon of a member. *)
Definition colon (gap : jsstring) : jsstring :=
  match gap with
  | [] => [58%N]
  | _ => [58%N; 32%N]
  end.

(** SerializeJSONProperty with the state's [gap] and [indent]. *)
Fixpoint serialize_gap (gap indent : jsstring) (v : Value)
  : option jsstring :=
  match v with
  | VUndefined => None
  | VNull => Some (str "null")
  | VBool true => Some (str "true")
  | VBool false => Some (str "false")
  | VNum x => Some (if is_finite x then Number_toString x else str "null")
  | VStr s => Some (quote s)
  | VArr l =>
      let fix elements (l : list Value) : list jsstring :=
        match l with
        | [] => []
        | x :: r =>
            match serialize_gap gap (indent ++ gap) x with
            | Some t => t
            | None => str "null"
            end :: elements r
        end in
      Some (wrap 91%N 93%N gap indent (elements l))
  | VObj props =>
      let fix members (l : list (jsstring * Value)) : list jsstring :=
        match l with
        | [] => []
        | (k, x) :: r =>
            match serialize_gap gap (indent ++ gap) x with
            | Some t => (quote k ++ colon gap ++ t) :: members r
            | None => members r
            end
        end in
      Some (wrap 123%N 125%N gap indent (members props))
  end.

(** [JSON.stringify(v, null, space)] for a number of spaces [space]: the gap
    is that many spaces, at most ten. *)
Definition JSON_stringify_space (v : Value) (space : Z) : option jsstring :=
  serialize_gap (repeat 32%N (Z.to_nat (Z.min 10 space))) [] v.

(** ** exportLayout (App.jsx, lines 111-121)

    A string handed to the [Blob] constructor is converted to scalar
    values: a surrogate code unit without its partner becomes U+FFFD. *)

Fixpoint to_usv (s : jsstring) : jsstring :=
  match s with
  | [] => []
  | c :: r =>
      if is_high_surrogate c then
        match r with
        | d :: r' =>
            if is_low_surrogate d then c :: d :: to_usv r'
            else 65533%N :: to_usv r
        | [] => [65533%N]
        end
      else if is_low_surrogate c then 65533%N :: to_usv r
      else c :: to_usv r
  end.

(** The file the browser is told to download: its name, the type of the
    blob and the text the blob holds (as scalar values; on disk they are
    encoded in UTF-8). *)
Record download : Type := mkDownload {
  file_name : jsstring;
  mime_type : jsstring;
  file_text : jsstring
}.

Definition exportLayout (st : State) : download :=
  let text := match JSON_stringify_space (modules st) 2 with
              | Some t => t
              | None => str "undefined"
              end in
  mkDownload (str "astrohab_layout.json") (str "application/json")
             (to_usv text).

Definition element_text_gap (gap indent : jsstring) (x : Value) : jsstring :=
  match serialize_gap gap indent x with
  | Some t => t
  | None => str "null"
  end.

Definition member_text_gap (gap indent : jsstring) (kv : jsstring * Value)
  : list jsstring :=
  match serialize_gap gap indent (snd kv) with
  | Some t => [quote (fst kv) ++ colon gap ++ t]
  | None => []
  end.

(** *** The shape of an indented text *)

Definition all_ws (w : jsstring) : Prop := forallb is_ws w = true.

(** *** Elements and members, whatever white space separates them *)

Definition parses (x : Value) (t : jsstring) : Prop :=
  forall fuel rest,
    (weight x <= fuel)%nat -> delimits rest = true ->
    parse_value fuel (t ++ rest) = Some (x, rest).

Definition member (wc : jsstring) (T : Value -> jsstring)
  (kv : jsstring * Value) : jsstring :=
  quote (fst kv) ++ (58%N :: wc) ++ T (snd kv).

(** A value whose indented text, at every indentation, opens a value, is
    long enough to fuel its own parse, and parses back. *)
Definition parses_back_gap (gap : jsstring) (v : Value) : Prop :=
  forall indent, all_ws indent ->
    exists c t,
      serialize_gap gap indent v = Some (c :: t) /\
      opens_value c /\
      (weight v <= List.length (c :: t))%nat /\
      parses v (c :: t).

(** ** The text of [JSON.stringify] holds no lone surrogate *)

(** A text the conversion to scalar values leaves alone, whatever follows
    it. *)
Definition stable (t : jsstring) : Prop :=
  forall b, to_usv (t ++ b) = t ++ to_usv b.

Definition is_ascii (c : code_unit) : bool := (c <? 128)%N.

Definition indented_text (v : Value) : jsstring :=
  match JSON_stringify_space v 2 with
  | Some t => t
  | None => str "undefined"
  end.

(** ** What a save keeps of a registry *)

(** The value that comes back from the text of [v]: [undefined] in an
    array, [NaN] and the infinities become [null], [-0] becomes [0], and a
    property whose value is [undefined] is gone. *)
Fixpoint normalize (v : Value) : Value :=
  match v with
  | VUndefined => VNull
  | VNum x =>
      match x with
      | S754_zero _ => VNum pos_zero
      | S754_finite _ _ _ => VNum x
      | _ => VNull
      end
  | VArr l =>
      VArr ((fix go (l : list Value) : list Value :=
               match l with
               | [] => []
               | x :: r => normalize x :: go r
               end) l)
  | VObj props =>
      VObj ((fix go (l : list (jsstring * Value))
               : list (jsstring * Value) :=
               match l with
               | [] => []
               | (k, VUndefined) :: r => go r
               | (k, x) :: r => (k, normalize x) :: go r
               end) props)
  | _ => v
  end.

(** Numbers of the format and object keys in enumeration order, at every
    depth. *)
Fixpoint well_formed (v : Value) : bool :=
  match v with
  | VNum x => valid_number x
  | VArr l =>
      (fix all (l : list Value) : bool :=
         match l with
         | [] => true
         | x :: r => well_formed x && all r
         end) l
  | VObj props =>
      keys_canonical (map fst props)
      && (fix all (l : list (jsstring * Value)) : bool :=
            match l with
            | [] => true
            | (_, x) :: r => well_formed x && all r
            end) props
  | _ => true
  end.

Definition kept (props : list (jsstring * Value))
  : list (jsstring * Value) :=
  flat_map (fun kv => match snd kv with
                      | VUndefined => []
                      | x => [(fst kv, normalize x)]
                      end) props.

(** A well-formed registry with values the text does not carry. *)
Definition unsafe_state : State :=
  setModules (VArr [VNum Infinity; VNum (S754_zero true); VUndefined])
             (initial []).

(** ** Number(string): StringToNumber (ECMA-262, 7.1.4.1.1)

    As in [JSON.parse], a decimal literal denotes the Number value of its
    exact mathematical value. *)

(** StrWhiteSpaceChar: the white space and the line terminators of the
    language. *)
Definition is_str_ws (c : code_unit) : bool :=
  existsb (N.eqb c)
    [9%N; 10%N; 11%N; 12%N; 13%N; 32%N; 160%N; 5760%N; 8232%N; 8233%N;
     8239%N; 8287%N; 12288%N; 65279%N]
  || ((8192 <=? c)%N && (c <=? 8202)%N).

Fixpoint drop_ws (s : jsstring) : jsstring :=
  match s with
  | c :: r => if is_str_ws c then drop_ws r else s
  | [] => []
  end.

Definition trim (s : jsstring) : jsstring := rev (drop_ws (rev (drop_ws s))).

(** StrUnsignedDecimalLiteral other than [Infinity]: digits, a point and
    digits, an exponent; at least one digit before the exponent. *)
Definition decimal_literal (s : jsstring) : option number :=
  let '(ip, s2) := take_digits s in
  let '(fp, s3) := match s2 with
                   | 46%N :: r => take_digits r
                   | _ => ([], s2)
                   end in
  match ip ++ fp with
  | [] => None
  | ds =>
      match parse_exp s3 with
      | Some (ex, []) =>
          Some (number_of_decimal (digits_value ds) (ex - zlength fp))
      | _ => None
      end
  end.

Definition str_unsigned_decimal (s : jsstring) : option number :=
  if jsstring_eqb s (str "Infinity") then Some Infinity
  else decimal_literal s.

Definition str_decimal (s : jsstring) : option number :=
  match s with
  | 43%N :: r => str_unsigned_decimal r
  | 45%N :: r =>
      match str_unsigned_decimal r with
      | Some x => Some (num_opp x)
      | None => None
      end
  | _ => str_unsigned_decimal s
  end.

(** The value of a non-empty string of digits in the given radix. *)
Fixpoint radix_value (radix : Z) (acc : Z) (s : jsstring) : option Z :=
  match s with
  | [] => Some acc
  | c :: r =>
      match hex_value c with
      | Some d =>
          if Z.of_N d <? radix then radix_value radix (acc * radix + Z.of_N d) r
          else None
      | None => None
      end
  end.

(** NonDecimalIntegerLiteral: [0x], [0o] and [0b] literals, unsigned. *)
Definition non_decimal_literal (s : jsstring) : option number :=
  match s with
  | 48%N :: p :: d :: r =>
      let radix :=
        if (p =? 120)%N || (p =? 88)%N then Some 16
        else if (p =? 111)%N || (p =? 79)%N then Some 8
        else if (p =? 98)%N || (p =? 66)%N then Some 2
        else None in
      match radix with
      | Some b =>
          match radix_value b 0 (d :: r) with
          | Some n => Some (number_of_Z n)
          | None => None
          end
      | None => None
      end
  | _ => None
  end.

Definition StringToNumber (s : jsstring) : number :=
  match trim s with
  | [] => pos_zero
  | t =>
      match non_decimal_literal t with
      | Some x => x
      | None =>
          match str_decimal t with
          | Some x => x
          | None => NaN
          end
      end
  end.

(** The [onChange] handlers of the two number inputs (App.jsx, lines 206
    and 254); [value] is [e.target.value]. *)
Definition onChange_crew_input (value : jsstring) (st : State) : State :=
  onChange_crew (StringToNumber value) st.

Definition onChange_size_input (value : jsstring) (st : State)
  : completion State :=
  updateSelected (str "size") (VNum (StringToNumber value)) st.

(** ** What Number::toString prints, Number(string) reads *)

(** A printable ASCII character other than the space. *)
Definition token_char (c : code_unit) : bool := (33 <=? c)%N && (c <? 127)%N.

(** The characters of a finite number's text. *)
Definition numeric_char (c : code_unit) : bool :=
  is_digit c || existsb (N.eqb c) [43%N; 45%N; 46%N; 101%N].

(** ** Conversions and arithmetic on values (ECMA-262, 7.1 and 13.15)

    The values here come from JSON texts and from the handlers: an object
    has data properties only, none of them callable, so a property named
    [toString] hides the method of the prototype and makes the conversion
    to a primitive fail. *)

Definition num_add (x y : number) : number := SFadd prec emax x y.
Definition num_div (x y : number) : number := SFdiv prec emax x y.

(** ToString; on an array the elements are joined as by
    [Array.prototype.join]. *)
Fixpoint ToString (v : Value) : completion jsstring :=
  match v with
  | VUndefined => Normal (str "undefined")
  | VNull => Normal (str "null")
  | VBool true => Normal (str "true")
  | VBool false => Normal (str "false")
  | VNum x => Normal (Number_toString x)
  | VStr s => Normal s
  | VArr l =>
      let fix parts (l : list Value) : completion (list jsstring) :=
        match l with
        | [] => Normal []
        | x :: r =>
            t <- match x with
                 | VUndefined | VNull => Normal []
                 | _ => ToString x
                 end ;;
            ts <- parts r ;;
            Normal (t :: ts)
        end in
      ts <- parts l ;;
      Normal (join ts)
  | VObj props =>
      match lookup (str "toString") props with
      | Some _ => Throw TypeError
      | None => Normal (str "[object Object]")
      end
  end.

Definition ToNumber (v : Value) : completion number :=
  match v with
  | VUndefined => Normal NaN
  | VNull => Normal pos_zero
  | VBool b => Normal (if b then lit 1 0 else pos_zero)
  | VNum x => Normal x
  | VStr s => Normal (StringToNumber s)
  | VArr _ | VObj _ => s <- ToString v ;; Normal (StringToNumber s)
  end.

(** [a / y], [a * y] and [a + y] for a number [y]; the sum is a
    concatenation when [a] converts to a string. *)
Definition js_div (a : Value) (y : number) : completion Value :=
  x <- ToNumber a ;; Normal (VNum (num_div x y)).
Definition js_mul (a : Value) (y : number) : completion Value :=
  x <- ToNumber a ;; Normal (VNum (num_mul x y)).
Definition js_add (a : Value) (y : number) : completion Value :=
  match a with
  | VStr _ | VArr _ | VObj _ =>
      s <- ToString a ;; Normal (VStr (s ++ Number_toString y))
  | _ => x <- ToNumber a ;; Normal (VNum (num_add x y))
  end.

(** ** The Module component (App.jsx, lines 16-46) *)

Inductive geometry : Type :=
| boxGeometry (args : list Value)
| sphereGeometry (args : list Value)
| cylinderGeometry (args : list Value)
| coneGeometry (args : list Value)
| planeGeometry (args : list Value).

(** What [Module] returns: the group, its mesh with the geometries that are
    rendered (a child that is [false] renders nothing) and the material,
    and the label above. *)
Record module_view : Type := mkModuleView {
  group_position : Value;
  mesh_rotation : list number;
  mesh_geometries : list geometry;
  material_color : Value;
  material_metalness : number;
  text_position : list Value;
  text_children : Value
}.

Definition prop (k : string) (props : list (jsstring * Value)) : Value :=
  match lookup (str k) props with
  | Some v => v
  | None => VUndefined
  end.

(** [Math.PI]. *)
Definition Math_PI : number := lit 3141592653589793 (-15).

(** [cond && <g args={...} />] as a child. *)
Definition when (cond : bool) (g : completion geometry)
  : completion (list geometry) :=
  if cond then x <- g ;; Normal [x] else Normal [].

(** [type === t]. *)
Definition is_type (type : Value) (t : string) : bool :=
  strict_eq type (VStr (str t)).

Definition Module (props : list (jsstring * Value))
  : completion module_view :=
  let position := prop "position" props in
  let color := prop "color" props in
  let label := prop "label" props in
  let size := prop "size" props in
  let type := prop "type" props in
  let n32 := VNum (lit 32 0) in
  let rotation :=
    if is_type type "solar"
    then [num_div (num_opp Math_PI) (lit 2 0); lit 0 0; lit 0 0]
    else [lit 0 0; lit 0 0; lit 0 0] in
  g1 <- when (is_type type "cube") (Normal (boxGeometry [size; size; size])) ;;
  g2 <- when (is_type type "sphere")
          (a <- js_div size (lit 15 (-1)) ;;
           Normal (sphereGeometry [a; n32; n32])) ;;
  g3 <- when (is_type type "cylinder")
          (a <- js_div size (lit 15 (-1)) ;;
           b <- js_div size (lit 15 (-1)) ;;
           c <- js_mul size (lit 15 (-1)) ;;
           Normal (cylinderGeometry [a; b; c; n32])) ;;
  g4 <- when (is_type type "cone")
          (a <- js_div size (lit 12 (-1)) ;;
           b <- js_mul size (lit 18 (-1)) ;;
           Normal (coneGeometry [a; b; n32])) ;;
  g5 <- when (is_type type "solar")
          (a <- js_mul size (lit 3 0) ;;
           b <- js_mul size (lit 2 0) ;;
           Normal (planeGeometry [a; b])) ;;
  g6 <- when (is_type type "tunnel")
          (a <- js_div size (lit 3 0) ;;
           b <- js_div size (lit 3 0) ;;
           c <- js_mul size (lit 3 0) ;;
           Normal (cylinderGeometry [a; b; c; n32])) ;;
  let metalness := if is_type type "solar" then lit 8 (-1) else lit 3 (-1) in
  y <- js_add size (lit 5 (-1)) ;;
  Normal (mkModuleView position rotation
            (g1 ++ g2 ++ g3 ++ g4 ++ g5 ++ g6)
            color metalness [VNum (lit 0 0); y; VNum (lit 0 0)] label).

(** ** What App renders (App.jsx, lines 140-288) *)

(** React turns the key of an element into a string when the element is
    created, inside the component that creates it: ['' + key] for a key
    that is not [undefined] (an element without one has the key [null],
    here [None]). *)
Definition element_key (key : Value) : completion (option jsstring) :=
  match key with
  | VUndefined => Normal None
  | _ => s <- ToString key ;; Normal (Some s)
  end.

(** One child of the canvas: the key of the fragment, whether the module
    is inside the transform gizmo (else it is inside a mesh that selects it
    on click), whether it is inside a [RotatingPanel], and the key of the
    [Module] element, which React takes from the attributes [{...m}] the
    element is created with. *)
Record item_view : Type := mkItem {
  item_key : option jsstring;
  item_gizmo : bool;
  item_rotating : bool;
  item_module_key : option jsstring
}.

(** The fields of the edit panel. *)
Record panel_view : Type := mkPanel {
  panel_label : Value;
  panel_color : Value;
  panel_size : Value;
  panel_type : Value;
  panel_mode : jsstring
}.

Record app_view : Type := mkView {
  view_items : list item_view;
  view_crew : number;
  view_oxygen : jsstring;
  view_water : jsstring;
  view_food : jsstring;
  view_panel : option panel_view
}.

(** The callback of [modules.map], in the order of evaluation: [m.id] for
    [isSelected], [m.type], the [Module] element, and last the fragment
    with [m.id] as key. *)
Definition render_item (st : State) (m : Value) : completion item_view :=
  id <- Get m (str "id") ;;
  let isSelected := strict_eq (selected st) id in
  type <- Get m (str "type") ;;
  module_key <- element_key (prop "key" (own_props m)) ;;
  id' <- Get m (str "id") ;;
  key <- element_key id' ;;
  Normal (mkItem key isSelected (strict_eq type (VStr (str "solar")))
            module_key).

Fixpoint render_items (st : State) (l : list Value)
  : completion (list item_view) :=
  match l with
  | [] => Normal []
  | m :: r =>
      it <- render_item st m ;;
      its <- render_items st r ;;
      Normal (it :: its)
  end.

Definition render_panel (st : State) (sm : Value)
  : completion (option panel_view) :=
  if truthy sm then
    label <- Get sm (str "label") ;;
    color <- Get sm (str "color") ;;
    size <- Get sm (str "size") ;;
    type <- Get sm (str "type") ;;
    Normal (Some (mkPanel label color size type (controlsMode st)))
  else Normal None.

Definition App_render (st : State) : completion app_view :=
  sm <- selectedModule st ;;
  let oxygen := dailyOxygen (crew st) in
  let water := dailyWater (crew st) in
  let food := dailyFood (crew st) in
  items <- match modules st with
           | VArr l => render_items st l
           | _ => Throw TypeError
           end ;;
  panel <- render_panel st sm ;;
  Normal (mkView items (crew st) oxygen water food panel).

(** ** When the render succeeds *)

Definition nullish (v : Value) : bool :=
  match v with
  | VUndefined | VNull => true
  | _ => false
  end.

(** The values that have a conversion to a string: an object does when it
    has no property named [toString], an array when its elements do. *)
Fixpoint stringable (v : Value) : bool :=
  match v with
  | VObj props =>
      match lookup (str "toString") props with
      | Some _ => false
      | None => true
      end
  | VArr l =>
      (fix all (l : list Value) : bool :=
         match l with
         | [] => true
         | x :: r => stringable x && all r
         end) l
  | _ => true
  end.

(** The records the render gets through: neither [null] nor [undefined],
    with an id and a [key] that have a conversion to a string. *)
Definition renders (m : Value) : bool :=
  negb (nullish m) && stringable (id_of m)
  && stringable (prop "key" (own_props m)).

Definition is_object (v : Value) : bool :=
  match v with
  | VObj _ => true
  | _ => false
  end.

(** The panel a record gives. *)
Definition panel_of (st : State) (props : list (jsstring * Value))
  : panel_view :=
  mkPanel (prop "label" props) (prop "color" props) (prop "size" props)
          (prop "type" props) (controlsMode st).

(** ** What the handlers leave alone *)

(** The part of the state outside registry and selection. *)
Definition surroundings (st : State)
  : number * jsstring * list (jsstring * jsstring) :=
  (crew st, controlsMode st, localStorage st).

(* ================================================================== *)
(** * Part II. Lemmas and theorems                                     *)
(* ================================================================== *)

(** [iter_pos] is plain iteration. *)
Lemma iter_pos_nat {A} (f : A -> A) (p : positive) (x : A) :
  iter_pos f p x = Nat.iter (Pos.to_nat p) f x.
Proof.
  revert x. induction p as [p IH | p IH |]; intro x; cbn [iter_pos].
  - rewrite !IH, Pos2Nat.inj_xI.
    replace (S (2 * Pos.to_nat p))%nat with (Pos.to_nat p + S (Pos.to_nat p))%nat by lia.
    rewrite Nat.iter_add. f_equal. now rewrite Nat.iter_succ_r.
  - rewrite !IH, Pos2Nat.inj_xO.
    replace (2 * Pos.to_nat p)%nat with (Pos.to_nat p + Pos.to_nat p)%nat by lia.
    now rewrite Nat.iter_add.
  - reflexivity.
Qed.

Lemma shr_1_nonneg (m : Z) (r s : bool) :
  0 <= m ->
  shr_1 (Build_shr_record m r s) = Build_shr_record (m / 2) (Z.odd m) (r || s).
Proof.
  intros Hm. destruct m as [| p | p]; [reflexivity | | lia].
  destruct p as [p | p |]; simpl.
  - f_equal. rewrite Pos2Z.inj_xI. apply (Z.div_unique _ _ _ 1); lia.
  - f_equal. rewrite Pos2Z.inj_xO. apply (Z.div_unique _ _ _ 0); lia.
  - reflexivity.
Qed.

Lemma shifted_succ (M k : Z) :
  0 <= M -> 0 <= k ->
  shr_1 (shifted M k) = shifted M (k + 1).
Proof.
  intros HM Hk. unfold shifted.
  assert (Hp : 0 < 2 ^ k) by (apply Z.pow_pos_nonneg; lia).
  assert (Hq : 0 <= M / 2 ^ k) by (apply Z.div_pos; lia).
  rewrite shr_1_nonneg by assumption.
  rewrite Z.pow_add_r, Z.pow_1_r by lia.
  pose proof (Z.div_mod M (2 ^ k) ltac:(lia)) as E.
  pose proof (Z.mod_pos_bound M (2 ^ k) Hp) as B.
  set (q := M / 2 ^ k) in *. set (rem := M mod 2 ^ k) in *.
  pose proof (Z.div_mod q 2 ltac:(lia)) as E2.
  pose proof (Z.mod_pos_bound q 2 ltac:(lia)) as B2.
  assert (Hdiv : M / (2 ^ k * 2) = q / 2).
  { symmetry. apply (Z.div_unique _ _ _ (rem + (q mod 2) * 2 ^ k)); nia. }
  assert (Hmod : M mod (2 ^ k * 2) = rem + (q mod 2) * 2 ^ k).
  { symmetry. apply (Z.mod_unique _ _ (q / 2)); nia. }
  rewrite Hdiv, Hmod.
  assert (Hodd : Z.odd q = (q mod 2 =? 1)).
  { rewrite Zmod_odd. destruct (Z.odd q); reflexivity. }
  rewrite Hodd. f_equal.
  - destruct (Z.eqb_spec (q mod 2) 1); symmetry.
    + apply Z.leb_le. nia.
    + apply Z.leb_gt. nia.
  - destruct (Z.leb_spec (2 ^ k) (2 * rem)), (Z.eqb_spec rem 0),
      (Z.eqb_spec (2 * rem) (2 ^ k)),
      (Z.eqb_spec (rem + q mod 2 * 2 ^ k) 0),
      (Z.eqb_spec (2 * (rem + q mod 2 * 2 ^ k)) (2 ^ k * 2));
      simpl; try reflexivity; exfalso;
      (assert (Hc : q mod 2 = 0 \/ q mod 2 = 1) by lia);
      destruct Hc as [Hc | Hc]; rewrite Hc in *; lia.
Qed.

Lemma shifted_0 (M : Z) : shifted M 0 = Build_shr_record M false false.
Proof.
  unfold shifted. rewrite Z.pow_0_r, Z.div_1_r, Z.mod_1_r. reflexivity.
Qed.

Lemma iter_shr_1 (M : Z) (k : nat) :
  0 <= M ->
  Nat.iter k shr_1 (Build_shr_record M false false) = shifted M (Z.of_nat k).
Proof.
  intros HM. induction k as [| k IH].
  - now rewrite shifted_0.
  - rewrite Nat.iter_succ, IH, shifted_succ by lia. f_equal. lia.
Qed.

Lemma shr_exact (M e n : Z) :
  0 <= M -> 0 < n ->
  shr (Build_shr_record M false false) e n = (shifted M n, e + n).
Proof.
  intros HM Hn. destruct n as [| p | p]; try lia.
  unfold shr. rewrite iter_pos_nat, iter_shr_1 by assumption.
  now rewrite positive_nat_Z.
Qed.

Lemma fexp64_eq e : fexp64 e = Z.max (e - 53) (-1074).
Proof. reflexivity. Qed.

Lemma round_shifted (M n : Z) :
  0 <= M -> 0 <= n ->
  round_nearest_even (shr_m (shifted M n)) (loc_of_shr_record (shifted M n))
  = rne M n.
Proof.
  intros HM Hn. unfold shifted, rne. cbn [shr_m].
  assert (Hp : 0 < 2 ^ n) by (apply Z.pow_pos_nonneg; lia).
  pose proof (Z.mod_pos_bound M (2 ^ n) Hp) as B.
  set (q := M / 2 ^ n). set (rem := M mod 2 ^ n) in *.
  destruct (Z.eqb_spec rem 0) as [E0 | N0].
  - rewrite E0. simpl. destruct (Z.leb_spec (2 ^ n) 0); [lia | reflexivity].
  - destruct (Z.compare_spec (2 * rem) (2 ^ n)) as [E | L | G].
    + rewrite E, Z.leb_refl, Z.eqb_refl. reflexivity.
    + destruct (Z.leb_spec (2 ^ n) (2 * rem)); [lia |].
      destruct (Z.eqb_spec (2 * rem) (2 ^ n)); [lia | reflexivity].
    + destruct (Z.leb_spec (2 ^ n) (2 * rem)); [| lia].
      destruct (Z.eqb_spec (2 * rem) (2 ^ n)); [lia | reflexivity].
Qed.

Lemma digits2_size (m : positive) : digits2_pos m = Pos.size m.
Proof. induction m; simpl; congruence. Qed.

Lemma digits2_log2 (m : positive) :
  Z.pos (digits2_pos m) = Z.log2 (Z.pos m) + 1.
Proof.
  rewrite digits2_size. destruct m; simpl; try reflexivity;
    now rewrite Pos2Z.inj_succ.
Qed.

Lemma Zdigits2_log2 (M : Z) : 0 < M -> Zdigits2 M = Z.log2 M + 1.
Proof. destruct M; try lia. intros _. apply digits2_log2. Qed.

Lemma Zdigits2_bounds (M : Z) :
  0 < M -> 2 ^ (Zdigits2 M - 1) <= M < 2 ^ Zdigits2 M.
Proof.
  intros HM. rewrite Zdigits2_log2 by assumption.
  replace (Z.log2 M + 1 - 1) with (Z.log2 M) by lia.
  replace (Z.log2 M + 1) with (Z.succ (Z.log2 M)) by lia.
  apply Z.log2_spec. assumption.
Qed.

Lemma Zdigits2_pos (M : Z) : 0 < M -> 0 < Zdigits2 M.
Proof.
  intros HM. rewrite Zdigits2_log2 by assumption.
  pose proof (Z.log2_nonneg M). lia.
Qed.

(** [d] is the number of binary digits of [M] as soon as [M] lies between
    the two powers. *)
Lemma Zdigits2_unique (M d : Z) :
  2 ^ (d - 1) <= M < 2 ^ d -> 0 < d -> Zdigits2 M = d.
Proof.
  intros [H1 H2] Hd.
  assert (HM : 0 < M).
  { pose proof (Z.pow_pos_nonneg 2 (d - 1) ltac:(lia) ltac:(lia)). lia. }
  rewrite Zdigits2_log2 by assumption.
  assert (Z.log2 M = d - 1); [| lia].
  apply Z.log2_unique; [lia |].
  replace (Z.succ (d - 1)) with d by lia. lia.
Qed.

Lemma Zdigits2_le (M d : Z) : 0 < M -> M < 2 ^ d -> 0 <= d -> Zdigits2 M <= d.
Proof.
  intros HM H Hd. pose proof (Zdigits2_bounds M HM) as [B _].
  pose proof (Zdigits2_pos M HM).
  destruct (Z_le_gt_dec (Zdigits2 M) d) as [| G]; [assumption | exfalso].
  assert (2 ^ d <= 2 ^ (Zdigits2 M - 1)) by (apply Z.pow_le_mono_r; lia).
  lia.
Qed.

Lemma rne_bounds (M n : Z) :
  0 <= M -> 0 <= n -> M / 2 ^ n <= rne M n <= M / 2 ^ n + 1.
Proof.
  intros HM Hn. unfold rne.
  destruct (_ =? 0); [lia |].
  destruct (_ ?= _); [| lia | lia].
  destruct (Z.even _); lia.
Qed.

Lemma rne_exact (m k : Z) : 0 <= k -> rne (m * 2 ^ k) k = m.
Proof.
  intros Hk. unfold rne.
  assert (Hp : 0 < 2 ^ k) by (apply Z.pow_pos_nonneg; lia).
  rewrite Z.mod_mul by lia. simpl. apply Z.div_mul. lia.
Qed.

(** [binary_round_aux] on an exact integer mantissa. *)
Lemma binary_round_aux_exact (sx : bool) (M ex : Z) :
  0 < M ->
  binary_round_aux prec emax sx M ex loc_Exact =
  let g := fexp64 (Zdigits2 M + ex) in
  if g <=? ex then finish sx M ex
  else
    let m1 := rne M (g - ex) in
    if m1 =? 2 ^ prec then finish sx (2 ^ (prec - 1)) (g + 1)
    else finish sx m1 g.
Proof.
  intros HM. cbv zeta.
  unfold binary_round_aux, shr_fexp. fold (fexp64 (Zdigits2 M + ex)).
  set (g := fexp64 (Zdigits2 M + ex)).
  assert (Hg : -1074 <= g /\ Zdigits2 M + ex - 53 <= g)
    by (unfold g; rewrite fexp64_eq; lia).
  cbn [shr_record_of_loc].
  destruct (Z.leb_spec g ex) as [Hle | Hlt].
  - (* no shift *)
    assert (Hs : shr (Build_shr_record M false false) ex (g - ex)
                 = (Build_shr_record M false false, ex)).
    { unfold shr. destruct (g - ex) eqn:E; try reflexivity; lia. }
    rewrite Hs. cbn [shr_m loc_of_shr_record round_nearest_even
                     shr_record_of_loc].
    fold (fexp64 (Zdigits2 M + ex)). fold g. rewrite Hs.
    cbn [shr_m]. unfold finish. destruct M; try lia. reflexivity.
  - rewrite shr_exact by lia.
    rewrite round_shifted by lia.
    replace (ex + (g - ex)) with g by lia.
    set (m1 := rne M (g - ex)).
    pose proof (rne_bounds M (g - ex) ltac:(lia) ltac:(lia)) as Hb.
    fold m1 in Hb.
    pose proof (Zdigits2_bounds M HM) as [_ HMd].
    assert (Hp : 0 < 2 ^ (g - ex)) by (apply Z.pow_pos_nonneg; lia).
    assert (Hq : 0 <= M / 2 ^ (g - ex)) by (apply Z.div_pos; lia).
    assert (Hq2 : M / 2 ^ (g - ex) < 2 ^ prec).
    { apply Z.div_lt_upper_bound; [lia |].
      rewrite <- Z.pow_add_r by (unfold prec; lia).
      eapply Z.lt_le_trans; [exact HMd |].
      apply Z.pow_le_mono_r; unfold prec; lia. }
    fold (fexp64 (Zdigits2 m1 + g)).
    destruct (Z.eqb_spec m1 (2 ^ prec)) as [E | NE].
    + (* the mantissa overflows by one bit *)
      rewrite E.
      assert (Hd : Zdigits2 (2 ^ prec) = prec + 1) by reflexivity.
      rewrite Hd.
      assert (Hf : fexp64 (prec + 1 + g) - g = 1)
        by (rewrite fexp64_eq; unfold prec; lia).
      rewrite Hf. rewrite shr_exact by (try lia; apply Z.pow_nonneg; lia).
      reflexivity.
    + assert (Hm1 : 0 <= m1 < 2 ^ prec) by lia.
      assert (Hs : shr (Build_shr_record m1 false false) g
                         (fexp64 (Zdigits2 m1 + g) - g)
                   = (Build_shr_record m1 false false, g)).
      { assert (fexp64 (Zdigits2 m1 + g) - g <= 0).
        { destruct (Z.eq_dec m1 0) as [Z0 | NZ].
          - rewrite Z0. simpl Zdigits2. rewrite fexp64_eq. lia.
          - pose proof (Zdigits2_le m1 prec ltac:(lia) ltac:(lia)
                          ltac:(unfold prec; lia)).
            rewrite fexp64_eq. unfold prec in *. lia. }
        unfold shr. destruct (fexp64 (Zdigits2 m1 + g) - g); try reflexivity.
        lia. }
      cbn [shr_record_of_loc]. rewrite Hs. cbn [shr_m].
      unfold finish. destruct m1; try lia; reflexivity.
Qed.

Lemma canonical_fexp (m : positive) (e : Z) :
  bounded prec emax m e = true ->
  fexp64 (Z.pos (digits2_pos m) + e) = e /\ e <= emax - prec.
Proof.
  unfold bounded, canonical_mantissa. intros H.
  apply andb_true_iff in H as [H1 H2].
  apply Z.eqb_eq in H1. apply Z.leb_le in H2. split; assumption.
Qed.

Lemma pow2_pos (k : Z) : 0 <= k -> 0 < 2 ^ k.
Proof. intros. apply Z.pow_pos_nonneg; lia. Qed.

Lemma pow2_split (a b : Z) : 0 <= a -> 0 <= b -> 2 ^ (a + b) = 2 ^ a * 2 ^ b.
Proof. intros. apply Z.pow_add_r; assumption. Qed.

(** A mantissa represented exactly comes out unchanged. *)
Lemma binary_round_aux_repr (sx : bool) (m : positive) (ex k : Z) :
  0 <= k ->
  bounded prec emax m (ex + k) = true ->
  binary_round_aux prec emax sx (Z.pos m * 2 ^ k) ex loc_Exact
  = S754_finite sx m (ex + k).
Proof.
  intros Hk Hb. apply canonical_fexp in Hb as [Hc He].
  pose proof (pow2_pos k Hk) as Hp.
  rewrite binary_round_aux_exact by lia. cbv zeta.
  assert (Hd : Zdigits2 (Z.pos m * 2 ^ k) = Z.pos (digits2_pos m) + k).
  { rewrite Zdigits2_log2 by lia. rewrite Z.log2_mul_pow2 by lia.
    rewrite digits2_log2. lia. }
  rewrite Hd.
  replace (Z.pos (digits2_pos m) + k + ex)
    with (Z.pos (digits2_pos m) + (ex + k)) by lia.
  rewrite Hc.
  destruct (Z.leb_spec (ex + k) ex) as [Hle | Hlt].
  - assert (k = 0) by lia. subst k.
    rewrite Z.pow_0_r, Z.mul_1_r, Z.add_0_r in *.
    unfold finish. apply Z.leb_le in He. now rewrite He.
  - replace (ex + k - ex) with k by lia. rewrite rne_exact by lia.
    assert (Hm : Z.pos m < 2 ^ prec).
    { pose proof (Zdigits2_bounds (Z.pos m) ltac:(lia)) as [_ B].
      eapply Z.lt_le_trans; [exact B |].
      apply Z.pow_le_mono_r; [lia |].
      simpl Zdigits2. rewrite fexp64_eq in Hc. unfold prec. lia. }
    destruct (Z.eqb_spec (Z.pos m) (2 ^ prec)); [lia |].
    unfold finish. apply Z.leb_le in He. now rewrite He.
Qed.

(** Rounding to nearest does not cross a normal number [mT * 2^eT]: what
    lies below that number plus half a unit in its last place rounds to at
    most that number. *)
Lemma binary_round_aux_le (sx : bool) (M ex : Z) (mT : positive) (eT : Z) :
  0 < M -> -2200 <= ex ->
  ex <= fexp64 (Zdigits2 M + ex) ->
  bounded prec emax mT eT = true ->
  2 ^ (prec - 1) <= Z.pos mT ->
  2 * scaled M ex < (2 * Z.pos mT + 1) * 2 ^ (eT + 2200) ->
  binary_round_aux prec emax sx M ex loc_Exact = S754_zero sx \/
  exists mR eR,
    binary_round_aux prec emax sx M ex loc_Exact = S754_finite sx mR eR /\
    ex <= eR /\ scaled (Z.pos mR) eR <= scaled (Z.pos mT) eT.
Proof.
  intros HM Hex Hg HT HN Hlt.
  apply canonical_fexp in HT as [HcT HeT].
  rewrite binary_round_aux_exact by assumption. cbv zeta.
  set (g := fexp64 (Zdigits2 M + ex)) in *.
  pose proof (Zdigits2_bounds M HM) as [HM1 HM2].
  pose proof (Zdigits2_pos M HM) as HdM.
  pose proof (Zdigits2_bounds (Z.pos mT) ltac:(lia)) as [_ HT2].
  simpl Zdigits2 in HT2.
  set (dT := Z.pos (digits2_pos mT)) in *.
  assert (HdT : dT = prec).
  { assert (prec - 1 < dT).
    { apply (Z.pow_lt_mono_r_iff 2); unfold dT in *; lia. }
    rewrite fexp64_eq in HcT. unfold prec in *. lia. }
  pose proof HT2 as HT2'. rewrite HdT in HT2'.
  assert (HeT0 : -1074 <= eT) by (rewrite fexp64_eq in HcT; lia).
  assert (Hg0 : -1074 <= g /\ Zdigits2 M + ex - 53 <= g)
    by (unfold g; rewrite fexp64_eq; lia).
  (* the exponent of the result does not exceed that of the bound *)
  assert (HgT : g <= eT).
  { assert (Hd : Zdigits2 M + ex <= dT + eT).
    { destruct (Z_le_gt_dec (Zdigits2 M + ex) (dT + eT)) as [| G];
        [assumption | exfalso].
      unfold scaled in Hlt.
      assert (H1 : 2 ^ (dT + eT + 2200) <= 2 ^ (Zdigits2 M - 1 + (ex + 2200)))
        by (apply Z.pow_le_mono_r; lia).
      rewrite (pow2_split (Zdigits2 M - 1)) in H1 by lia.
      assert (H2 : 2 ^ (dT + eT + 2200) = 2 ^ dT * 2 ^ (eT + 2200)).
      { replace (dT + eT + 2200) with (dT + (eT + 2200)) by lia.
        apply pow2_split; unfold dT; lia. }
      pose proof (pow2_pos (ex + 2200) ltac:(lia)).
      pose proof (pow2_pos (eT + 2200) ltac:(lia)).
      nia. }
    unfold g. rewrite <- HcT. fold dT. rewrite !fexp64_eq. lia. }
  (* the bound, in units of the result's last place *)
  assert (HTg : scaled (Z.pos mT) eT
                = Z.pos mT * 2 ^ (eT - g) * 2 ^ (g + 2200)).
  { unfold scaled. rewrite <- Z.mul_assoc, <- pow2_split by lia.
    do 2 f_equal. lia. }
  assert (Hfin : forall mR : positive,
             Z.pos mR < 2 ^ prec -> g < eT ->
             scaled (Z.pos mR) g <= scaled (Z.pos mT) eT).
  { intros mR HmR Hlt'. rewrite HTg. unfold scaled.
    apply Z.mul_le_mono_nonneg_r; [apply Z.pow_nonneg; lia |].
    assert (2 ^ 1 <= 2 ^ (eT - g)) by (apply Z.pow_le_mono_r; lia).
    replace (2 ^ prec) with (2 ^ (prec - 1) * 2 ^ 1) in HmR by reflexivity.
    nia. }
  destruct (Z.leb_spec g ex) as [Hle | Hgt].
  - (* no rounding *)
    assert (g = ex) by lia.
    assert (HMp : M < 2 ^ prec).
    { eapply Z.lt_le_trans; [exact HM2 |].
      apply Z.pow_le_mono_r; unfold prec; lia. }
    destruct M as [| p | p]; try lia.
    right. exists p, ex. unfold finish.
    assert (Hfit : (ex <=? emax - prec) = true) by (apply Z.leb_le; lia).
    rewrite Hfit. split; [reflexivity | split; [lia |]].
    destruct (Z.eq_dec g eT) as [E | NE].
    + assert (EeT : eT = ex) by lia. unfold scaled in *. rewrite EeT in *.
      pose proof (pow2_pos (ex + 2200) ltac:(lia)) as Hpe.
      rewrite Z.mul_assoc in Hlt.
      apply Z.mul_lt_mono_pos_r in Hlt; [| assumption].
      apply Z.mul_le_mono_nonneg_r; lia.
    + rewrite <- H. apply Hfin; lia.
  - set (n := g - ex). set (m1 := rne M n).
    pose proof (rne_bounds M n ltac:(lia) ltac:(lia)) as Hb. fold m1 in Hb.
    pose proof (pow2_pos n ltac:(lia)) as Hpn.
    assert (Hq : 0 <= M / 2 ^ n) by (apply Z.div_pos; lia).
    assert (Hq2 : M / 2 ^ n < 2 ^ prec).
    { apply Z.div_lt_upper_bound; [lia |].
      rewrite <- pow2_split by (unfold prec, n; lia).
      eapply Z.lt_le_trans; [exact HM2 |].
      apply Z.pow_le_mono_r; unfold prec, n; lia. }
    (* the rounded mantissa is at most the bound's, in the same units *)
    assert (Hm1 : g = eT -> m1 <= Z.pos mT).
    { intros E. unfold scaled in Hlt.
      assert (Hs : 2 ^ (eT + 2200) = 2 ^ n * 2 ^ (ex + 2200)).
      { rewrite <- pow2_split by (unfold n; lia). f_equal. unfold n. lia. }
      rewrite Hs in Hlt.
      pose proof (pow2_pos (ex + 2200) ltac:(lia)) as Hpe.
      assert (HltM : 2 * M < (2 * Z.pos mT + 1) * 2 ^ n) by nia.
      pose proof (Z.div_mod M (2 ^ n) ltac:(lia)) as Edm.
      pose proof (Z.mod_pos_bound M (2 ^ n) Hpn) as Bm.
      unfold m1, rne.
      set (q := M / 2 ^ n) in *. set (rem := M mod 2 ^ n) in *.
      assert (Hqle : q <= Z.pos mT) by nia.
      destruct (Z.eqb_spec rem 0); [assumption |].
      destruct (Z.compare_spec (2 * rem) (2 ^ n)).
      - destruct (Z.even q); nia.
      - assumption.
      - nia. }
    destruct (Z.eqb_spec m1 (2 ^ prec)) as [E | NE].
    + (* carry: the result is a power of two *)
      assert (g < eT).
      { destruct (Z.eq_dec g eT) as [E' | ]; [| lia].
        specialize (Hm1 E'). lia. }
      right. exists (Z.to_pos (2 ^ (prec - 1))), (g + 1).
      unfold finish.
      assert (Hfit : (g + 1 <=? emax - prec) = true) by (apply Z.leb_le; lia).
      change (2 ^ (prec - 1)) with (Z.pos (Z.to_pos (2 ^ (prec - 1)))) at 1.
      cbv iota beta. rewrite Hfit.
      split; [reflexivity | split; [lia |]].
      rewrite HTg. unfold scaled.
      change (Z.pos (Z.to_pos (2 ^ (prec - 1)))) with (2 ^ (prec - 1)).
      replace (g + 1 + 2200) with (1 + (g + 2200)) by lia.
      rewrite pow2_split by lia.
      assert (2 ^ 1 <= 2 ^ (eT - g)) by (apply Z.pow_le_mono_r; lia).
      pose proof (pow2_pos (g + 2200) ltac:(lia)).
      rewrite Z.mul_assoc.
      apply Z.mul_le_mono_nonneg_r; [lia |]. nia.
    + destruct m1 as [| p | p] eqn:Em1; try lia.
      * left. reflexivity.
      * right. exists p, g. unfold finish.
        assert (Hfit : (g <=? emax - prec) = true) by (apply Z.leb_le; lia).
        rewrite Hfit. split; [reflexivity | split; [lia |]].
        destruct (Z.eq_dec g eT) as [E | NE'].
        -- specialize (Hm1 E). rewrite E. unfold scaled.
           apply Z.mul_le_mono_nonneg_r; [apply Z.pow_nonneg; lia | lia].
        -- apply Hfin; lia.
Qed.

Lemma bounded_intro (m : positive) (e : Z) :
  fexp64 (Z.pos (digits2_pos m) + e) = e -> e <= emax - prec ->
  bounded prec emax m e = true.
Proof.
  intros H1 H2. unfold bounded, canonical_mantissa.
  apply andb_true_iff. split; [apply Z.eqb_eq; exact H1 | apply Z.leb_le; exact H2].
Qed.

Lemma finish_valid (sx : bool) (m e : Z) :
  0 <= m -> (0 < m -> fexp64 (Zdigits2 m + e) = e) ->
  valid_binary prec emax (finish sx m e) = true.
Proof.
  intros Hm Hc. unfold finish. destruct m as [| p | p]; try lia; [reflexivity |].
  destruct (Z.leb_spec e (emax - prec)); [| reflexivity].
  simpl. apply bounded_intro; [apply Hc; lia | assumption].
Qed.

(** The result of rounding is a number of the format. *)
Lemma binary_round_aux_valid (sx : bool) (M ex : Z) :
  0 < M -> ex <= fexp64 (Zdigits2 M + ex) ->
  valid_binary prec emax (binary_round_aux prec emax sx M ex loc_Exact) = true.
Proof.
  intros HM Hg. rewrite binary_round_aux_exact by assumption. cbv zeta.
  set (g := fexp64 (Zdigits2 M + ex)) in *.
  pose proof (Zdigits2_bounds M HM) as [HM1 HM2].
  pose proof (Zdigits2_pos M HM) as HdM.
  assert (Hg0 : g = Z.max (Zdigits2 M + ex - 53) (-1074))
    by (unfold g; now rewrite fexp64_eq).
  destruct (Z.leb_spec g ex) as [Hle | Hgt].
  - apply finish_valid; [lia |]. intros _. fold g. lia.
  - set (n := g - ex). set (m1 := rne M n).
    pose proof (rne_bounds M n ltac:(lia) ltac:(lia)) as Hb. fold m1 in Hb.
    pose proof (pow2_pos n ltac:(lia)) as Hpn.
    assert (Hq : 0 <= M / 2 ^ n) by (apply Z.div_pos; lia).
    assert (Hq2 : M / 2 ^ n < 2 ^ prec).
    { apply Z.div_lt_upper_bound; [lia |].
      rewrite <- pow2_split by (unfold prec, n; lia).
      eapply Z.lt_le_trans; [exact HM2 |].
      apply Z.pow_le_mono_r; unfold prec, n; lia. }
    destruct (Z.eqb_spec m1 (2 ^ prec)) as [E | NE].
    + apply finish_valid; [apply Z.pow_nonneg; lia |]. intros _.
      change (Zdigits2 (2 ^ (prec - 1))) with prec.
      rewrite fexp64_eq. unfold prec. clearbody g. clear - Hg0. lia.
    + apply finish_valid; [lia |]. intros NZ.
      pose proof (Zdigits2_le m1 prec ltac:(lia) ltac:(lia)
                      ltac:(unfold prec; lia)) as Hd1.
        rewrite fexp64_eq. unfold prec in Hd1.
        destruct (Z.eq_dec g (-1074)) as [Eg | Ng]; [lia |].
        (* a normal result keeps all its 53 bits *)
        assert (Hn : n = Zdigits2 M - 53) by (unfold n; lia).
        assert (Hlow : 2 ^ 52 <= M / 2 ^ n).
        { apply Z.div_le_lower_bound; [lia |].
          rewrite <- pow2_split by lia.
          replace (n + 52) with (Zdigits2 M - 1) by lia. exact HM1. }
        pose proof (Zdigits2_bounds m1 ltac:(lia)) as [_ B1].
        assert (52 < Zdigits2 m1).
        { apply (Z.pow_lt_mono_r_iff 2); try lia.
          pose proof (Zdigits2_pos m1 ltac:(lia)). lia. }
        lia.
Qed.

Lemma shl_align_spec (mx : positive) (ex ez : Z) :
  let '(mz, e') := shl_align mx ex ez in
  e' = Z.min ex ez /\ Z.pos mz = Z.pos mx * 2 ^ (ex - Z.min ex ez).
Proof.
  unfold shl_align. destruct (ez - ex) as [| d | d] eqn:E.
  - replace (Z.min ex ez) with ex by lia. rewrite Z.sub_diag. simpl. lia.
  - replace (Z.min ex ez) with ex by lia. rewrite Z.sub_diag. simpl. lia.
  - replace (Z.min ex ez) with ez by lia. split; [reflexivity |].
    replace (ex - ez) with (Z.pos d) by lia.
    clear E. revert mx. induction d as [| d IH] using Pos.peano_ind; intro mx.
    + simpl. lia.
    + rewrite Pos.iter_succ, Pos2Z.inj_xO, IH, Pos2Z.inj_succ.
      rewrite Z.pow_succ_r by lia. ring.
Qed.

Lemma bounded_facts (m : positive) (e : Z) :
  bounded prec emax m e = true ->
  -1074 <= e <= 971 /\ Z.pos m < 2 ^ 53 /\ (-1074 < e -> 2 ^ 52 <= Z.pos m).
Proof.
  intros Hb. apply canonical_fexp in Hb as [Hc He].
  rewrite fexp64_eq in Hc.
  pose proof (Zdigits2_bounds (Z.pos m) ltac:(lia)) as [B1 B2].
  simpl Zdigits2 in *. set (d := Z.pos (digits2_pos m)) in *.
  assert (Hd : 0 < d) by (unfold d; lia).
  unfold emax, prec in He.
  split; [lia | split].
  - eapply Z.lt_le_trans; [exact B2 |]. apply Z.pow_le_mono_r; lia.
  - intros Hn. replace 52 with (d - 1) by lia. exact B1.
Qed.

Lemma scaled_compare_same (a b e : Z) :
  -2200 <= e -> (scaled a e ?= scaled b e) = (a ?= b).
Proof.
  intros He. unfold scaled. pose proof (pow2_pos (e + 2200) ltac:(lia)).
  symmetry. apply Zmult_compare_compat_r. lia.
Qed.

(** On numbers of the format the lexicographic comparison of exponent and
    mantissa is the comparison of the values. *)
Lemma compare_magnitude (m1 m2 : positive) (e1 e2 : Z) :
  bounded prec emax m1 e1 = true -> bounded prec emax m2 e2 = true ->
  match e1 ?= e2 with
  | Lt => Lt
  | Gt => Gt
  | Eq => Pos.compare_cont Eq m1 m2
  end = (scaled (Z.pos m1) e1 ?= scaled (Z.pos m2) e2).
Proof.
  intros H1 H2.
  apply bounded_facts in H1 as (E1 & U1 & L1).
  apply bounded_facts in H2 as (E2 & U2 & L2).
  assert (Hlt : forall ma mb ea eb,
             Z.pos ma < 2 ^ 53 -> 2 ^ 52 <= Z.pos mb -> -1074 <= ea < eb ->
             scaled (Z.pos ma) ea < scaled (Z.pos mb) eb).
  { intros ma mb ea eb Ua Lb Hab. unfold scaled.
    replace (eb + 2200) with ((eb - ea) + (ea + 2200)) by lia.
    rewrite (pow2_split (eb - ea) (ea + 2200)) by lia.
    pose proof (pow2_pos (ea + 2200) ltac:(lia)).
    assert (2 ^ 1 <= 2 ^ (eb - ea)) by (apply Z.pow_le_mono_r; lia).
    rewrite Z.mul_assoc. apply Z.mul_lt_mono_pos_r; [assumption |].
    apply Z.lt_le_trans with (2 ^ 52 * 2 ^ 1); [exact Ua |].
    apply Z.mul_le_mono_nonneg; lia. }
  destruct (Z.compare_spec e1 e2) as [E | L | G].
  - subst e2. rewrite scaled_compare_same by lia. reflexivity.
  - symmetry. apply Z.compare_lt_iff. apply Hlt; lia.
  - symmetry. apply Z.compare_gt_iff. apply Hlt; lia.
Qed.

Lemma compare_pos_pos (m1 m2 : positive) (e1 e2 : Z) :
  bounded prec emax m1 e1 = true -> bounded prec emax m2 e2 = true ->
  SFcompare (S754_finite false m1 e1) (S754_finite false m2 e2)
  = Some (scaled (Z.pos m1) e1 ?= scaled (Z.pos m2) e2).
Proof.
  intros H1 H2. simpl. f_equal. now apply compare_magnitude.
Qed.

Lemma compare_neg_neg (m1 m2 : positive) (e1 e2 : Z) :
  bounded prec emax m1 e1 = true -> bounded prec emax m2 e2 = true ->
  SFcompare (S754_finite true m1 e1) (S754_finite true m2 e2)
  = Some (scaled (Z.pos m2) e2 ?= scaled (Z.pos m1) e1).
Proof.
  intros H1 H2. cbn [SFcompare]. f_equal.
  rewrite (Z.compare_antisym (scaled (Z.pos m1) e1)).
  rewrite <- (compare_magnitude m1 m2 e1 e2 H1 H2).
  destruct (e1 ?= e2); reflexivity.
Qed.

(** [binary_round] first aligns the mantissa, then rounds. *)
Lemma binary_round_le (sx : bool) (mx : positive) (ex : Z)
  (mT : positive) (eT : Z) :
  -2200 <= ex ->
  bounded prec emax mT eT = true ->
  2 ^ (prec - 1) <= Z.pos mT ->
  2 * scaled (Z.pos mx) ex < (2 * Z.pos mT + 1) * 2 ^ (eT + 2200) ->
  binary_round prec emax sx mx ex = S754_zero sx \/
  exists mR eR,
    binary_round prec emax sx mx ex = S754_finite sx mR eR /\
    bounded prec emax mR eR = true /\
    scaled (Z.pos mR) eR <= scaled (Z.pos mT) eT.
Proof.
  intros Hex HT HN Hlt. unfold binary_round.
  fold (fexp64 (Z.pos (digits2_pos mx) + ex)).
  set (g := fexp64 (Z.pos (digits2_pos mx) + ex)).
  pose proof (shl_align_spec mx ex g) as Hs.
  destruct (shl_align mx ex g) as [mz ez]. destruct Hs as [Hez Hmz].
  assert (Hg0 : -1074 <= g) by (unfold g; rewrite fexp64_eq; lia).
  assert (Hpow : 0 <= ex - Z.min ex g) by lia.
  assert (Hd : Zdigits2 (Z.pos mz) + ez = Z.pos (digits2_pos mx) + ex).
  { rewrite Hmz, Zdigits2_log2
      by (pose proof (pow2_pos _ Hpow); lia).
    rewrite Z.log2_mul_pow2 by lia. rewrite digits2_log2. lia. }
  assert (Hge : ez <= fexp64 (Zdigits2 (Z.pos mz) + ez)).
  { rewrite Hd. fold g. lia. }
  assert (Hsc : scaled (Z.pos mz) ez = scaled (Z.pos mx) ex).
  { unfold scaled. rewrite Hmz, Hez, <- Z.mul_assoc, <- pow2_split by lia.
    do 2 f_equal. lia. }
  pose proof (binary_round_aux_valid sx (Z.pos mz) ez ltac:(lia) Hge) as Hv.
  assert (Hlt' : 2 * scaled (Z.pos mz) ez
                 < (2 * Z.pos mT + 1) * 2 ^ (eT + 2200))
    by (rewrite Hsc; assumption).
  destruct (binary_round_aux_le sx (Z.pos mz) ez mT eT
              ltac:(lia) ltac:(lia) Hge HT HN Hlt')
    as [Z0 | (mR & eR & E & _ & Hle)].
  - left. assumption.
  - right. exists mR, eR. rewrite E in Hv. simpl in Hv.
    repeat split; assumption.
Qed.

Lemma lit_6 : lit 6 0 = S754_finite false six_m (-50).
Proof. reflexivity. Qed.
Lemma lit_3 : lit 3 0 = S754_finite false six_m (-51).
Proof. reflexivity. Qed.
Lemma number_of_Z_6 : number_of_Z 6 = S754_finite false six_m (-50).
Proof. reflexivity. Qed.

Lemma random_cases (r : number) :
  is_random r = true ->
  (exists s, r = S754_zero s) \/
  exists m e, r = S754_finite false m e /\ bounded prec emax m e = true /\
              e <= -53.
Proof.
  unfold is_random. intros H.
  apply andb_true_iff in H as [H H3]. apply andb_true_iff in H as [H1 H2].
  destruct r as [s | s | | s m e]; try discriminate.
  - left. now exists s.
  - destruct s; try discriminate.
  - destruct s; [discriminate |]. right. exists m, e.
    unfold valid_number in H1. simpl in H1.
    split; [reflexivity | split; [assumption |]].
    pose proof (bounded_facts m e H1) as (E & U & L).
    unfold num_ltb, SFltb in H3.
    change (lit 1 0) with (S754_finite false 4503599627370496 (-52)) in H3.
    rewrite compare_pos_pos in H3 by (assumption || reflexivity).
    destruct (Z.compare_spec (scaled (Z.pos m) e)
                (scaled (Z.pos 4503599627370496) (-52))) as [| Hlt |];
      try discriminate.
    destruct (Z_le_gt_dec e (-53)) as [| Hgt]; [assumption | exfalso].
    specialize (L ltac:(lia)). unfold scaled in Hlt.
    assert (H52 : 2 ^ (-52 + 2200) <= 2 ^ (e + 2200))
      by (apply Z.pow_le_mono_r; lia).
    pose proof (pow2_pos (-52 + 2200) ltac:(lia)) as Hp.
    change (Z.pos 4503599627370496) with (2 ^ 52) in Hlt.
    assert (2 ^ 52 * 2 ^ (-52 + 2200) <= Z.pos m * 2 ^ (e + 2200))
      by (apply Z.mul_le_mono_nonneg; lia).
    lia.
Qed.

Lemma mul_six (r : number) :
  is_random r = true ->
  (exists s, num_mul r (S754_finite false six_m (-50)) = S754_zero s) \/
  exists mR eR,
    num_mul r (S754_finite false six_m (-50)) = S754_finite false mR eR /\
    bounded prec emax mR eR = true /\
    scaled (Z.pos mR) eR <= scaled (Z.pos below6_m) (-50).
Proof.
  intros Hr. destruct (random_cases r Hr) as [[s ->] | (m & e & -> & Hb & He)].
  - left. exists s. simpl. now destruct s.
  - pose proof (bounded_facts m e Hb) as (E & U & L).
    unfold num_mul, SFmul. cbn [xorb].
    set (M := Z.pos (m * six_m)). set (ex := e + -50).
    assert (HM : M = Z.pos m * Z.pos six_m) by (unfold M; apply Pos2Z.inj_mul).
    assert (HMpos : 0 < M) by (unfold M; lia).
    assert (HM52 : 2 ^ 52 <= M).
    { rewrite HM. change (2 ^ 52) with (1 * 2 ^ 52).
      apply Z.mul_le_mono_nonneg; try lia. unfold six_m. lia. }
    pose proof (Zdigits2_bounds M HMpos) as [_ HM2].
    pose proof (Zdigits2_pos M HMpos) as HdM.
    assert (Hd : 52 < Zdigits2 M).
    { apply (Z.pow_lt_mono_r_iff 2); lia. }
    assert (Hg : ex <= fexp64 (Zdigits2 M + ex)) by (rewrite fexp64_eq; lia).
    pose proof (binary_round_aux_valid false M ex HMpos Hg) as Hv.
    assert (HTb : bounded prec emax below6_m (-50) = true) by reflexivity.
    destruct (binary_round_aux_le false M ex below6_m (-50)) as
      [Z0 | (mR & eR & ER & _ & Hle)]; try assumption.
    + unfold ex. lia.
    + unfold prec, below6_m. simpl. lia.
    + (* the exact product is below 6 - 2^-50 plus half a unit *)
      unfold scaled, ex. rewrite HM.
      replace (-50 + 2200) with ((-53 - e) + 53 + (e + -50 + 2200)) by lia.
      rewrite (pow2_split ((-53 - e) + 53)) by lia.
      rewrite (pow2_split (-53 - e) 53) by lia.
      pose proof (pow2_pos (e + -50 + 2200) ltac:(lia)) as Hp.
      pose proof (pow2_pos (-53 - e) ltac:(lia)) as Hj.
      set (X := 2 ^ (e + -50 + 2200)) in *. set (J := 2 ^ (-53 - e)) in *.
      rewrite !Z.mul_assoc. apply Z.mul_lt_mono_pos_r; [assumption |].
      apply Z.lt_le_trans with ((2 * Z.pos below6_m + 1) * 1 * 2 ^ 53).
      * unfold below6_m, six_m. change (2 ^ 53) with 9007199254740992 in *. lia.
      * apply Z.mul_le_mono_nonneg_r; [lia |].
        apply Z.mul_le_mono_nonneg_l; lia.
    + left. exists false. exact Z0.
    + right. exists mR, eR. rewrite ER in Hv. simpl in Hv.
      repeat split; assumption.
Qed.

Lemma scaled_below6 (mR : positive) (eR : Z) :
  -1074 <= eR ->
  scaled (Z.pos mR) eR <= scaled (Z.pos below6_m) (-50) ->
  (0 <= eR -> Z.pos mR * 2 ^ eR < 6) /\
  (eR < 0 -> Z.pos mR < 6 * 2 ^ (- eR)).
Proof.
  intros He H. unfold scaled in H.
  assert (H6 : Z.pos below6_m < 6 * 2 ^ 50) by reflexivity.
  destruct (Z_le_gt_dec (-50) eR) as [Hge | Hlt].
  - (* compare in units of 2^-50 *)
    replace (eR + 2200) with ((eR + 50) + (-50 + 2200)) in H by lia.
    rewrite (pow2_split (eR + 50)) in H by lia.
    rewrite Z.mul_assoc in H.
    apply Z.mul_le_mono_pos_r in H; [| apply pow2_pos; lia].
    split; intros Hs.
    + rewrite pow2_split in H by lia.
      pose proof (pow2_pos eR Hs). lia.
    + assert (E : 2 ^ 50 = 2 ^ (- eR) * 2 ^ (eR + 50)).
      { rewrite <- pow2_split by lia. f_equal. lia. }
      pose proof (pow2_pos (eR + 50) ltac:(lia)) as Hp.
      apply (Z.mul_lt_mono_pos_r (2 ^ (eR + 50))); [assumption |].
      rewrite <- Z.mul_assoc, <- E. lia.
  - split; intros Hs; [lia |].
    replace (-50 + 2200) with ((-50 - eR) + (eR + 2200)) in H by lia.
    rewrite (pow2_split (-50 - eR)) in H by lia.
    rewrite Z.mul_assoc in H.
    apply Z.mul_le_mono_pos_r in H; [| apply pow2_pos; lia].
    assert (E : 2 ^ (- eR) = 2 ^ 50 * 2 ^ (-50 - eR)).
    { rewrite <- pow2_split by lia. f_equal. lia. }
    pose proof (pow2_pos (-50 - eR) ltac:(lia)) as Hp.
    rewrite E, Z.mul_assoc.
    eapply Z.le_lt_trans; [exact H |].
    apply Z.mul_lt_mono_pos_r; assumption.
Qed.

(** The index [Math.floor(Math.random() * 6)] denotes is one of 0..5. *)
Lemma floor_index (r : number) :
  is_random r = true ->
  exists i, array_index (Math_floor (num_mul r (S754_finite false six_m (-50))))
            = Some i /\ (i < 6)%nat.
Proof.
  intros Hr. destruct (mul_six r Hr) as [[s ->] | (mR & eR & -> & Hb & Hle)].
  - exists O. split; [reflexivity | lia].
  - pose proof (bounded_facts mR eR Hb) as (E & _ & _).
    destruct (scaled_below6 mR eR ltac:(lia) Hle) as [H1 H2].
    unfold Math_floor. destruct (Z.leb_spec 0 eR) as [Hs | Hs].
    + specialize (H1 Hs). unfold array_index.
      destruct (Z.leb_spec 0 eR); [| lia].
      exists (Z.to_nat (Z.pos mR * 2 ^ eR)). split; [reflexivity | lia].
    + specialize (H2 Hs).
      pose proof (pow2_pos (- eR) ltac:(lia)) as Hp.
      assert (Hq : 0 <= Z.pos mR / 2 ^ (- eR) < 6).
      { split; [apply Z.div_pos; lia |].
        apply Z.div_lt_upper_bound; lia. }
      set (q := Z.pos mR / 2 ^ (- eR)) in *.
      assert (Hc : q = 0 \/ q = 1 \/ q = 2 \/ q = 3 \/ q = 4 \/ q = 5) by lia.
      destruct Hc as [-> | [-> | [-> | [-> | [-> | ->]]]]].
      * exists 0%nat. split; [reflexivity | lia].
      * exists 1%nat. split; [reflexivity | lia].
      * exists 2%nat. split; [reflexivity | lia].
      * exists 3%nat. split; [reflexivity | lia].
      * exists 4%nat. split; [reflexivity | lia].
      * exists 5%nat. split; [reflexivity | lia].
Qed.

Lemma binary_normalize_cases (D ez : Z) :
  binary_normalize prec emax D ez false =
  match D with
  | Z0 => S754_zero false
  | Zpos d => binary_round prec emax false d ez
  | Zneg d => binary_round prec emax true d ez
  end.
Proof. reflexivity. Qed.

(** A coordinate [Math.random() * 6 - 3] lies in [[-3, 3)]. *)
Lemma position_bounds (r : number) :
  is_random r = true ->
  let x := num_sub (num_mul r (lit 6 0)) (lit 3 0) in
  valid_number x = true /\
  num_leb (num_opp (lit 3 0)) x = true /\ num_ltb x (lit 3 0) = true.
Proof.
  intros Hr. rewrite lit_6, lit_3. cbv zeta.
  destruct (mul_six r Hr) as [[s ->] | (mR & eR & -> & Hb & Hle)].
  - destruct s; repeat split; reflexivity.
  - pose proof (bounded_facts mR eR Hb) as (E & _ & _).
    unfold num_sub, SFsub. cbn [cond_Zopp].
    set (ez := Z.min eR (-51)).
    pose proof (shl_align_spec mR eR ez) as HA.
    pose proof (shl_align_spec six_m (-51) ez) as HB.
    destruct (shl_align mR eR ez) as [a ea].
    destruct (shl_align six_m (-51) ez) as [b eb].
    cbn [fst]. destruct HA as [_ HA]. destruct HB as [_ HB].
    replace (Z.min eR ez) with ez in HA by (unfold ez; lia).
    replace (Z.min (-51) ez) with ez in HB by (unfold ez; lia).
    assert (Hez : -1074 <= ez <= -51) by (unfold ez; lia).
    assert (Hsa : scaled (Z.pos a) ez = scaled (Z.pos mR) eR).
    { unfold scaled. rewrite HA, <- Z.mul_assoc, <- pow2_split by lia.
      do 2 f_equal. lia. }
    assert (Hsb : scaled (Z.pos b) ez = scaled (Z.pos six_m) (-51)).
    { unfold scaled. rewrite HB, <- Z.mul_assoc, <- pow2_split by lia.
      do 2 f_equal. lia. }
    assert (H3b : bounded prec emax six_m (-51) = true) by reflexivity.
    assert (Hb3 : bounded prec emax below3_m (-51) = true) by reflexivity.
    assert (Hdiff : scaled (Z.pos below6_m) (-50) - scaled (Z.pos six_m) (-51)
                    = scaled (Z.pos below3_m) (-51)).
    { unfold scaled. change (-50 + 2200) with (1 + (-51 + 2200)).
      rewrite pow2_split by lia. unfold below6_m, six_m, below3_m.
      change (2 ^ 1) with 2. ring. }
    assert (Hlt3 : scaled (Z.pos below3_m) (-51) < scaled (Z.pos six_m) (-51)).
    { unfold scaled. apply Z.mul_lt_mono_pos_r; [apply pow2_pos; lia |].
      reflexivity. }
    assert (Hpos51 : 0 < 2 ^ (-51 + 2200)) by (apply pow2_pos; lia).
    rewrite binary_normalize_cases.
    destruct (Z.pos a - Z.pos b) as [| d | d] eqn:ED.
    + repeat split; reflexivity.
    + (* the product is above 3: the difference is below 3 *)
      assert (Hsd : scaled (Z.pos d) ez <= scaled (Z.pos below3_m) (-51)).
      { rewrite <- Hdiff, <- Hsb.
        replace (scaled (Z.pos d) ez)
          with (scaled (Z.pos a) ez - scaled (Z.pos b) ez)
          by (unfold scaled; rewrite <- ED; ring).
        lia. }
      destruct (binary_round_le false d ez below3_m (-51))
        as [-> | (m' & e' & -> & Hb' & Hle')]; try assumption; try lia.
      * unfold prec, below3_m. simpl. lia.
      * unfold scaled in *. lia.
      * repeat split; reflexivity.
      * split; [exact Hb' | split; [reflexivity |]].
        unfold num_ltb, SFltb. rewrite compare_pos_pos by assumption.
        assert (Hc : scaled (Z.pos m') e' < scaled (Z.pos six_m) (-51)) by lia.
        apply Z.compare_lt_iff in Hc. now rewrite Hc.
    + (* the product is below 3: the difference is at least -3 *)
      assert (Hsd : scaled (Z.pos d) ez <= scaled (Z.pos six_m) (-51)).
      { rewrite <- Hsb.
        replace (scaled (Z.pos d) ez)
          with (scaled (Z.pos b) ez - scaled (Z.pos a) ez)
          by (unfold scaled; rewrite <- Z.mul_sub_distr_r; f_equal; lia).
        unfold scaled. pose proof (pow2_pos (ez + 2200) ltac:(lia)). nia. }
      destruct (binary_round_le true d ez six_m (-51))
        as [-> | (m' & e' & -> & Hb' & Hle')]; try assumption; try lia.
      * unfold prec, six_m. simpl. lia.
      * unfold scaled in *. lia.
      * repeat split; reflexivity.
      * split; [exact Hb' | split; [| reflexivity]].
        unfold num_leb, SFleb, num_opp, SFopp. cbn [negb].
        rewrite compare_neg_neg by assumption.
        destruct (Z.compare_spec (scaled (Z.pos m') e')
                                 (scaled (Z.pos six_m) (-51)));
          try reflexivity; lia.
Qed.

Lemma pow10_pos (k : Z) : 0 <= k -> 0 < 10 ^ k.
Proof. intros. apply Z.pow_pos_nonneg; lia. Qed.

(** Enough fuel: the digits do not depend on it. *)
Lemma digits_le_fuel (f f' : nat) (n : Z) :
  0 <= n < 10 ^ Z.of_nat f -> n < 10 ^ Z.of_nat f' ->
  (0 < f)%nat -> (0 < f')%nat ->
  digits_le f n = digits_le f' n.
Proof.
  revert f' n. induction f as [| f IH]; intros f' n Hn Hn' Hf Hf'; [lia |].
  destruct f' as [| f']; [lia |]. cbn [digits_le].
  destruct (Z.ltb_spec n 10) as [Hlt | Hge]; [reflexivity |].
  f_equal.
  assert (Hs : forall g : nat, n < 10 ^ Z.of_nat (S g) ->
                               (0 < g)%nat /\ n / 10 < 10 ^ Z.of_nat g).
  { intros g Hg. rewrite Nat2Z.inj_succ, Z.pow_succ_r in Hg by lia. split.
    - destruct g; [| lia]. simpl in Hg. lia.
    - apply Z.div_lt_upper_bound; lia. }
  destruct (Hs f (proj2 Hn)) as [Hf0 Hq]. destruct (Hs f' Hn') as [Hf0' Hq'].
  apply IH; try assumption. split; [apply Z.div_pos; lia | assumption].
Qed.

Lemma log2_fuel (n : Z) : 0 <= n -> n < 10 ^ Z.of_nat (S (Z.to_nat (Z.log2 n))).
Proof.
  intros Hn. rewrite Nat2Z.inj_succ, Z2Nat.id by apply Z.log2_nonneg.
  destruct (Z.eq_dec n 0) as [-> | Hz]; [reflexivity |].
  pose proof (Z.log2_spec n ltac:(lia)) as [_ H].
  eapply Z.lt_le_trans; [exact H |].
  apply Z.pow_le_mono_l. lia.
Qed.

(** The digits of [n], by its last digit. *)
Lemma to_digits_eq (n : Z) :
  0 <= n ->
  to_digits n = if n <? 10 then [digit_char n]
                else to_digits (n / 10) ++ [digit_char (n mod 10)].
Proof.
  intros Hn. unfold to_digits at 1. cbn [digits_le].
  destruct (Z.ltb_spec n 10) as [Hlt | Hge]; [reflexivity |].
  cbn [rev]. f_equal. unfold to_digits. f_equal.
  assert (Hq : 0 <= n / 10) by (apply Z.div_pos; lia).
  assert (Hl : 0 < Z.log2 n) by (apply Z.log2_pos; lia).
  apply digits_le_fuel.
  - split; [assumption |]. rewrite Z2Nat.id by apply Z.log2_nonneg.
    apply Z.div_lt_upper_bound; [lia |].
    pose proof (Z.log2_spec n ltac:(lia)) as [_ H].
    eapply Z.lt_le_trans; [exact H |].
    rewrite <- Z.pow_succ_r by lia.
    apply Z.pow_le_mono_l. lia.
  - now apply log2_fuel.
  - apply Nat2Z.inj_lt. rewrite Z2Nat.id; lia.
  - lia.
Qed.

(** Induction along the digits of a number. *)
Lemma digits_ind (P : Z -> Prop) :
  (forall n, 0 <= n < 10 -> P n) ->
  (forall n, 10 <= n -> P (n / 10) -> P n) ->
  forall n, 0 <= n -> P n.
Proof.
  intros H0 Hs n Hn.
  assert (H : 0 <= n -> P n); [| exact (H Hn)].
  apply (Z_lt_induction (fun n => 0 <= n -> P n)); [| exact Hn]. clear n Hn.
  intros n IH Hn.
  destruct (Z_lt_ge_dec n 10) as [Hlt | Hge]; [apply H0; lia |].
  apply Hs; [lia |]. apply IH; [| apply Z.div_pos; lia].
  split; [apply Z.div_pos; lia | apply Z.div_lt; lia].
Qed.

Lemma digits_value_app (a b : jsstring) :
  digits_value (a ++ b) = digits_value a * 10 ^ zlength b + digits_value b.
Proof.
  unfold digits_value, zlength. rewrite fold_left_app.
  generalize (fold_left (fun acc c => acc * 10 + digit_value c) a 0).
  induction b as [| c b IH]; intros z.
  - cbn. lia.
  - cbn [fold_left List.length]. rewrite IH.
    rewrite Nat2Z.inj_succ, Z.pow_succ_r by lia.
    assert (E : fold_left (fun acc c => acc * 10 + digit_value c) b
                  (0 * 10 + digit_value c)
                = digit_value c * 10 ^ Z.of_nat (List.length b)
                  + fold_left (fun acc c => acc * 10 + digit_value c) b 0).
    { specialize (IH (0 * 10 + digit_value c)). lia. }
    rewrite E. ring.
Qed.

Lemma digit_value_char (d : Z) : 0 <= d < 10 -> digit_value (digit_char d) = d.
Proof. intros H. unfold digit_value, digit_char. rewrite Z2N.id; lia. Qed.

Lemma is_digit_char (d : Z) : 0 <= d < 10 -> is_digit (digit_char d) = true.
Proof.
  intros H. unfold is_digit, digit_char. apply andb_true_iff.
  split; apply N.leb_le; lia.
Qed.

Lemma digits_value_to_digits (n : Z) : 0 <= n -> digits_value (to_digits n) = n.
Proof.
  intros Hn. pattern n. apply digits_ind; [| | exact Hn]; clear n Hn;
    intros m Hm.
  - rewrite to_digits_eq by lia. destruct (Z.ltb_spec m 10); [| lia].
    unfold digits_value. cbn. rewrite digit_value_char; lia.
  - intros IH. rewrite to_digits_eq by lia. destruct (Z.ltb_spec m 10); [lia |].
    rewrite digits_value_app, IH. unfold zlength. cbn.
    unfold digits_value. cbn.
    rewrite digit_value_char by (apply Z.mod_pos_bound; lia).
    pose proof (Z.div_mod m 10 ltac:(lia)). lia.
Qed.

Lemma to_digits_all_digits (n : Z) :
  0 <= n -> forallb is_digit (to_digits n) = true.
Proof.
  intros Hn. pattern n. apply digits_ind; [| | exact Hn]; clear n Hn;
    intros m Hm.
  - rewrite to_digits_eq by lia. destruct (Z.ltb_spec m 10); [| lia].
    cbn. rewrite is_digit_char; [reflexivity | lia].
  - intros IH. rewrite to_digits_eq by lia. destruct (Z.ltb_spec m 10); [lia |].
    rewrite forallb_app, IH. cbn.
    rewrite is_digit_char; [reflexivity | apply Z.mod_pos_bound; lia].
Qed.

(** A positive number starts with a non-zero digit. *)
Lemma to_digits_head (n : Z) :
  0 < n -> exists c r, to_digits n = c :: r /\ is_digit c = true /\ c <> 48%N.
Proof.
  intros Hn. assert (H0 : 0 <= n) by lia. revert Hn. pattern n.
  apply digits_ind; [| | exact H0]; clear n H0; intros m Hm.
  - intros Hpos. rewrite to_digits_eq by lia.
    destruct (Z.ltb_spec m 10); [| lia].
    exists (digit_char m), []. split; [reflexivity |].
    split; [apply is_digit_char; lia |]. unfold digit_char. lia.
  - intros IH _. rewrite to_digits_eq by lia.
    destruct (Z.ltb_spec m 10); [lia |].
    destruct IH as (c & r & E & Hd & Hc).
    { apply Z.div_str_pos. lia. }
    rewrite E. exists c, (r ++ [digit_char (m mod 10)]).
    split; [reflexivity | split; assumption].
Qed.

Lemma to_digits_0 : to_digits 0 = [48%N].
Proof. reflexivity. Qed.

(** The number of digits of a positive number. *)
Lemma to_digits_length (n : Z) :
  0 < n ->
  10 ^ (zlength (to_digits n) - 1) <= n < 10 ^ zlength (to_digits n).
Proof.
  intros Hn. assert (H0 : 0 <= n) by lia. revert Hn. pattern n.
  apply digits_ind; [| | exact H0]; clear n H0; intros m Hm.
  - intros Hpos. rewrite to_digits_eq by lia.
    destruct (Z.ltb_spec m 10); [| lia]. unfold zlength. cbn. lia.
  - intros IH _. rewrite to_digits_eq by lia.
    destruct (Z.ltb_spec m 10); [lia |].
    specialize (IH ltac:(apply Z.div_str_pos; lia)).
    unfold zlength in *. rewrite length_app. cbn [List.length].
    rewrite Nat2Z.inj_add. change (Z.of_nat 1) with 1.
    set (k := Z.of_nat (List.length (to_digits (m / 10)))) in *.
    assert (Hk : 0 < k).
    { destruct (to_digits_head (m / 10) ltac:(apply Z.div_str_pos; lia))
        as (c & r & E & _). unfold k. rewrite E. cbn [List.length]. lia. }
    replace (k + 1 - 1) with (Z.succ (k - 1)) by lia.
    replace (k + 1) with (Z.succ k) by lia.
    rewrite !Z.pow_succ_r by lia.
    pose proof (Z.div_mod m 10 ltac:(lia)).
    pose proof (Z.mod_pos_bound m 10 ltac:(lia)). lia.
Qed.

(** An integer of the format is its own Number value. *)
Lemma number_of_Z_repr (m : positive) (e : Z) :
  bounded prec emax m e = true -> 0 <= e ->
  number_of_Z (Z.pos m * 2 ^ e) = S754_finite false m e.
Proof.
  intros Hb He. pose proof (canonical_fexp m e Hb) as [Hc _].
  pose proof (pow2_pos e He) as Hp.
  unfold number_of_Z, binary_normalize.
  destruct (Z.pos m * 2 ^ e) as [| p | p] eqn:Ep; try lia.
  unfold binary_round.
  assert (Hd : Z.pos (digits2_pos p) + 0 = Z.pos (digits2_pos m) + e).
  { rewrite !digits2_log2, <- Ep, Z.log2_mul_pow2 by lia. lia. }
  rewrite Hd. fold (fexp64 (Z.pos (digits2_pos m) + e)). rewrite Hc.
  assert (Hs : shl_align p 0 e = (p, 0)).
  { unfold shl_align. destruct (e - 0) eqn:E0; try reflexivity. lia. }
  rewrite Hs, <- Ep.
  apply (binary_round_aux_repr false m 0 e He). exact Hb.
Qed.

Lemma div_eucl_exact (a d q : Z) :
  0 < d -> a = d * q -> Z.div_eucl a d = (q, 0).
Proof.
  intros Hd E.
  pose proof (Z.div_unique a d q 0 ltac:(lia) ltac:(lia)) as Hq.
  pose proof (Z.mod_unique a d q 0 ltac:(lia) ltac:(lia)) as Hr.
  unfold Z.div, Z.modulo in Hq, Hr.
  destruct (Z.div_eucl a d) as [q0 r0]. congruence.
Qed.

Lemma pow10_split (k : Z) : 0 <= k -> 10 ^ k = 2 ^ k * 5 ^ k.
Proof. intros. change 10 with (2 * 5). apply Z.pow_mul_l. Qed.

(** A fraction of the format, written out in decimal, is its own Number
    value. *)
Lemma number_of_decimal_repr (m : positive) (e : Z) :
  bounded prec emax m e = true -> e < 0 ->
  number_of_decimal (Z.pos m * 5 ^ (- e)) e = S754_finite false m e.
Proof.
  intros Hb He. pose proof (bounded_facts m e Hb) as (E & _ & _).
  unfold number_of_decimal. destruct (Z.leb_spec 0 e); [lia |].
  set (k := - e). assert (Hk : 0 < k <= 1074) by (unfold k; lia).
  pose proof (pow10_pos k ltac:(lia)) as H10.
  rewrite (div_eucl_exact _ (10 ^ k) (Z.pos m * 2 ^ (1074 - k))).
  - assert (Hb' : bounded prec emax m (-1074 + (1074 - k)) = true).
    { replace (-1074 + (1074 - k)) with e by (unfold k; lia). exact Hb. }
    unfold new_location, new_location_even, new_location_odd.
    change (0 =? 0) with true. cbv iota.
    destruct (Z.even (10 ^ k));
      (rewrite binary_round_aux_repr by (assumption || lia));
      f_equal; unfold k; lia.
  - assumption.
  - rewrite pow10_split by lia.
    replace 1074 with (k + (1074 - k)) at 1 by lia.
    rewrite (pow2_split k) by lia. ring.
Qed.

(** At the exponent [min e 0] the number is a decimal integer. *)
Lemma scaled_floor_exact (m : positive) (e : Z) :
  bounded prec emax m e = true ->
  0 < scaled_floor m e (Z.min e 0) /\
  reads_back m e (scaled_floor m e (Z.min e 0)) (Z.min e 0) = true.
Proof.
  intros Hb. unfold scaled_floor, reads_back.
  destruct (Z.leb_spec 0 e) as [He | He].
  - replace (Z.min e 0) with 0 by lia. cbn [Z.leb Z.compare].
    change (10 ^ 0) with 1. rewrite !Z.mul_1_r, Z.div_1_r.
    pose proof (pow2_pos e He) as Hp. split; [lia |].
    unfold number_of_decimal. cbn [Z.leb Z.compare].
    change (10 ^ 0) with 1. rewrite Z.mul_1_r, number_of_Z_repr by assumption.
    now rewrite Pos.eqb_refl, Z.eqb_refl.
  - replace (Z.min e 0) with e by lia.
    destruct (Z.leb_spec 0 e); [lia |].
    rewrite !Z.mul_1_r.
    assert (Hlo : Z.pos m * 10 ^ (- e) / 2 ^ (- e) = Z.pos m * 5 ^ (- e)).
    { rewrite pow10_split by lia.
      pose proof (pow2_pos (- e) ltac:(lia)).
      replace (Z.pos m * (2 ^ (- e) * 5 ^ (- e)))
        with (Z.pos m * 5 ^ (- e) * 2 ^ (- e)) by ring.
      apply Z.div_mul. lia. }
    rewrite Hlo.
    assert (0 < 5 ^ (- e)) by (apply Z.pow_pos_nonneg; lia).
    split; [lia |].
    rewrite number_of_decimal_repr by assumption.
    now rewrite Pos.eqb_refl, Z.eqb_refl.
Qed.

Lemma scaled_floor_nonneg (m : positive) (e E : Z) : 0 <= scaled_floor m e E.
Proof.
  unfold scaled_floor.
  destruct (Z.leb_spec 0 e), (Z.leb_spec 0 E);
    (apply Z.div_pos;
     [ repeat apply Z.mul_nonneg_nonneg; try lia; apply Z.pow_nonneg; lia
     | repeat apply Z.mul_pos_pos; try lia; apply Z.pow_pos_nonneg; lia ]).
Qed.

(** The search succeeds, and what it returns reads back. *)
Lemma shortest_decimal_reads_back (m : positive) (e : Z) (fuel : nat) (E : Z) :
  bounded prec emax m e = true ->
  Z.min e 0 <= E -> (Z.to_nat (E - Z.min e 0) < fuel)%nat ->
  exists s E', shortest_decimal fuel m e E = Some (s, E') /\
               0 < s /\ reads_back m e s E' = true.
Proof.
  intros Hb. revert E. induction fuel as [| f IH]; intros E HE Hf; [lia |].
  cbn [shortest_decimal].
  set (lo := scaled_floor m e E).
  assert (Hlo : 0 <= lo) by apply scaled_floor_nonneg.
  destruct (Z.ltb_spec 0 lo) as [Hpos | Hzero];
    destruct (reads_back m e lo E) eqn:Rlo;
    destruct (reads_back m e (lo + 1) E) eqn:Rhi; cbn [andb].
  all: first
    [ solve [ try destruct (upper_is_nearer m e E); eexists; eexists;
              (split; [reflexivity |]); split; (lia || assumption) ]
    | (* not found at this exponent: it is not the last one *)
      assert (HE' : Z.min e 0 < E)
        by (destruct (Z.eq_dec E (Z.min e 0)) as [-> | ]; [| lia];
            destruct (scaled_floor_exact m e Hb) as [P R]; fold lo in P, R;
            first [lia | congruence]);
      apply IH; lia ].
Qed.

Lemma decimal_of_reads_back (m : positive) (e : Z) :
  bounded prec emax m e = true ->
  exists s E, decimal_of m e = Some (s, E) /\
              0 < s /\ reads_back m e s E = true.
Proof.
  intros Hb. unfold decimal_of.
  assert (H0 : 0 <= start_exponent m e).
  { unfold start_exponent, zlength. destruct (_ <=? _); lia. }
  apply shortest_decimal_reads_back; [assumption | lia | lia].
Qed.

(** Case analysis on a code unit down to its seventh bit, enough to decide
    every comparison with an ASCII character. *)
Ltac code_unit_cases c :=
  let p := fresh "p" in
  destruct c as [| p];
  [| do 7 (try (destruct p as [p | p |]))].

Lemma delimits_no_digit (rest : jsstring) :
  delimits rest = true -> no_digit_ahead rest = true.
Proof.
  destruct rest as [| c r]; [reflexivity |]. cbn.
  intros H. repeat (apply andb_true_iff in H as [H _]). exact H.
Qed.

Lemma take_digits_app (ds rest : jsstring) :
  forallb is_digit ds = true -> no_digit_ahead rest = true ->
  take_digits (ds ++ rest) = (ds, rest).
Proof.
  intros Hd Hr. induction ds as [| c ds IH].
  - destruct rest as [| c r]; [reflexivity |]. cbn in *.
    apply negb_true_iff in Hr. now rewrite Hr.
  - cbn in Hd. apply andb_true_iff in Hd as [Hc Hd].
    cbn [app take_digits]. rewrite Hc, (IH Hd). reflexivity.
Qed.

Lemma parse_int_nonzero (c : code_unit) (r : jsstring) :
  is_digit c = true -> c <> 48%N ->
  parse_int (c :: r) = let '(ds, rest) := take_digits r in Some (c :: ds, rest).
Proof.
  intros Hd Hz. code_unit_cases c; try discriminate Hd; try reflexivity.
  now contradiction Hz.
Qed.

Lemma parse_int_digits (c : code_unit) (r rest : jsstring) :
  is_digit c = true -> c <> 48%N -> forallb is_digit r = true ->
  no_digit_ahead rest = true ->
  parse_int (c :: r ++ rest) = Some (c :: r, rest).
Proof.
  intros Hd Hz Hr Hn. rewrite parse_int_nonzero by assumption.
  now rewrite take_digits_app.
Qed.

Lemma parse_frac_dot (fp rest : jsstring) :
  forallb is_digit fp = true -> fp <> [] -> no_digit_ahead rest = true ->
  parse_frac (46%N :: fp ++ rest) = Some (fp, rest).
Proof.
  intros Hd Hne Hn. cbn [parse_frac]. rewrite take_digits_app by assumption.
  destruct fp; [now contradiction Hne | reflexivity].
Qed.

Lemma parse_frac_other (s : jsstring) :
  match s with c :: _ => c <> 46%N | [] => True end ->
  parse_frac s = Some ([], s).
Proof.
  destruct s as [| c r]; [reflexivity |]. intros H.
  code_unit_cases c; try reflexivity. now contradiction H.
Qed.

Lemma parse_exp_other (s : jsstring) :
  match s with c :: _ => c <> 101%N /\ c <> 69%N | [] => True end ->
  parse_exp s = Some (0, s).
Proof.
  destruct s as [| c r]; [reflexivity |]. intros [H1 H2].
  code_unit_cases c; try reflexivity;
    first [now contradiction H1 | now contradiction H2].
Qed.

Lemma delimits_frac (rest : jsstring) :
  delimits rest = true ->
  match rest with c :: _ => c <> 46%N | [] => True end.
Proof.
  destruct rest as [| c r]; [trivial |]. cbn. intros H.
  apply andb_true_iff in H as [H _]. apply andb_true_iff in H as [H _].
  apply andb_true_iff in H as [_ H]. apply negb_true_iff, N.eqb_neq in H.
  exact H.
Qed.

Lemma delimits_exp (rest : jsstring) :
  delimits rest = true ->
  match rest with c :: _ => c <> 101%N /\ c <> 69%N | [] => True end.
Proof.
  destruct rest as [| c r]; [trivial |]. cbn. intros H.
  apply andb_true_iff in H as [H H2]. apply andb_true_iff in H as [_ H1].
  apply negb_true_iff, N.eqb_neq in H1, H2. now split.
Qed.

(** The exponent part [e+ddd] or [e-ddd]. *)
Lemma parse_exp_signed (e : Z) (rest : jsstring) :
  e <> 0 -> no_digit_ahead rest = true ->
  parse_exp ([101%N; if 0 <=? e then 43%N else 45%N]
             ++ to_digits (Z.abs e) ++ rest)
  = Some (e, rest).
Proof.
  intros He Hn.
  destruct (to_digits_head (Z.abs e) ltac:(lia)) as (c & r & E & _ & _).
  pose proof (to_digits_all_digits (Z.abs e) ltac:(lia)) as Hd.
  pose proof (digits_value_to_digits (Z.abs e) ltac:(lia)) as Hv.
  destruct (Z.leb_spec 0 e); cbn [app parse_exp];
    rewrite take_digits_app by assumption; rewrite E in *; rewrite Hv;
    do 2 f_equal; lia.
Qed.

Lemma zeros_digits (j : Z) : forallb is_digit (zeros j) = true.
Proof. unfold zeros. induction (Z.to_nat j); cbn; auto. Qed.

Lemma zeros_length (j : Z) : 0 <= j -> zlength (zeros j) = j.
Proof. intros. unfold zlength, zeros. rewrite repeat_length. lia. Qed.

Lemma digits_value_zeros_app (j : Z) (ds : jsstring) :
  digits_value (zeros j ++ ds) = digits_value ds.
Proof.
  unfold zeros. induction (Z.to_nat j) as [| k IH]; [reflexivity |].
  cbn [repeat app]. unfold digits_value in *. cbn [fold_left]. exact IH.
Qed.

Lemma digits_value_app_zeros (ds : jsstring) (j : Z) :
  0 <= j -> digits_value (ds ++ zeros j) = digits_value ds * 10 ^ j.
Proof.
  intros Hj. rewrite digits_value_app, zeros_length by assumption.
  rewrite <- (app_nil_r (zeros j)), digits_value_zeros_app.
  unfold digits_value. cbn. lia.
Qed.

Lemma is_digit_not (c : code_unit) :
  is_digit c = true ->
  c <> 45%N /\ c <> 46%N /\ c <> 101%N /\ c <> 69%N.
Proof.
  unfold is_digit. intros H. apply andb_true_iff in H as [H1 H2].
  apply N.leb_le in H1, H2. lia.
Qed.

Lemma parse_number_unsigned (c : code_unit) (r : jsstring) :
  c <> 45%N ->
  parse_number (c :: r) =
  match parse_int (c :: r) with
  | None => None
  | Some (ip, s2) =>
      match parse_frac s2 with
      | None => None
      | Some (fp, s3) =>
          match parse_exp s3 with
          | None => None
          | Some (ex, s4) =>
              Some (number_of_decimal (digits_value (ip ++ fp))
                                      (ex - zlength fp), s4)
          end
      end
  end.
Proof.
  intros H. code_unit_cases c; try reflexivity. now contradiction H.
Qed.

Lemma number_of_decimal_shift (s j : Z) :
  0 <= j -> number_of_decimal (s * 10 ^ j) 0 = number_of_decimal s j.
Proof.
  intros Hj. unfold number_of_decimal.
  destruct (Z.leb_spec 0 j); [| lia]. cbn [Z.leb Z.compare].
  change (10 ^ 0) with 1. now rewrite Z.mul_1_r.
Qed.

Lemma firstn_cons_pos {A} (n : Z) (c : A) (r : list A) :
  0 < n -> firstn (Z.to_nat n) (c :: r) = c :: firstn (Z.to_nat (n - 1)) r.
Proof.
  intros Hn. replace (Z.to_nat n) with (S (Z.to_nat (n - 1))) by lia.
  reflexivity.
Qed.

Lemma forallb_firstn {A} (f : A -> bool) (n : nat) (l : list A) :
  forallb f l = true -> forallb f (firstn n l) = true.
Proof.
  revert l. induction n as [| n IH]; intros [| x l] H; try reflexivity.
  cbn in *. apply andb_true_iff in H as [H1 H2]. now rewrite H1, IH.
Qed.

Lemma forallb_skipn {A} (f : A -> bool) (n : nat) (l : list A) :
  forallb f l = true -> forallb f (skipn n l) = true.
Proof.
  revert l. induction n as [| n IH]; intros [| x l] H; try reflexivity.
  - exact H.
  - cbn in *. apply andb_true_iff in H as [H1 H2]. now apply IH.
Qed.

Lemma parse_int_single (c : code_unit) (rest : jsstring) :
  is_digit c = true -> c <> 48%N -> no_digit_ahead rest = true ->
  parse_int (c :: rest) = Some ([c], rest).
Proof. intros. now apply (parse_int_digits c [] rest). Qed.

Lemma parse_number_exponent_1 (c : code_unit) (e : Z) (rest : jsstring) :
  is_digit c = true -> c <> 48%N -> e <> 0 -> delimits rest = true ->
  parse_number ([c; 101%N; if 0 <=? e then 43%N else 45%N]
                ++ to_digits (Z.abs e) ++ rest)
  = Some (number_of_decimal (digits_value [c]) e, rest).
Proof.
  intros Hc Hz He Hrest.
  destruct (is_digit_not c Hc) as (Hc45 & _).
  cbn [app]. rewrite parse_number_unsigned by assumption.
  rewrite parse_int_single by (assumption || reflexivity).
  rewrite parse_frac_other by (cbn; lia).
  change (101%N :: (if 0 <=? e then 43%N else 45%N)
          :: to_digits (Z.abs e) ++ rest)
    with ([101%N; if 0 <=? e then 43%N else 45%N]
          ++ to_digits (Z.abs e) ++ rest).
  rewrite parse_exp_signed by (try assumption; now apply delimits_no_digit).
  rewrite app_nil_r. do 3 f_equal. unfold zlength. cbn [List.length]. lia.
Qed.

Lemma parse_number_exponent_k (c : code_unit) (fp : jsstring) (e : Z)
  (rest : jsstring) :
  is_digit c = true -> c <> 48%N -> forallb is_digit fp = true -> fp <> [] ->
  e <> 0 -> delimits rest = true ->
  parse_number ([c; 46%N] ++ fp
                ++ [101%N; if 0 <=? e then 43%N else 45%N]
                ++ to_digits (Z.abs e) ++ rest)
  = Some (number_of_decimal (digits_value (c :: fp)) (e - zlength fp), rest).
Proof.
  intros Hc Hz Hfp Hne He Hrest.
  destruct (is_digit_not c Hc) as (Hc45 & _).
  cbn [app]. rewrite parse_number_unsigned by assumption.
  rewrite parse_int_single by (assumption || reflexivity).
  change (101%N :: (if 0 <=? e then 43%N else 45%N)
          :: to_digits (Z.abs e) ++ rest)
    with ([101%N; if 0 <=? e then 43%N else 45%N]
          ++ to_digits (Z.abs e) ++ rest).
  rewrite parse_frac_dot by (assumption || reflexivity).
  rewrite parse_exp_signed by (try assumption; now apply delimits_no_digit).
  reflexivity.
Qed.

Lemma parse_number_exponent_form (c : code_unit) (r : jsstring) (e : Z)
  (rest : jsstring) :
  is_digit c = true -> c <> 48%N -> forallb is_digit r = true ->
  e <> 0 -> delimits rest = true ->
  parse_number
    (match c :: r with
     | [d] => [d; 101%N; if 0 <=? e then 43%N else 45%N]
              ++ to_digits (Z.abs e)
     | d :: fp => [d; 46%N] ++ fp
                  ++ [101%N; if 0 <=? e then 43%N else 45%N]
                  ++ to_digits (Z.abs e)
     | [] => []
     end ++ rest)
  = Some (number_of_decimal (digits_value (c :: r)) (e - zlength r), rest).
Proof.
  intros Hc Hz Hr He Hrest. destruct r as [| d r'].
  - rewrite <- app_assoc.
    rewrite parse_number_exponent_1 by assumption.
    do 3 f_equal. unfold zlength. cbn [List.length]. lia.
  - rewrite <- !app_assoc.
    now rewrite parse_number_exponent_k by (assumption || discriminate).
Qed.

(** The digits placed by Number::toString parse back to the same decimal:
    [ds] read as an integer, times ten to the [n - k]. *)
Lemma parse_number_place_digits (c : code_unit) (r rest : jsstring) (n : Z) :
  is_digit c = true -> c <> 48%N -> forallb is_digit r = true ->
  delimits rest = true ->
  parse_number (place_digits (c :: r) n ++ rest)
  = Some (number_of_decimal (digits_value (c :: r)) (n - zlength (c :: r)),
          rest).
Proof.
  intros Hc Hz Hr Hrest.
  pose proof (delimits_no_digit rest Hrest) as Hnd.
  pose proof (delimits_frac rest Hrest) as Hnf.
  pose proof (delimits_exp rest Hrest) as Hne.
  destruct (is_digit_not c Hc) as (Hc45 & Hc46 & Hc101 & Hc69).
  set (ds := c :: r). set (k := zlength ds).
  assert (Hk : k = 1 + zlength r)
    by (unfold k, ds, zlength; cbn [List.length]; rewrite Nat2Z.inj_succ; lia).
  assert (Hk1 : 0 <= zlength r) by (unfold zlength; lia).
  assert (Hds : forallb is_digit ds = true) by (cbn; now rewrite Hc, Hr).
  unfold place_digits. fold k.
  destruct (Z.leb_spec k n) as [Hkn | Hkn];
    [destruct (Z.leb_spec n 21) as [Hn21 | Hn21] |]; cbn [andb].
  - (* an integer with trailing zeros *)
    unfold ds. cbn [app]. rewrite parse_number_unsigned by assumption.
        replace (c :: r ++ zeros (n - k) ++ rest)
      with (c :: (r ++ zeros (n - k)) ++ rest)
      by (now rewrite <- app_assoc).
    rewrite parse_int_digits; try assumption;
      [| rewrite forallb_app, Hr; apply zeros_digits].
    rewrite parse_frac_other, parse_exp_other by assumption.
    rewrite app_nil_r. change (zlength (@nil code_unit)) with 0.
    change (c :: r ++ zeros (n - k)) with (ds ++ zeros (n - k)).
    rewrite digits_value_app_zeros by lia.
    rewrite Z.sub_0_r. now rewrite number_of_decimal_shift by lia.
  - (* beyond 21 digits: exponent notation *)
    destruct (Z.ltb_spec 0 n); [| lia]. destruct (Z.leb_spec n 21); [lia |].
    cbn [andb]. destruct (Z.ltb_spec (-6) n); [| lia].
    destruct (Z.leb_spec n 0); [lia |]. cbn [andb].
    unfold ds. rewrite parse_number_exponent_form by (assumption || lia).
    do 3 f_equal. unfold k, ds, zlength. cbn [List.length].
    rewrite Nat2Z.inj_succ. lia.
  - destruct (Z.ltb_spec 0 n) as [H0n | H0n];
      [destruct (Z.leb_spec n 21) as [Hn21 | Hn21] |]; cbn [andb].
    + (* digits on both sides of the point *)
      unfold ds. rewrite firstn_cons_pos by assumption.
      cbn [app]. rewrite parse_number_unsigned by assumption.
      rewrite <- app_assoc.
      rewrite parse_int_digits; try assumption;
        [| now apply forallb_firstn | reflexivity].
      cbn [app].
      assert (Hskip : skipn (Z.to_nat n) (c :: r) <> []).
      { intros E. apply (f_equal (@List.length _)) in E.
        rewrite length_skipn in E. unfold zlength in Hk1, Hk, Hkn.
        cbn [List.length] in E. fold ds in Hk. unfold k, zlength, ds in Hkn.
        cbn [List.length] in Hkn. lia. }
      rewrite parse_frac_dot; try assumption;
        [| now apply forallb_skipn].
      rewrite parse_exp_other by assumption.
      do 3 f_equal.
      * change (digits_value
                  ((c :: firstn (Z.to_nat (n - 1)) r)
                   ++ skipn (Z.to_nat n) (c :: r))
                = digits_value ds).
        rewrite <- firstn_cons_pos by assumption.
        now rewrite firstn_skipn.
      * unfold zlength. rewrite length_skipn. unfold k, zlength, ds in *.
        cbn [List.length] in *. lia.
    + (* more digits than the exponent covers *)
      destruct (Z.ltb_spec (-6) n); [| lia].
      destruct (Z.leb_spec n 0); [lia |]. cbn [andb].
      unfold ds. rewrite parse_number_exponent_form by (assumption || lia).
      do 3 f_equal. unfold k, ds, zlength. cbn [List.length].
      rewrite Nat2Z.inj_succ. lia.
    + destruct (Z.ltb_spec (-6) n) as [H6 | H6];
        [destruct (Z.leb_spec n 0) as [_ | ?]; [| lia] |]; cbn [andb].
      * (* a fraction with leading zeros *)
        cbn [app]. rewrite <- !app_assoc.
        rewrite (parse_number_unsigned 48%N) by discriminate.
        cbn [parse_int].
        replace (zeros (- n) ++ ds ++ rest)
          with ((zeros (- n) ++ ds) ++ rest) by (now rewrite <- app_assoc).
        rewrite parse_frac_dot; try assumption;
          [| rewrite forallb_app, zeros_digits; exact Hds
           | unfold ds; destruct (zeros (- n)); discriminate].
        rewrite parse_exp_other by assumption.
        do 3 f_equal.
        -- change ([48%N] ++ zeros (- n) ++ ds)
             with (zeros 1 ++ zeros (- n) ++ ds).
           now rewrite !digits_value_zeros_app.
        -- unfold zlength. rewrite length_app. fold (zlength (zeros (- n))).
           rewrite Nat2Z.inj_add. fold (zlength (zeros (- n))).
           rewrite zeros_length by lia. fold (zlength ds). fold k. lia.
      * (* a small exponent *)
        unfold ds. rewrite parse_number_exponent_form by (assumption || lia).
        do 3 f_equal. unfold k, ds, zlength. cbn [List.length].
        rewrite Nat2Z.inj_succ. lia.
Qed.

Lemma reads_back_eq (m : positive) (e s E : Z) :
  reads_back m e s E = true -> number_of_decimal s E = S754_finite false m e.
Proof.
  unfold reads_back.
  destruct (number_of_decimal s E) as [| | | sg m' e']; try discriminate.
  destruct sg; [discriminate |]. intros H.
  apply andb_true_iff in H as [H1 H2].
  apply Pos.eqb_eq in H1. apply Z.eqb_eq in H2. now subst.
Qed.

Lemma parse_number_negative (c : code_unit) (r : jsstring) :
  c <> 45%N ->
  parse_number (45%N :: c :: r) =
  match parse_number (c :: r) with
  | Some (x, rest) => Some (num_opp x, rest)
  | None => None
  end.
Proof.
  intros H. rewrite (parse_number_unsigned c r H).
  unfold parse_number.
  destruct (parse_int (c :: r)) as [[ip s2] |]; [| reflexivity].
  destruct (parse_frac s2) as [[fp s3] |]; [| reflexivity].
  destruct (parse_exp s3) as [[ex s4] |]; reflexivity.
Qed.

Lemma place_digits_head (c : code_unit) (r : jsstring) (n : Z) :
  is_digit c = true ->
  exists c0 r0, place_digits (c :: r) n = c0 :: r0 /\ is_digit c0 = true.
Proof.
  intros Hc. unfold place_digits.
  destruct (_ && _).
  - eexists; eexists; split; [reflexivity | assumption].
  - destruct (Z.ltb_spec 0 n); cbn [andb].
    + destruct (n <=? 21).
      * rewrite firstn_cons_pos by assumption.
        eexists; eexists; split; [reflexivity | assumption].
      * destruct (_ && _);
          [eexists; eexists; split; reflexivity |].
        destruct r; eexists; eexists; split; try reflexivity; assumption.
    + destruct (_ && _);
        [eexists; eexists; split; reflexivity |].
      destruct r; eexists; eexists; split; try reflexivity; assumption.
Qed.

(** What Number::toString prints, JSON.parse reads as the same number. *)
Lemma parse_number_toString (x : number) (rest : jsstring) :
  json_number x = true -> delimits rest = true ->
  parse_number (Number_toString x ++ rest) = Some (x, rest).
Proof.
  intros Hx Hrest. destruct x as [s | s | | sg m e]; try discriminate.
  - destruct s; [discriminate |].
    change (Number_toString (S754_zero false) ++ rest) with (48%N :: rest).
    rewrite parse_number_unsigned by discriminate. cbn [parse_int].
    rewrite parse_frac_other by now apply delimits_frac.
    rewrite parse_exp_other by now apply delimits_exp.
    reflexivity.
  - cbn [json_number] in Hx.
    destruct (decimal_of_reads_back m e Hx) as (s & E & Hdec & Hs & Hrb).
    destruct (to_digits_head s Hs) as (c & r & Eds & Hc & Hz).
    pose proof (to_digits_all_digits s ltac:(lia)) as Hall.
    pose proof (digits_value_to_digits s ltac:(lia)) as Hval.
    rewrite Eds in Hall, Hval. cbn [forallb] in Hall.
    apply andb_true_iff in Hall as [_ Hr].
    assert (Hparse :
              parse_number (place_digits (c :: r) (zlength (c :: r) + E) ++ rest)
              = Some (S754_finite false m e, rest)).
    { rewrite parse_number_place_digits by assumption.
      rewrite Hval. replace (zlength (c :: r) + E - zlength (c :: r)) with E by lia.
      now rewrite (reads_back_eq m e s E Hrb). }
    unfold Number_toString. rewrite Hdec, Eds. cbv zeta.
    destruct sg.
    + (* negative *)
      destruct (place_digits_head c r (zlength (c :: r) + E) Hc)
        as (c0 & r0 & Etext & Hc0).
      rewrite Etext in *. cbn [app] in *.
      rewrite parse_number_negative by (now apply is_digit_not).
      now rewrite Hparse.
    + cbn [app]. exact Hparse.
Qed.

Lemma hex_value_char (d : N) : (d < 16)%N -> hex_value (hex_char d) = Some d.
Proof.
  intros H. destruct d as [| p]; [reflexivity |].
  do 4 (try (destruct p as [p | p |])); try reflexivity; lia.
Qed.

Lemma hex4_escape (c : code_unit) :
  (c < 65536)%N ->
  hex4 (hex_char ((c / 4096) mod 16)) (hex_char ((c / 256) mod 16))
       (hex_char ((c / 16) mod 16)) (hex_char (c mod 16)) = Some c.
Proof.
  intros H. unfold hex4.
  rewrite !hex_value_char by (apply N.mod_lt; discriminate).
  f_equal.
  pose proof (N.Div0.div_mod c 16) as E1.
  pose proof (N.Div0.div_mod (c / 16) 16) as E2.
  pose proof (N.Div0.div_mod (c / 256) 16) as E3.
  rewrite N.Div0.div_div in E2, E3. change (16 * 16)%N with 256%N in *.
  change (256 * 16)%N with 4096%N in *.
  assert (E4 : ((c / 4096) mod 16 = c / 4096)%N).
  { apply N.mod_small. apply N.Div0.div_lt_upper_bound. exact H. }
  rewrite E4 in *. lia.
Qed.

(** An escape sequence [\uXXXX] reads as its code unit. *)
Lemma parse_chars_escape (c : code_unit) (s : jsstring) :
  (c < 65536)%N ->
  parse_chars (unicode_escape c ++ s) = cons_char c (parse_chars s).
Proof.
  intros H. unfold unicode_escape. cbn [app parse_chars].
  rewrite hex4_escape by assumption. reflexivity.
Qed.

(** A character other than the quote, the backslash and the control
    characters stands for itself. *)
Lemma parse_chars_literal (c : code_unit) (s : jsstring) :
  (32 <= c)%N -> c <> 34%N -> c <> 92%N ->
  parse_chars (c :: s) = cons_char c (parse_chars s).
Proof.
  intros H32 H34 H92.
  code_unit_cases c; try reflexivity; try lia;
    first [now contradiction H34 | now contradiction H92].
Qed.

Lemma parse_chars_quote_char (c : code_unit) (s : jsstring) :
  parse_chars (quote_char c ++ s) = cons_char c (parse_chars s).
Proof.
  code_unit_cases c; reflexivity.
Qed.

Lemma surrogate_literal (c : code_unit) :
  is_high_surrogate c = true \/ is_low_surrogate c = true ->
  (32 <= c)%N /\ c <> 34%N /\ c <> 92%N /\ (c < 65536)%N.
Proof.
  unfold is_high_surrogate, is_low_surrogate.
  intros [H | H]; apply andb_true_iff in H as [H1 H2];
    apply N.leb_le in H1, H2; lia.
Qed.

(** QuoteJSONString and the string literal of JSON.parse are inverse. *)
Lemma parse_chars_quote_chars (s rest : jsstring) :
  parse_chars (quote_chars s ++ 34%N :: rest) = Some (s, rest).
Proof.
  assert (H : forall n s, (List.length s <= n)%nat ->
                          parse_chars (quote_chars s ++ 34%N :: rest)
                          = Some (s, rest)).
  { clear s. induction n as [| n IH]; intros s Hn.
    - destruct s; [reflexivity | cbn in Hn; lia].
    - destruct s as [| c r]; [reflexivity |].
      cbn [List.length] in Hn. cbn [quote_chars].
      destruct (is_high_surrogate c) eqn:Hh.
      + destruct (surrogate_literal c (or_introl Hh)) as (A & B & C & D).
        destruct r as [| d r'].
        * rewrite parse_chars_escape by assumption. reflexivity.
        * destruct (is_low_surrogate d) eqn:Hl.
          -- destruct (surrogate_literal d (or_intror Hl)) as (A' & B' & C' & _).
             cbn [app]. rewrite parse_chars_literal by assumption.
             rewrite parse_chars_literal by assumption.
             rewrite IH by (cbn [List.length] in Hn; lia). reflexivity.
          -- rewrite <- app_assoc, parse_chars_escape by assumption.
             rewrite IH by lia. reflexivity.
      + destruct (is_low_surrogate c) eqn:Hl.
        * destruct (surrogate_literal c (or_intror Hl)) as (A & B & C & D).
          rewrite <- app_assoc, parse_chars_escape by assumption.
          rewrite IH by lia. reflexivity.
        * rewrite <- app_assoc, parse_chars_quote_char.
          rewrite IH by lia. reflexivity. }
  apply (H (List.length s)). lia.
Qed.

Lemma filterM_split (v : Value) (l1 l2 : list Value) (m : Value) :
  Forall (other_id v) l1 -> has_id v m -> Forall (other_id v) l2 ->
  filterM (fun m => id <- Get m (str "id") ;;
                    Normal (negb (strict_eq id v))) (l1 ++ m :: l2)
  = Normal (l1 ++ l2).
Proof.
  intros H1 Hm H2.
  assert (Hkeep : forall l, Forall (other_id v) l ->
            filterM (fun m => id <- Get m (str "id") ;;
                              Normal (negb (strict_eq id v))) l = Normal l).
  { induction 1 as [| x l (id & Hg & Hne) _ IH]; [reflexivity |].
    cbn [filterM]. rewrite Hg. cbn [bind]. rewrite Hne, IH. reflexivity. }
  induction H1 as [| x l (id & Hg & Hne) _ IH].
  - cbn [app filterM]. destruct Hm as (id & Hg & He).
    rewrite Hg. cbn [bind]. rewrite He, (Hkeep _ H2). reflexivity.
  - cbn [app filterM]. rewrite Hg. cbn [bind]. rewrite Hne, IH. reflexivity.
Qed.

Lemma mapM_split (v : Value) (f : Value -> Value) (l1 l2 : list Value)
  (m : Value) :
  Forall (other_id v) l1 -> has_id v m -> Forall (other_id v) l2 ->
  mapM (fun m => id <- Get m (str "id") ;;
                 Normal (if strict_eq id v then f m else m)) (l1 ++ m :: l2)
  = Normal (l1 ++ f m :: l2).
Proof.
  intros H1 Hm H2.
  assert (Hkeep : forall l, Forall (other_id v) l ->
            mapM (fun m => id <- Get m (str "id") ;;
                           Normal (if strict_eq id v then f m else m)) l
            = Normal l).
  { induction 1 as [| x l (id & Hg & Hne) _ IH]; [reflexivity |].
    cbn [mapM]. rewrite Hg. cbn [bind]. rewrite Hne, IH. reflexivity. }
  induction H1 as [| x l (id & Hg & Hne) _ IH].
  - cbn [app mapM]. destruct Hm as (id & Hg & He).
    rewrite Hg. cbn [bind]. rewrite He, (Hkeep _ H2). reflexivity.
  - cbn [app mapM]. rewrite Hg. cbn [bind]. rewrite Hne, IH. reflexivity.
Qed.

(** *** Properties of ordinary objects *)

Lemma jsstring_eqb_refl (a : jsstring) : jsstring_eqb a a = true.
Proof.
  induction a as [| x a IH]; [reflexivity |].
  cbn. unfold cu_eqb. now rewrite N.eqb_refl.
Qed.

Lemma jsstring_eqb_eq (a b : jsstring) : jsstring_eqb a b = true <-> a = b.
Proof.
  split; [| intros ->; apply jsstring_eqb_refl].
  revert b. induction a as [| x a IH]; intros [| y b] H; try discriminate.
  - reflexivity.
  - cbn in H. apply andb_true_iff in H as [H1 H2].
    apply N.eqb_eq in H1. f_equal; [assumption | now apply IH].
Qed.

Lemma jsstring_eqb_sym (a b : jsstring) : jsstring_eqb a b = jsstring_eqb b a.
Proof.
  destruct (jsstring_eqb a b) eqn:E1, (jsstring_eqb b a) eqn:E2; try reflexivity.
  - apply jsstring_eqb_eq in E1. subst. now rewrite jsstring_eqb_refl in E2.
  - apply jsstring_eqb_eq in E2. subst. now rewrite jsstring_eqb_refl in E1.
Qed.

Lemma jsstring_eqb_trans_false (a b c : jsstring) :
  jsstring_eqb a b = true -> jsstring_eqb a c = jsstring_eqb b c.
Proof. intros H. apply jsstring_eqb_eq in H. now subst. Qed.

Lemma lookup_replace_same (k : jsstring) (v : Value) props :
  lookup k props <> None -> lookup k (replace k v props) = Some v.
Proof.
  induction props as [| [k' v'] r IH]; [intros H; now contradiction H |].
  cbn. destruct (jsstring_eqb k k') eqn:E; cbn; rewrite E.
  - reflexivity.
  - assumption.
Qed.

Lemma lookup_replace_other (k k0 : jsstring) (v : Value) props :
  jsstring_eqb k0 k = false -> lookup k0 (replace k v props) = lookup k0 props.
Proof.
  intros Hne. induction props as [| [k' v'] r IH]; [reflexivity |].
  cbn. destruct (jsstring_eqb k k') eqn:E; cbn.
  - apply jsstring_eqb_eq in E. subst k'. now rewrite Hne.
  - now rewrite IH.
Qed.

Lemma lookup_insert_new_same (k : jsstring) (v : Value) props :
  lookup k props = None -> lookup k (insert_new k v props) = Some v.
Proof.
  induction props as [| [k' v'] r IH]; cbn.
  - now rewrite jsstring_eqb_refl.
  - destruct (jsstring_eqb k k') eqn:E; [discriminate |]. intros H.
    destruct (key_index k), (key_index k'); try destruct (_ <? _);
      cbn; rewrite ?jsstring_eqb_refl, ?E; auto.
Qed.

Lemma lookup_insert_new_other (k k0 : jsstring) (v : Value) props :
  jsstring_eqb k0 k = false ->
  lookup k0 (insert_new k v props) = lookup k0 props.
Proof.
  intros Hne. induction props as [| [k' v'] r IH]; cbn.
  - now rewrite Hne.
  - destruct (key_index k), (key_index k'); try destruct (_ <? _);
      cbn; rewrite ?Hne, ?IH; reflexivity.
Qed.

(** CreateDataProperty sets the property and leaves all others alone. *)
Lemma lookup_obj_set_same (k : jsstring) (v : Value) props :
  lookup k (obj_set k v props) = Some v.
Proof.
  unfold obj_set. destruct (lookup k props) eqn:E.
  - apply lookup_replace_same. congruence.
  - now apply lookup_insert_new_same.
Qed.

Lemma lookup_obj_set_other (k k0 : jsstring) (v : Value) props :
  jsstring_eqb k0 k = false -> lookup k0 (obj_set k v props) = lookup k0 props.
Proof.
  intros Hne. unfold obj_set. destruct (lookup k props).
  - now apply lookup_replace_other.
  - now apply lookup_insert_new_other.
Qed.

Lemma length_replace (k : jsstring) (v : Value) props :
  List.length (replace k v props) = List.length props.
Proof.
  induction props as [| [k' v'] r IH]; [reflexivity |].
  cbn. destruct (jsstring_eqb k k'); cbn; congruence.
Qed.

Lemma map_fst_replace (k : jsstring) (v : Value) props :
  map fst (replace k v props) = map fst props.
Proof.
  induction props as [| [k' v'] r IH]; [reflexivity |].
  cbn. destruct (jsstring_eqb k k'); cbn; congruence.
Qed.

Lemma weight_arr (l : list Value) : weight (VArr l) = S (weights l).
Proof. cbn [weight]. f_equal; try (induction l; cbn; congruence). Qed.

Lemma weight_obj (props : list (jsstring * Value)) :
  weight (VObj props) = S (weights (map snd props)).
Proof.
  cbn [weight]. f_equal. induction props as [| [k x] r IH]; [reflexivity |].
  cbn [map snd weights fold_right]. fold (weights (map snd r)).
  rewrite <- IH. reflexivity.
Qed.

Lemma json_safe_arr (l : list Value) :
  json_safe (VArr l) = forallb json_safe l.
Proof. cbn [json_safe]. try (induction l; cbn; congruence). Qed.

Lemma json_safe_obj (props : list (jsstring * Value)) :
  json_safe (VObj props)
  = keys_canonical (map fst props) && forallb json_safe (map snd props).
Proof.
  cbn [json_safe]. f_equal. induction props as [| [k x] r IH]; [reflexivity |].
  cbn [map snd forallb]. rewrite <- IH. reflexivity.
Qed.

Lemma serialize_arr (l : list Value) :
  serialize (VArr l) = Some ([91%N] ++ join (map element_text l) ++ [93%N]).
Proof.
  cbn [serialize]. reflexivity.
Qed.

Lemma serialize_obj (props : list (jsstring * Value)) :
  Forall (fun kv => serialize (snd kv) <> None) props ->
  serialize (VObj props)
  = Some ([123%N] ++ join (map member_text props) ++ [125%N]).
Proof.
  intros H. cbn [serialize]. do 4 f_equal.
  induction H as [| [k x] r Hx _ IH]; [reflexivity |].
  cbn [map snd] in *. unfold member_text at 1, element_text. cbn [fst snd].
  destruct (serialize x); [| now contradiction Hx]. now rewrite IH.
Qed.

(** *** Rebuilding an object in enumeration order *)

Lemma lookup_none (k : jsstring) (props : list (jsstring * Value)) :
  existsb (jsstring_eqb k) (map fst props) = false -> lookup k props = None.
Proof.
  induction props as [| [k' v'] r IH]; [reflexivity |].
  cbn. intros H. apply orb_false_iff in H as [H1 H2]. now rewrite H1, IH.
Qed.

Lemma keys_canonical_snoc (ks : list jsstring) (k : jsstring) :
  keys_canonical (ks ++ [k]) = true ->
  keys_canonical ks = true /\
  existsb (jsstring_eqb k) ks = false /\
  forallb (fun k' => match key_index k', key_index k with
                     | Some i, Some j => i <? j
                     | Some _, None => true
                     | None, Some _ => false
                     | None, None => true
                     end) ks = true.
Proof.
  induction ks as [| k0 ks IH]; [intros _; repeat split |].
  cbn [app keys_canonical]. intros H.
  apply andb_true_iff in H as [H H3]. apply andb_true_iff in H as [H1 H2].
  destruct (IH H3) as (A & B & C).
  rewrite existsb_app in H1. cbn [existsb] in H1.
  apply negb_true_iff, orb_false_iff in H1 as [H1a H1b].
  rewrite orb_false_r in H1b.
  assert (H2' : match key_index k0 with
                | Some i =>
                    forallb (fun k' => match key_index k' with
                                       | Some j => i <? j
                                       | None => true
                                       end) ks = true /\
                    match key_index k with Some j => i <? j | None => true end
                    = true
                | None =>
                    forallb (fun k' => match key_index k' with
                                       | Some _ => false
                                       | None => true
                                       end) ks = true /\
                    match key_index k with Some _ => false | None => true end
                    = true
                end).
  { destruct (key_index k0); rewrite forallb_app in H2; cbn [forallb] in H2;
      apply andb_true_iff in H2 as [P Q]; rewrite andb_true_r in Q; now split. }
  repeat split.
  - cbn [keys_canonical]. rewrite H1a, A. cbn [negb andb].
    destruct (key_index k0); destruct H2' as [P _]; now rewrite P.
  - cbn [existsb]. rewrite B, orb_false_r.
    rewrite jsstring_eqb_sym. exact H1b.
  - cbn [forallb]. rewrite C, andb_true_r.
    destruct (key_index k0), (key_index k); destruct H2' as [_ Q];
      try reflexivity; try exact Q.
Qed.

Lemma insert_new_last (k : jsstring) (v : Value)
  (props : list (jsstring * Value)) :
  forallb (fun k' => match key_index k', key_index k with
                     | Some i, Some j => i <? j
                     | Some _, None => true
                     | None, Some _ => false
                     | None, None => true
                     end) (map fst props) = true ->
  insert_new k v props = props ++ [(k, v)].
Proof.
  induction props as [| [k' v'] r IH]; [reflexivity |].
  cbn [map fst forallb insert_new app]. intros H.
  apply andb_true_iff in H as [H1 H2]. rewrite (IH H2).
  destruct (key_index k) as [j |], (key_index k') as [i |];
    try reflexivity; try discriminate.
  destruct (Z.ltb_spec i j); [| discriminate].
  destruct (Z.ltb_spec j i); [lia | reflexivity].
Qed.

(** Setting the properties of a canonical list one after the other builds
    that list. *)
Lemma rebuild_canonical (props acc : list (jsstring * Value)) :
  keys_canonical (map fst (acc ++ props)) = true ->
  fold_left (fun a kv => obj_set (fst kv) (snd kv) a) props acc
  = acc ++ props.
Proof.
  revert acc. induction props as [| [k v] r IH]; intros acc H.
  - now rewrite app_nil_r.
  - cbn [fold_left fst snd].
    replace (acc ++ (k, v) :: r) with ((acc ++ [(k, v)]) ++ r) in *
      by (now rewrite <- app_assoc).
    assert (Hpre : keys_canonical (map fst (acc ++ [(k, v)])) = true).
    { rewrite map_app in H. clear IH.
      induction (map fst (acc ++ [(k, v)])) as [| k0 ks IHk]; [reflexivity |].
      cbn [app keys_canonical] in *.
      apply andb_true_iff in H as [H H3]. apply andb_true_iff in H as [H1 H2].
      rewrite (IHk H3), andb_true_r.
      rewrite existsb_app in H1. apply negb_true_iff, orb_false_iff in H1 as [H1 _].
      rewrite H1. cbn [negb andb].
      destruct (key_index k0); rewrite forallb_app in H2;
        apply andb_true_iff in H2 as [H2 _]; exact H2. }
    rewrite map_app in Hpre. cbn [map fst] in Hpre.
    destruct (keys_canonical_snoc _ _ Hpre) as (_ & Hnew & Hord).
    assert (Hset : obj_set k v acc = acc ++ [(k, v)]).
    { unfold obj_set. rewrite lookup_none by assumption.
      now apply insert_new_last. }
    rewrite Hset. now apply IH.
Qed.

Lemma number_text_head (x : number) :
  json_number x = true ->
  exists c t, Number_toString x = c :: t /\ (is_digit c = true \/ c = 45%N).
Proof.
  intros Hx. destruct x as [s | s | | sg m e]; try discriminate.
  - exists 48%N, []. split; [reflexivity | now left].
  - cbn [json_number] in Hx.
    destruct (decimal_of_reads_back m e Hx) as (s & E & Hdec & Hs & _).
    destruct (to_digits_head s Hs) as (c & r & Eds & Hc & _).
    unfold Number_toString. rewrite Hdec, Eds. cbv zeta.
    destruct sg.
    + eexists; eexists; split; [reflexivity | now right].
    + destruct (place_digits_head c r (zlength (c :: r) + E) Hc)
        as (c0 & r0 & -> & Hc0).
      exists c0, r0. split; [reflexivity | now left].
Qed.

Lemma json_number_finite (x : number) :
  json_number x = true -> is_finite x = true.
Proof. destruct x; try discriminate; reflexivity. Qed.

Lemma serialize_head (v : Value) :
  json_safe v = true ->
  exists c t, serialize v = Some (c :: t) /\ opens_value c.
Proof.
  intros Hv. destruct v as [| | b | x | s | l | props]; try discriminate.
  - eexists; eexists; split; [reflexivity |]. right. cbn. tauto.
  - destruct b; eexists; eexists; (split; [reflexivity |]); right; cbn; tauto.
  - cbn [json_safe] in Hv. destruct (number_text_head x Hv) as (c & t & E & Hc).
    exists c, t. cbn [serialize]. rewrite (json_number_finite x Hv), E.
    split; [reflexivity |]. destruct Hc as [Hc | ->]; [now left |].
    right. cbn. tauto.
  - eexists; eexists; split; [reflexivity |]. right. cbn. tauto.
  - rewrite serialize_arr. eexists; eexists; split; [reflexivity |].
    right. cbn. tauto.
  - cbn [serialize]. eexists; eexists; split; [reflexivity |].
    right. cbn. tauto.
Qed.

Lemma opens_value_facts (c : code_unit) :
  opens_value c -> is_ws c = false /\ c <> 93%N /\ c <> 125%N.
Proof.
  intros [H | H].
  - unfold is_digit in H. apply andb_true_iff in H as [H1 H2].
    apply N.leb_le in H1, H2.
    repeat split; try lia.
    code_unit_cases c; try reflexivity; lia.
  - cbn in H. repeat destruct H as [<- | H]; try contradiction;
      repeat split; discriminate.
Qed.

(** *** How the parser dispatches on the first character *)

Lemma parse_value_array (f : nat) (c : code_unit) (r : jsstring) :
  is_ws c = false -> c <> 93%N ->
  parse_value (S f) (91%N :: c :: r) =
  match parse_elements f (c :: r) with
  | Some (l, r') => Some (VArr l, r')
  | None => None
  end.
Proof.
  intros Hw H. code_unit_cases c; try reflexivity; try discriminate Hw.
  now contradiction H.
Qed.

Lemma parse_value_number (f : nat) (c : code_unit) (r : jsstring) :
  is_digit c = true \/ c = 45%N ->
  parse_value (S f) (c :: r) =
  match parse_number (c :: r) with
  | Some (x, r') => Some (VNum x, r')
  | None => None
  end.
Proof.
  intros [H | ->]; [| reflexivity].
  code_unit_cases c; try reflexivity; discriminate H.
Qed.

Lemma delimits_comma (r : jsstring) : delimits (44%N :: r) = true.
Proof. reflexivity. Qed.
Lemma delimits_bracket (r : jsstring) : delimits (93%N :: r) = true.
Proof. reflexivity. Qed.
Lemma delimits_brace (r : jsstring) : delimits (125%N :: r) = true.
Proof. reflexivity. Qed.

Lemma element_text_parses (v : Value) :
  parses_back v ->
  forall fuel rest,
    (weight v <= fuel)%nat -> delimits rest = true ->
    parse_value fuel (element_text v ++ rest) = Some (v, rest).
Proof.
  intros (t & E & H). unfold element_text. rewrite E. exact H.
Qed.

Lemma parse_elements_join (l : list Value) :
  l <> [] -> Forall parses_back l ->
  forall f rest,
    (weights l <= f)%nat ->
    parse_elements f (join (map element_text l) ++ 93%N :: rest)
    = Some (l, rest).
Proof.
  intros Hne H. induction H as [| x r Hx Hr IH]; [now contradiction Hne |].
  intros f rest Hf. cbn [weights fold_right] in Hf. fold (weights r) in Hf.
  destruct f as [| f]; [lia |]. cbn [parse_elements].
  destruct r as [| y r'].
  - cbn [map join].
    rewrite (element_text_parses x Hx) by (lia || apply delimits_bracket).
    reflexivity.
  - change (join (map element_text (x :: y :: r')))
      with (element_text x ++ [44%N] ++ join (map element_text (y :: r'))).
    rewrite <- !app_assoc. cbn [app].
    rewrite (element_text_parses x Hx) by (lia || apply delimits_comma).
    cbn [skip_ws is_ws].
    rewrite IH by (discriminate || lia). reflexivity.
Qed.

Lemma parse_members_join (props : list (jsstring * Value)) :
  props <> [] -> Forall (fun kv => parses_back (snd kv)) props ->
  forall f rest acc,
    (weights (map snd props) <= f)%nat ->
    parse_members f (join (map member_text props) ++ 125%N :: rest) acc
    = Some (fold_left (fun a kv => obj_set (fst kv) (snd kv) a) props acc,
            rest).
Proof.
  intros Hne H. induction H as [| [k x] r Hx Hr IH]; [now contradiction Hne |].
  intros f rest acc Hf. cbn [map snd weights fold_right] in Hf.
  fold (weights (map snd r)) in Hf. cbn [snd] in Hx.
  destruct f as [| f]; [lia |]. cbn [parse_members fold_left fst snd].
  destruct r as [| kv r'].
  - cbn [map join]. unfold member_text, quote. cbn [fst snd].
    rewrite <- !app_assoc. cbn [app skip_ws is_ws].
    rewrite parse_chars_quote_chars. cbn [skip_ws is_ws].
    rewrite (element_text_parses x Hx) by (lia || apply delimits_brace).
    reflexivity.
  - change (join (map member_text ((k, x) :: kv :: r')))
      with (member_text (k, x) ++ [44%N]
            ++ join (map member_text (kv :: r'))).
    unfold member_text at 1, quote. cbn [fst snd].
    rewrite <- !app_assoc. cbn [app skip_ws is_ws].
    rewrite parse_chars_quote_chars. cbn [skip_ws is_ws].
    rewrite (element_text_parses x Hx) by (lia || apply delimits_comma).
    cbn [skip_ws is_ws].
    rewrite IH by (discriminate || lia). reflexivity.
Qed.

Lemma forallb_Forall_impl {A} (f : A -> bool) (P : A -> Prop) (l : list A) :
  Forall (fun x => f x = true -> P x) l -> forallb f l = true -> Forall P l.
Proof.
  induction 1 as [| x l Hx _ IH]; [constructor |]. cbn. intros H.
  apply andb_true_iff in H as [H1 H2]. constructor; auto.
Qed.

(** Every safe value parses back from its text. *)
Theorem parse_serialize (v : Value) : json_safe v = true -> parses_back v.
Proof.
  induction v as [| | b | x | s | l IH | props IH] using Value_induction;
    intros Hv; try discriminate.
  - exists (str "null"). split; [reflexivity |].
    intros [| f] rest Hf _; [cbn in Hf; lia | reflexivity].
  - exists (if b then str "true" else str "false").
    split; [now destruct b |].
    intros [| f] rest Hf _; [cbn in Hf; lia | now destruct b].
  - cbn [json_safe] in Hv. exists (Number_toString x).
    split; [cbn [serialize]; now rewrite (json_number_finite x Hv) |].
    intros [| f] rest Hf Hrest; [cbn in Hf; lia |].
    destruct (number_text_head x Hv) as (c & t & E & Hc).
    pose proof (parse_number_toString x rest Hv Hrest) as Hp.
    rewrite E in *. cbn [app] in *.
    now rewrite (parse_value_number f c _ Hc), Hp.
  - exists (quote s). split; [reflexivity |].
    intros [| f] rest Hf _; [cbn in Hf; lia |].
    unfold quote. rewrite <- !app_assoc. cbn [app parse_value skip_ws is_ws].
    now rewrite parse_chars_quote_chars.
  - rewrite json_safe_arr in Hv.
    pose proof (forallb_Forall_impl _ _ _ IH Hv) as Hall.
    eexists. split; [apply serialize_arr |].
    intros fuel rest Hf _. rewrite weight_arr in Hf.
    destruct fuel as [| f]; [lia |].
    destruct l as [| x r]; [reflexivity |].
    assert (Hx : json_safe x = true)
      by (cbn in Hv; now apply andb_true_iff in Hv as [Hv _]).
    destruct (serialize_head x Hx) as (c & t & Et & Hc).
    destruct (opens_value_facts c Hc) as (Hws & H93 & _).
    rewrite <- !app_assoc. cbn [app].
    assert (Ej : exists t', join (map element_text (x :: r)) = c :: t').
    { cbn [map]. unfold element_text at 1. rewrite Et.
      destruct (map element_text r); cbn [join app]; eauto. }
    destruct Ej as (t' & Ej).
    pose proof (parse_elements_join (x :: r) ltac:(discriminate) Hall f rest
                  ltac:(lia)) as Hp.
    rewrite Ej in *. cbn [app] in *.
    rewrite (parse_value_array f c _ Hws H93).
    replace (parse_elements f _) with (Some (x :: r, rest))
      by (symmetry; exact Hp).
    reflexivity.
  - rewrite json_safe_obj in Hv. apply andb_true_iff in Hv as [Hk Hv].
    assert (Hall : Forall (fun kv => parses_back (snd kv)) props).
    { clear Hk. induction IH as [| kv r Hx _ IHr]; [constructor |].
      cbn in Hv. apply andb_true_iff in Hv as [H1 H2].
      constructor; auto. }
    assert (Hser : Forall (fun kv => serialize (snd kv) <> None) props).
    { eapply Forall_impl; [| exact Hall].
      intros kv (t & E & _). congruence. }
    eexists. split; [now apply serialize_obj |].
    intros fuel rest Hf _. rewrite weight_obj in Hf.
    destruct fuel as [| f]; [lia |].
    destruct props as [| [k x] r]; [reflexivity |].
    rewrite <- !app_assoc. cbn [app].
    assert (Ej : exists t', join (map member_text ((k, x) :: r)) = 34%N :: t').
    { cbn [map]. unfold member_text at 1, quote. cbn [fst].
      destruct (map member_text r); cbn [join app]; eauto. }
    destruct Ej as (t' & Ej).
    pose proof (parse_members_join ((k, x) :: r) ltac:(discriminate) Hall f
                  rest [] ltac:(lia)) as Hp.
    rewrite rebuild_canonical in Hp by exact Hk.
    rewrite Ej in *. cbn [app] in *.
    cbn [parse_value skip_ws is_ws].
    replace (parse_members f _ _) with (Some ((k, x) :: r, rest))
      by (symmetry; exact Hp).
    reflexivity.
Qed.

Lemma join_weights (ws : list nat) (ts : list jsstring) :
  Forall2 (fun w t => (w <= List.length t)%nat) ws ts ->
  (fold_right (fun w n => S (w + n)) O ws <= S (List.length (join ts)))%nat.
Proof.
  induction 1 as [| w t ws ts Hw Hr IH]; [cbn; lia |].
  cbn [fold_right]. destruct Hr as [| w' t' ws' ts' Hw' Hr'].
  - cbn [fold_right join]. lia.
  - change (join (t :: t' :: ts')) with (t ++ [44%N] ++ join (t' :: ts')).
    rewrite !length_app. cbn [List.length].
    unfold jsstring, code_unit in *. lia.
Qed.

Lemma weights_fold (l : list Value) :
  weights l = fold_right (fun w n => S (w + n)) O (map weight l).
Proof.
  induction l as [| x l IH]; [reflexivity |].
  cbn [map fold_right]. rewrite <- IH. reflexivity.
Qed.

(** The text of a value is at least as long as the fuel its parse needs. *)
Lemma weight_le_length (v : Value) :
  json_safe v = true ->
  forall t, serialize v = Some t -> (weight v <= List.length t)%nat.
Proof.
  induction v as [| | b | x | s | l IH | props IH] using Value_induction;
    intros Hv t Ht; try discriminate.
  - injection Ht as <-. cbn. lia.
  - destruct b; injection Ht as <-; cbn; lia.
  - destruct (serialize_head (VNum x) Hv) as (c & t' & E & _).
    rewrite E in Ht. injection Ht as <-. cbn. lia.
  - injection Ht as <-. unfold quote. rewrite !length_app. cbn. lia.
  - rewrite serialize_arr in Ht. injection Ht as <-.
    rewrite json_safe_arr in Hv. rewrite weight_arr, weights_fold.
    cbn [app List.length]. rewrite ?length_app. cbn [List.length].
    assert (H2 : Forall2 (fun w t => (w <= List.length t)%nat)
                   (map weight l) (map element_text l)).
    { induction IH as [| x r Hx _ IHr]; [constructor |].
      cbn in Hv. apply andb_true_iff in Hv as [H1 Hv].
      cbn [map]. constructor; [| now apply IHr].
      destruct (serialize_head x H1) as (c & t' & E & _).
      unfold element_text. rewrite E. now apply Hx. }
    pose proof (join_weights _ _ H2). unfold jsstring, code_unit in *. lia.
  - rewrite json_safe_obj in Hv. apply andb_true_iff in Hv as [_ Hv].
    assert (H2 : Forall2 (fun w t => (w <= List.length t)%nat)
                   (map weight (map snd props)) (map member_text props)
                 /\ Forall (fun kv => serialize (snd kv) <> None) props).
    { clear Ht. induction IH as [| [k x] r Hx _ IHr]; [split; constructor |].
      cbn in Hv. apply andb_true_iff in Hv as [H1 Hv].
      destruct (IHr Hv) as [A B].
      destruct (serialize_head x H1) as (c & t' & E & _).
      split.
      - cbn [map snd]. constructor; [| assumption].
        unfold member_text, element_text. cbn [fst snd]. rewrite E.
        rewrite !length_app. cbn [snd] in Hx. specialize (Hx H1 _ E).
        unfold jsstring, code_unit in *. lia.
      - constructor; [| assumption]. cbn [snd]. congruence. }
    destruct H2 as [H2 Hser].
    rewrite serialize_obj in Ht by assumption. injection Ht as <-.
    rewrite weight_obj, weights_fold.
    cbn [app List.length]. rewrite ?length_app. cbn [List.length].
    pose proof (join_weights _ _ H2). unfold jsstring, code_unit in *. lia.
Qed.

(** [JSON.parse(JSON.stringify(v))] is [v] for every safe value. *)
Theorem JSON_parse_stringify (v : Value) :
  json_safe v = true ->
  exists c t, JSON_stringify v = Some (c :: t) /\
              JSON_parse (c :: t) = Normal v.
Proof.
  intros Hv. destruct (serialize_head v Hv) as (c & t & E & _).
  exists c, t. split; [exact E |].
  destruct (parse_serialize v Hv) as (t0 & E0 & Hp).
  rewrite E in E0. injection E0 as <-.
  unfold JSON_parse.
  pose proof (weight_le_length v Hv _ E) as Hw.
  specialize (Hp (S (List.length (c :: t))) [] ltac:(lia) eq_refl).
  rewrite app_nil_r in Hp. rewrite Hp. reflexivity.
Qed.

Lemma getItem_setItem (k v : jsstring) (store : list (jsstring * jsstring)) :
  getItem k (setItem k v store) = Some v.
Proof.
  induction store as [| [k' v'] r IH]; cbn.
  - now rewrite jsstring_eqb_refl.
  - destruct (jsstring_eqb k k') eqn:E; cbn; rewrite E; [reflexivity | exact IH].
Qed.

Lemma firstn_app_exact {A} (a b : list A) (n : nat) :
  n = List.length a -> firstn n (a ++ b) = a.
Proof.
  intros ->. rewrite firstn_app, Nat.sub_diag, firstn_all. cbn.
  apply app_nil_r.
Qed.

Lemma skipn_app_exact {A} (a b : list A) (n : nat) :
  n = List.length a -> skipn n (a ++ b) = b.
Proof.
  intros ->. rewrite skipn_app, Nat.sub_diag, skipn_all. reflexivity.
Qed.

Lemma strip_minus_other (c : code_unit) (r : jsstring) :
  c <> 45%N -> strip_minus (c :: r) = c :: r.
Proof.
  intros H. destruct c as [| p]; [reflexivity |].
  do 7 (try (destruct p as [p | p |])); try reflexivity.
  now contradiction H.
Qed.

(** [toFixed]'s digit string for two decimals. *)
Lemma fixed_digits_two (n : Z) : 0 <= n -> fixed_digits n 2 = two_decimals n.
Proof.
  intros Hn. unfold fixed_digits, two_decimals. cbn [Z.eqb].
  destruct (Z_lt_ge_dec n 10) as [H10 | H10].
  - (* one digit *)
    rewrite (to_digits_eq n Hn). destruct (Z.ltb_spec n 10); [| lia].
    rewrite Z.div_small, Z.div_small, Z.mod_small, Z.mod_small by lia.
    reflexivity.
  - destruct (Z_lt_ge_dec n 100) as [H100 | H100].
    + (* two digits *)
      rewrite (to_digits_eq n Hn). destruct (Z.ltb_spec n 10); [lia |].
      assert (Hq : 0 <= n / 10 < 10).
      { split; [apply Z.div_pos; lia | apply Z.div_lt_upper_bound; lia]. }
      rewrite (to_digits_eq (n / 10)) by lia.
      destruct (Z.ltb_spec (n / 10) 10); [| lia].
      rewrite (Z.div_small n 100) by lia.
      rewrite (Z.mod_small (n / 10) 10) by lia. reflexivity.
    + (* three digits or more *)
      assert (Hq : 10 <= n / 10).
      { apply Z.div_le_lower_bound; lia. }
      rewrite (to_digits_eq n Hn). destruct (Z.ltb_spec n 10); [lia |].
      rewrite (to_digits_eq (n / 10)) by lia.
      destruct (Z.ltb_spec (n / 10) 10); [lia |].
      rewrite Z.div_div by lia. change (10 * 10) with 100.
      set (hd := to_digits (n / 100)).
      assert (Hhd : (0 < List.length hd)%nat).
      { destruct (to_digits_head (n / 100)) as (c & r & E & _).
        - apply Z.div_str_pos. lia.
        - unfold hd. rewrite E. cbn. lia. }
      rewrite <- app_assoc. cbn [app].
      assert (Hk : zlength (hd ++ [digit_char (n / 10 mod 10);
                                   digit_char (n mod 10)])
                   = Z.of_nat (List.length hd) + 2).
      { unfold zlength. rewrite length_app. cbn [List.length]. lia. }
      rewrite Hk. destruct (Z.leb_spec (Z.of_nat (List.length hd) + 2) 2);
        [lia |].
      replace (Z.to_nat (Z.of_nat (List.length hd) + 2 - 2))
        with (List.length hd) by lia.
      rewrite firstn_app_exact, skipn_app_exact by reflexivity.
      reflexivity.
Qed.

Lemma two_decimals_format (n : Z) (sg : bool) :
  0 <= n ->
  two_decimal_format ((if sg then [45%N] else []) ++ two_decimals n) = true.
Proof.
  intros Hn.
  assert (Hbody : two_decimal_format (two_decimals n) = true
                  /\ exists c r, two_decimals n = c :: r /\ c <> 45%N).
  { unfold two_decimals.
    assert (Hq : 0 <= n / 100) by (apply Z.div_pos; lia).
    pose proof (to_digits_all_digits (n / 100) Hq) as Hd.
    assert (Hne : exists c r, to_digits (n / 100) = c :: r
                              /\ is_digit c = true).
    { destruct (to_digits (n / 100)) as [| c r] eqn:E.
      - rewrite to_digits_eq in E by lia.
        destruct (_ <? _); [discriminate |].
        now destruct (to_digits (n / 100 / 10)).
      - exists c, r. cbn in Hd. apply andb_true_iff in Hd as [Hc _].
        now split. }
    destruct Hne as (c & r & E & Hc).
    split.
    - unfold two_decimal_format. rewrite E.
      assert (Hc45 : c <> 45%N).
      { unfold is_digit in Hc. apply andb_true_iff in Hc as [H1 H2].
        apply N.leb_le in H1, H2. lia. }
      cbn [app]. rewrite strip_minus_other by assumption.
      change (c :: r ++ [46%N; digit_char (n / 10 mod 10); digit_char (n mod 10)])
        with ((c :: r) ++ [46%N; digit_char (n / 10 mod 10); digit_char (n mod 10)]).
      rewrite <- E in *. set (ip := to_digits (n / 100)) in *.
      rewrite rev_app_distr. cbn [rev app].
      rewrite !is_digit_char by (apply Z.mod_pos_bound; lia).
      assert (Hrev : forallb is_digit (rev ip) = true).
      { apply forallb_forall. intros x Hx. apply in_rev in Hx.
        rewrite forallb_forall in Hd. now apply Hd. }
      rewrite Hrev. cbn [andb].
      destruct (rev ip) eqn:Er; [| reflexivity].
      apply (f_equal (@rev _)) in Er. rewrite rev_involutive in Er.
      rewrite Er in E. discriminate E.
    - rewrite E. exists c, (r ++ [46%N; digit_char (n / 10 mod 10);
                                  digit_char (n mod 10)]).
      split; [reflexivity |].
      unfold is_digit in Hc. apply andb_true_iff in Hc as [H1 H2].
      apply N.leb_le in H1, H2. lia. }
  destruct Hbody as [Hf (c & r & E & Hc)].
  destruct sg; [| exact Hf].
  cbn [app]. unfold two_decimal_format in *. cbn [strip_minus].
  rewrite E in *. now rewrite strip_minus_other in Hf.
Qed.

(** [nearest_scaled m e 2] is the integer nearest to [100 * m * 2^e], the
    larger one of two. *)
Lemma nearest_scaled_spec (m : positive) (e : Z) :
  let n := nearest_scaled m e 2 in
  0 <= n /\
  (0 <= e -> n = 100 * (Z.pos m * 2 ^ e)) /\
  (e < 0 -> - 2 ^ (- e) < 2 * (n * 2 ^ (- e) - 100 * Z.pos m) <= 2 ^ (- e)).
Proof.
  cbv zeta. unfold nearest_scaled. change (10 ^ 2) with 100.
  destruct (Z.leb_spec 0 e) as [He | He].
  - pose proof (pow2_pos e He). split; [lia |]. split; [lia | lia].
  - set (D := 2 ^ (- e)).
    assert (HD : 0 < D) by (apply pow2_pos; lia).
    assert (E2 : 2 ^ (1 - e) = 2 * D).
    { unfold D. replace (1 - e) with (1 + - e) by lia.
      rewrite pow2_split by lia. reflexivity. }
    rewrite E2.
    pose proof (Z.div_mod (2 * Z.pos m * 100 + D) (2 * D) ltac:(lia)) as Hdm.
    pose proof (Z.mod_pos_bound (2 * Z.pos m * 100 + D) (2 * D) ltac:(lia))
      as Hb.
    set (n := (2 * Z.pos m * 100 + D) / (2 * D)) in *.
    assert (0 <= n) by (apply Z.div_pos; lia).
    split; [assumption |]. split; [lia |]. intros _. nia.
Qed.

Lemma zero_selected_reachable :
  (st <- importLayout (Some zero_text) (initial []) ;; onClick zero_record st)
  = Normal (alert msg_imported zero_selected).
Proof. vm_compute. reflexivity. Qed.

(** ** C5 *)

(** C5: with the selection empty, [deleteModule] shows the "Select a module
    to delete!" warning once and changes nothing else: registry and
    selection are as before. *)
Theorem C5_delete_without_selection (st : State) :
  selected st = VNull ->
  exists st',
    deleteModule st = Normal st' /\
    modules st' = modules st /\
    selected st' = VNull /\
    alerts st' = alerts st ++ [msg_select] /\
    crew st' = crew st /\ controlsMode st' = controlsMode st /\
    localStorage st' = localStorage st.
Proof.
  intros Hs. exists (alert msg_select st). unfold deleteModule. rewrite Hs.
  cbn. repeat split; assumption.
Qed.

Lemma C5_witness :
  selected (initial []) = VNull /\
  exists st',
    deleteModule (initial []) = Normal st' /\
    modules st' = modules (initial []) /\
    selected st' = VNull /\
    alerts st' = alerts (initial []) ++ [msg_select] /\
    crew st' = crew (initial []) /\
    controlsMode st' = controlsMode (initial []) /\
    localStorage st' = localStorage (initial []).
Proof.
  split; [reflexivity | apply (C5_delete_without_selection (initial []))].
  reflexivity.
Defined.

(** ** C10 *)

(** C10: when the selected id is the number 0 (of either sign), selecting
    the record by a click and deleting shows the no-selection warning, once,
    and mutates nothing, and updating a field does nothing at all, although
    the record is selected. *)
Theorem C10_zero_id_counts_as_no_selection
  (st : State) (l : list Value) (m : Value) (s : bool) :
  modules st = VArr l -> In m l ->
  Get m (str "id") = Normal (VNum (S754_zero s)) ->
  exists st1 st2,
    onClick m st = Normal st1 /\
    has_id (selected st1) m /\
    modules st1 = VArr l /\
    alerts st1 = alerts st /\
    deleteModule st1 = Normal st2 /\
    alerts st2 = alerts st1 ++ [msg_select] /\
    modules st2 = VArr l /\
    selected st2 = selected st1 /\
    forall field value, updateSelected field value st1 = Normal st1.
Proof.
  intros Hm Hin Hid. exists (setSelected (VNum (S754_zero s)) st).
  exists (alert msg_select (setSelected (VNum (S754_zero s)) st)).
  unfold onClick. rewrite Hid. cbn [bind].
  repeat split.
  - exists (VNum (S754_zero s)). split; [assumption |]. now destruct s.
  - assumption.
  - assumption.
Qed.

Lemma C10_witness :
  modules zero_selected = VArr [zero_record] /\
  In zero_record [zero_record] /\
  Get zero_record (str "id") = Normal (VNum (S754_zero false)) /\
  exists st1 st2,
    onClick zero_record zero_selected = Normal st1 /\
    has_id (selected st1) zero_record /\
    modules st1 = VArr [zero_record] /\
    alerts st1 = alerts zero_selected /\
    deleteModule st1 = Normal st2 /\
    alerts st2 = alerts st1 ++ [msg_select] /\
    modules st2 = VArr [zero_record] /\
    selected st2 = selected st1 /\
    forall field value, updateSelected field value st1 = Normal st1.
Proof.
  split; [reflexivity | split; [left; reflexivity | split; [reflexivity |]]].
  apply (C10_zero_id_counts_as_no_selection zero_selected [zero_record]
           zero_record false).
  - reflexivity.
  - left; reflexivity.
  - reflexivity.
Defined.

(** ** C3 *)

(** C3 as stated fails: the text [{}] decodes, is no sequence of module
    records, and yet becomes the registry. *)
Lemma C3_counterexample :
  exists st',
    importLayout (Some (str "{}")) (initial []) = Normal st' /\
    modules st' = VObj [] /\
    ~ registry_shape (modules st').
Proof.
  eexists. split; [vm_compute; reflexivity |]. split; [reflexivity |].
  intros (l & E & _). discriminate E.
Qed.

(** C3, amended: import replaces the registry by whatever value the text
    parses to as JSON, and does so exactly when the text parses; when it
    does not, the error is shown and the registry stays.  The selection is
    untouched in both cases. *)
Theorem C3_import_replaces_iff_parses (text : jsstring) (st : State) :
  exists st',
    importLayout (Some text) st = Normal st' /\
    selected st' = selected st /\
    ((exists data, JSON_parse text = Normal data /\
                   modules st' = data /\
                   alerts st' = alerts st ++ [msg_imported])
     \/
     (exists e, JSON_parse text = Throw e /\
                modules st' = modules st /\
                alerts st' = alerts st ++ [msg_invalid])).
Proof.
  unfold importLayout. destruct (JSON_parse text) as [data | e].
  - eexists. split; [reflexivity |]. split; [reflexivity |].
    left. exists data. repeat split.
  - eexists. split; [reflexivity |]. split; [reflexivity |].
    right. exists e. repeat split.
Qed.

Lemma bind_Normal {A B} (c : completion A) (k : A -> completion B) (b : B) :
  bind c k = Normal b -> exists a, c = Normal a /\ k a = Normal b.
Proof. destruct c as [a | e]; [| discriminate]. intros H. now exists a. Qed.

Lemma mapM_In (f : Value -> completion Value) (l l' : list Value) (m : Value) :
  mapM f l = Normal l' -> In m l ->
  exists m', f m = Normal m' /\ In m' l'.
Proof.
  revert l'. induction l as [| x l IH]; intros l' H Hin; [contradiction |].
  cbn [mapM] in H.
  apply bind_Normal in H as (y & Hy & H).
  apply bind_Normal in H as (r & Hr & H).
  injection H as <-.
  destruct Hin as [-> | Hin].
  - exists y. split; [assumption | now left].
  - destruct (IH r Hr Hin) as (m' & Hm' & Hin').
    exists m'. split; [assumption | now right].
Qed.

Lemma mapM_length (f : Value -> completion Value) (l l' : list Value) :
  mapM f l = Normal l' -> List.length l' = List.length l.
Proof.
  revert l'. induction l as [| x l IH]; intros l' H.
  - injection H as <-. reflexivity.
  - cbn [mapM] in H.
    apply bind_Normal in H as (y & Hy & H).
    apply bind_Normal in H as (r & Hr & H).
    injection H as <-. cbn. f_equal. now apply IH.
Qed.

(** A record whose id equals a truthy selection is an ordinary object. *)
Lemma has_id_object (v m : Value) :
  truthy v = true -> has_id v m ->
  exists props id, m = VObj props /\ lookup (str "id") props = Some id /\
                   strict_eq id v = true.
Proof.
  intros Ht (id & Hg & He).
  assert (Hu : id <> VUndefined).
  { intros ->. destruct v; try discriminate. }
  destruct m as [| | b | x | s | l | props]; try discriminate.
  - injection Hg as <-. now contradiction Hu.
  - injection Hg as <-. now contradiction Hu.
  - cbn in Hg. injection Hg as <-. now contradiction Hu.
  - cbn in Hg. injection Hg as <-. now contradiction Hu.
  - cbn [Get] in Hg. exists props.
    destruct (lookup (str "id") props) as [id' |] eqn:E.
    + injection Hg as ->. exists id. repeat split; assumption.
    + injection Hg as <-. now contradiction Hu.
Qed.

Lemma has_id_spread (v m : Value) (field : jsstring) (value : Value) :
  truthy v = true -> has_id v m ->
  jsstring_eqb field (str "id") = false ->
  has_id v (spread_with m field value).
Proof.
  intros Ht Hm Hf.
  destruct (has_id_object v m Ht Hm) as (props & id & -> & Hl & He).
  exists id. split; [| assumption].
  unfold spread_with, Get. cbn [own_props].
  rewrite lookup_obj_set_other, Hl; [reflexivity |].
  now rewrite jsstring_eqb_sym.
Qed.

(** ** C1 *)

(** C1 as stated fails: after one add, importing the text [[]] leaves the
    selection on an id that is no longer in the registry. *)
Lemma C1_counterexample :
  addModule sample_now sample_r sample_r sample_r (initial [])
  = Normal added_once /\
  selection_valid added_once /\
  importLayout (Some (str "[]")) added_once
  = Normal (alert msg_imported (setModules (VArr []) added_once)) /\
  ~ selection_valid (alert msg_imported (setModules (VArr []) added_once)).
Proof.
  split; [vm_compute; reflexivity |].
  split.
  - right. exists [added_record], added_record.
    split; [vm_compute; reflexivity |]. split; [left; reflexivity |].
    exists (VNum sample_now). split; vm_compute; reflexivity.
  - split; [vm_compute; reflexivity |].
    intros [H | (l & m & Hl & Hin & _)].
    + vm_compute in H. discriminate H.
    + cbn in Hl. injection Hl as <-. contradiction.
Qed.

(** C1, amended: add, delete, update of a field other than [id], and save
    keep the selection none or the id of a record of the registry.  Load and
    import replace the registry and leave the selection as it is. *)
Theorem C1_selection_valid_preserved (st : State) :
  selection_valid st ->
  (forall now r1 r2 r3 st',
      num_eqb now now = true ->
      addModule now r1 r2 r3 st = Normal st' -> selection_valid st') /\
  (forall st', deleteModule st = Normal st' -> selection_valid st') /\
  (forall field value st',
      jsstring_eqb field (str "id") = false ->
      updateSelected field value st = Normal st' -> selection_valid st') /\
  (forall st', saveLayout st = Normal st' -> selection_valid st') /\
  (forall st', loadLayout st = Normal st' -> selected st' = selected st) /\
  (forall file st',
      importLayout file st = Normal st' -> selected st' = selected st).
Proof.
  intros Hv. repeat split.
  - (* add *)
    intros now r1 r2 r3 st' Hnow H. unfold addModule in H.
    destruct (array_get types _) as [| | | | type | |]; try discriminate.
    apply bind_Normal in H as (color & Hc & H).
    apply bind_Normal in H as (l & Hl & H).
    assert (Hid : Get (newModule now r2 r3 type color) (str "id")
                  = Normal (VNum now)) by reflexivity.
    rewrite Hid in H. cbn [bind] in H. injection H as <-.
    right. exists (l ++ [newModule now r2 r3 type color]).
    exists (newModule now r2 r3 type color).
    split; [reflexivity |]. split; [apply in_or_app; right; now left |].
    exists (VNum now). split; [exact Hid | exact Hnow].
  - (* delete *)
    intros st' H. unfold deleteModule in H.
    destruct (truthy (selected st)) eqn:Ht; cbn [negb] in H.
    + apply bind_Normal in H as (ms & _ & H). injection H as <-.
      now left.
    + injection H as <-. exact Hv.
  - (* update *)
    intros field value st' Hf H. unfold updateSelected in H.
    destruct (truthy (selected st)) eqn:Ht; cbn [negb] in H.
    + apply bind_Normal in H as (ms & Hms & H). injection H as <-.
      destruct Hv as [Hn | (l & m & Hl & Hin & Hm)].
      * rewrite Hn in Ht. discriminate.
      * rewrite Hl in Hms. cbn [call_map] in Hms.
        apply bind_Normal in Hms as (l' & Hl' & Hms). injection Hms as <-.
        destruct (mapM_In _ l l' m Hl' Hin) as (m' & Hm' & Hin').
        right. exists l', m'. split; [reflexivity |]. split; [assumption |].
        pose proof Hm as (id & Hg & He).
        rewrite Hg in Hm'. cbn [bind] in Hm'. rewrite He in Hm'.
        injection Hm' as <-. cbn [selected setModules].
        now apply has_id_spread.
    + injection H as <-. exact Hv.
  - (* save *)
    intros st' H. unfold saveLayout in H. injection H as <-. exact Hv.
  - (* load *)
    intros st' H. unfold loadLayout in H.
    destruct (getItem slot (localStorage st)) as [[| c t] |].
    + injection H as <-. reflexivity.
    + apply bind_Normal in H as (data & _ & H). injection H as <-. reflexivity.
    + injection H as <-. reflexivity.
  - (* import *)
    intros file st' H. unfold importLayout in H.
    destruct file as [text |]; [| injection H as <-; reflexivity].
    destruct (JSON_parse text); injection H as <-; reflexivity.
Qed.

(** The theorem at the state reached by one add from the initial state: the
    selection is the id of the new record. *)
Lemma C1_witness :
  selection_valid added_once /\
  ((forall now r1 r2 r3 st',
       num_eqb now now = true ->
       addModule now r1 r2 r3 added_once = Normal st' ->
       selection_valid st') /\
   (forall st', deleteModule added_once = Normal st' -> selection_valid st') /\
   (forall field value st',
       jsstring_eqb field (str "id") = false ->
       updateSelected field value added_once = Normal st' ->
       selection_valid st') /\
   (forall st', saveLayout added_once = Normal st' -> selection_valid st') /\
   (forall st',
       loadLayout added_once = Normal st' ->
       selected st' = selected added_once) /\
   (forall file st',
       importLayout file added_once = Normal st' ->
       selected st' = selected added_once)).
Proof.
  assert (Hv : selection_valid added_once).
  { right. exists [added_record], added_record.
    split; [vm_compute; reflexivity |]. split; [left; reflexivity |].
    exists (VNum sample_now). split; vm_compute; reflexivity. }
  split; [exact Hv | exact (C1_selection_valid_preserved added_once Hv)].
Defined.

(** ** C4 *)

(** C4 as stated fails, in two ways.  The record with id 0 is selected and
    present, and delete neither removes it nor clears the selection.  And
    after two adds that read the same clock value the selection is the id of
    both records, and delete removes the two of them. *)
Lemma C4_counterexample :
  (In zero_record [zero_record] /\
   modules zero_selected = VArr [zero_record] /\
   has_id (selected zero_selected) zero_record /\
   selected zero_selected <> VNull /\
   exists st',
     deleteModule zero_selected = Normal st' /\
     modules st' = VArr [zero_record] /\
     selected st' = selected zero_selected) /\
  (exists m1 m2 st',
     modules added_twice = VArr [m1; m2] /\
     has_id (selected added_twice) m1 /\
     truthy (selected added_twice) = true /\
     deleteModule added_twice = Normal st' /\
     modules st' = VArr []).
Proof.
  split.
  - split; [left; reflexivity |]. split; [reflexivity |].
    split; [eexists; split; reflexivity |]. split; [discriminate |].
    eexists. repeat split.
  - exists (match modules added_twice with VArr (m :: _) => m | _ => VNull end).
    exists (match modules added_twice with
            | VArr (_ :: m :: _) => m | _ => VNull end).
    exists (setSelected VNull (setModules (VArr []) added_twice)).
    split; [vm_compute; reflexivity |].
    split; [exists (VNum sample_now); split; vm_compute; reflexivity |].
    split; [vm_compute; reflexivity |].
    split; vm_compute; reflexivity.
Qed.

(** C4, amended: when the selection is truthy, equals the id of one record
    and differs from the id of every other record, delete removes exactly
    that record, keeps the others in order, makes the registry one shorter
    and clears the selection. *)
Theorem C4_delete_removes_selected
  (st : State) (l1 l2 : list Value) (m : Value) :
  modules st = VArr (l1 ++ m :: l2) ->
  truthy (selected st) = true ->
  has_id (selected st) m ->
  Forall (other_id (selected st)) l1 ->
  Forall (other_id (selected st)) l2 ->
  exists st',
    deleteModule st = Normal st' /\
    modules st' = VArr (l1 ++ l2) /\
    (List.length (l1 ++ l2) + 1 = List.length (l1 ++ m :: l2))%nat /\
    selected st' = VNull /\
    alerts st' = alerts st /\ crew st' = crew st /\
    controlsMode st' = controlsMode st /\ localStorage st' = localStorage st.
Proof.
  intros Hm Ht Hid H1 H2.
  exists (setSelected VNull (setModules (VArr (l1 ++ l2)) st)).
  split.
  - unfold deleteModule. rewrite Ht, Hm. cbn [negb call_filter].
    rewrite (filterM_split (selected st) l1 l2 m H1 Hid H2). reflexivity.
  - repeat split. rewrite !length_app. cbn. lia.
Qed.

Lemma C4_witness :
  modules second_selected
  = VArr ([VObj [(str "id", VNum (lit 7 0)); (str "label", VStr (str "A"))]]
          ++ VObj [(str "id", VNum (lit 8 0)); (str "label", VStr (str "B"))]
          :: []) /\
  exists st',
    deleteModule second_selected = Normal st' /\
    modules st'
    = VArr ([VObj [(str "id", VNum (lit 7 0)); (str "label", VStr (str "A"))]]
            ++ []) /\
    (List.length
       ([VObj [(str "id", VNum (lit 7 0)); (str "label", VStr (str "A"))]]
        ++ []) + 1
     = List.length two_records)%nat /\
    selected st' = VNull /\
    alerts st' = alerts second_selected /\ crew st' = crew second_selected /\
    controlsMode st' = controlsMode second_selected /\
    localStorage st' = localStorage second_selected.
Proof.
  split; [reflexivity |].
  apply (C4_delete_removes_selected second_selected
           [VObj [(str "id", VNum (lit 7 0)); (str "label", VStr (str "A"))]]
           []
           (VObj [(str "id", VNum (lit 8 0)); (str "label", VStr (str "B"))])).
  - reflexivity.
  - reflexivity.
  - exists (VNum (lit 8 0)). split; reflexivity.
  - constructor; [| constructor].
    exists (VNum (lit 7 0)). split; reflexivity.
  - constructor.
Defined.

(** ** C6 *)

(** C6 as stated fails, in two ways.  The record with id 0 is selected and
    present, and the update leaves its label as it was.  And after two adds
    that read the same clock value the selection is the id of both records,
    and the update changes the label of the two of them. *)
Lemma C6_counterexample :
  (modules zero_selected = VArr [zero_record] /\
   has_id (selected zero_selected) zero_record /\
   selected zero_selected <> VNull /\
   updateSelected (str "label") (VStr (str "New")) zero_selected
   = Normal zero_selected /\
   Get zero_record (str "label") = Normal (VStr (str "Old"))) /\
  (exists m1 m2 m1' m2',
     modules added_twice = VArr [m1; m2] /\
     has_id (selected added_twice) m1 /\
     truthy (selected added_twice) = true /\
     Get m1 (str "label") = Normal (VStr (str "Cone")) /\
     Get m2 (str "label") = Normal (VStr (str "Cone")) /\
     (exists st',
        updateSelected (str "label") (VStr (str "New")) added_twice
        = Normal st' /\
        modules st' = VArr [m1'; m2']) /\
     Get m1' (str "label") = Normal (VStr (str "New")) /\
     Get m2' (str "label") = Normal (VStr (str "New"))).
Proof.
  split.
  - split; [reflexivity |]. split; [eexists; split; reflexivity |].
    split; [discriminate |]. split; reflexivity.
  - exists (match modules added_twice with VArr (m :: _) => m | _ => VNull end).
    exists (match modules added_twice with
            | VArr (_ :: m :: _) => m | _ => VNull end).
    exists (spread_with
              (match modules added_twice with
               | VArr (m :: _) => m | _ => VNull end)
              (str "label") (VStr (str "New"))).
    exists (spread_with
              (match modules added_twice with
               | VArr (_ :: m :: _) => m | _ => VNull end)
              (str "label") (VStr (str "New"))).
    split; [vm_compute; reflexivity |].
    split; [exists (VNum sample_now); split; vm_compute; reflexivity |].
    do 3 (split; [vm_compute; reflexivity |]).
    split; [eexists; split; vm_compute; reflexivity |].
    split; vm_compute; reflexivity.
Qed.

(** C6, amended: when the selection is truthy, equals the id of one record
    and differs from the id of every other record, the update replaces that
    record, in place, by a copy in which the named field holds the new
    value and every other field is as before; the other records, their
    number and their order are unchanged, and so are the selection and the
    rest of the state. *)
Theorem C6_update_changes_one_field
  (st : State) (l1 l2 : list Value) (m : Value)
  (field : jsstring) (value : Value) :
  modules st = VArr (l1 ++ m :: l2) ->
  truthy (selected st) = true ->
  has_id (selected st) m ->
  Forall (other_id (selected st)) l1 ->
  Forall (other_id (selected st)) l2 ->
  exists st' props props',
    m = VObj props /\
    updateSelected field value st = Normal st' /\
    modules st' = VArr (l1 ++ VObj props' :: l2) /\
    lookup field props' = Some value /\
    (forall k, jsstring_eqb k field = false ->
               lookup k props' = lookup k props) /\
    List.length (l1 ++ VObj props' :: l2) = List.length (l1 ++ m :: l2) /\
    selected st' = selected st /\
    alerts st' = alerts st /\ crew st' = crew st /\
    controlsMode st' = controlsMode st /\ localStorage st' = localStorage st.
Proof.
  intros Hm Ht Hid H1 H2.
  destruct (has_id_object _ _ Ht Hid) as (props & id & -> & Hl & He).
  exists (setModules (VArr (l1 ++ VObj (obj_set field value props) :: l2)) st).
  exists props, (obj_set field value props).
  split; [reflexivity |]. split.
  - unfold updateSelected. rewrite Ht, Hm. cbn [negb call_map].
    rewrite (mapM_split (selected st)
               (fun m => spread_with m field value) l1 l2 _ H1 Hid H2).
    reflexivity.
  - split; [reflexivity |].
    split; [apply lookup_obj_set_same |]. split.
    + intros k Hk. now apply lookup_obj_set_other.
    + split; [rewrite !length_app; reflexivity | repeat split].
Qed.

Lemma C6_witness :
  modules second_selected
  = VArr ([VObj [(str "id", VNum (lit 7 0)); (str "label", VStr (str "A"))]]
          ++ VObj [(str "id", VNum (lit 8 0)); (str "label", VStr (str "B"))]
          :: []) /\
  exists st' props props',
    VObj [(str "id", VNum (lit 8 0)); (str "label", VStr (str "B"))]
    = VObj props /\
    updateSelected (str "label") (VStr (str "C")) second_selected
    = Normal st' /\
    modules st'
    = VArr ([VObj [(str "id", VNum (lit 7 0));
                   (str "label", VStr (str "A"))]]
            ++ VObj props' :: []) /\
    lookup (str "label") props' = Some (VStr (str "C")) /\
    (forall k, jsstring_eqb k (str "label") = false ->
               lookup k props' = lookup k props) /\
    List.length ([VObj [(str "id", VNum (lit 7 0));
                        (str "label", VStr (str "A"))]]
                 ++ VObj props' :: [])
    = List.length two_records /\
    selected st' = selected second_selected /\
    alerts st' = alerts second_selected /\ crew st' = crew second_selected /\
    controlsMode st' = controlsMode second_selected /\
    localStorage st' = localStorage second_selected.
Proof.
  split; [reflexivity |].
  apply (C6_update_changes_one_field second_selected
           [VObj [(str "id", VNum (lit 7 0)); (str "label", VStr (str "A"))]]
           []
           (VObj [(str "id", VNum (lit 8 0)); (str "label", VStr (str "B"))])
           (str "label") (VStr (str "C"))).
  - reflexivity.
  - reflexivity.
  - exists (VNum (lit 8 0)). split; reflexivity.
  - constructor; [| constructor].
    exists (VNum (lit 7 0)). split; reflexivity.
  - constructor.
Defined.

(** What one call of [addModule] does, for any two coordinate draws. *)
Lemma addModule_spec (st : State) (l : list Value) (now r1 r2 r3 : number) :
  modules st = VArr l -> is_random r1 = true ->
  exists type label color,
    In (type, label, color) catalogue /\
    addModule now r1 r2 r3 st
    = Normal (setSelected (VNum now)
                (setModules
                   (VArr (l ++ [module_of now type label color
                                  (num_sub (num_mul r2 (lit 6 0)) (lit 3 0))
                                  (num_sub (num_mul r3 (lit 6 0)) (lit 3 0))]))
                   st)).
Proof.
  intros Hm Hr. destruct (floor_index r1 Hr) as (i & Hi & Hlt).
  unfold addModule, array_get.
  change (number_of_Z (zlength types)) with (S754_finite false six_m (-50)).
  rewrite Hi, Hm.
  do 6 (destruct i as [| i];
        [ eexists; eexists; eexists; (split; [ | reflexivity ]);
          unfold catalogue; cbn [In]; tauto | ]).
  lia.
Qed.

(** ** C9 *)




(** ** C2 *)

(** C2 as stated fails: two adds that read the same clock value produce two
    records with the same id. *)
Lemma C2_counterexample :
  addModules [same_instant; same_instant] (initial []) = Normal added_twice /\
  exists m1 m2,
    modules added_twice = VArr [m1; m2] /\
    strict_eq (id_of m1) (id_of m2) = true.
Proof.
  split; [vm_compute; reflexivity |].
  exists (match modules added_twice with VArr (m :: _) => m | _ => VNull end).
  exists (match modules added_twice with
          | VArr (_ :: m :: _) => m | _ => VNull end).
  split; vm_compute; reflexivity.
Qed.

Lemma addModules_spec (ins : list inputs) (st : State) (l : list Value) :
  modules st = VArr l ->
  Forall (fun i => is_random (draw1 i) = true) ins ->
  exists st' ms,
    addModules ins st = Normal st' /\
    modules st' = VArr (l ++ ms) /\
    map id_of ms = map (fun i => VNum (reading i)) ins /\
    Forall (fun m => In (type_of m) types) ms.
Proof.
  revert st l. induction ins as [| i ins IH]; intros st l Hm Hr.
  - exists st, []. rewrite app_nil_r. repeat split; [assumption | constructor].
  - inversion Hr as [| ? ? Hi Hr']; subst.
    destruct (addModule_spec st l (reading i) (draw1 i) (draw2 i) (draw3 i)
                Hm Hi) as (type & label & color & Hin & Heq).
    set (m := module_of (reading i) type label color
                (num_sub (num_mul (draw2 i) (lit 6 0)) (lit 3 0))
                (num_sub (num_mul (draw3 i) (lit 6 0)) (lit 3 0))) in *.
    destruct (IH (setSelected (VNum (reading i))
                    (setModules (VArr (l ++ [m])) st)) (l ++ [m])
                 eq_refl Hr') as (st' & ms & Hrun & Hms & Hids & Hty).
    exists st', (m :: ms). split; [| split; [| split]].
    + cbn [addModules]. rewrite Heq. exact Hrun.
    + rewrite Hms, <- app_assoc. reflexivity.
    + cbn [map]. rewrite Hids. reflexivity.
    + constructor; [| assumption].
      unfold catalogue in Hin. cbn [In] in Hin.
      repeat (destruct Hin as [Hin | Hin];
              [injection Hin as <- <- <-; vm_compute; tauto |]).
      contradiction.
Qed.

Lemma pairwise_ids (ins : list inputs) (ms : list Value) :
  map id_of ms = map (fun i => VNum (reading i)) ins ->
  pairwise (fun a b => num_eqb (reading a) (reading b) = false) ins ->
  pairwise (fun a b => strict_eq (id_of a) (id_of b) = false) ms.
Proof.
  revert ms. induction ins as [| i ins IH]; intros [| m ms] Hmap Hp;
    try discriminate; [exact I |].
  cbn [map] in Hmap. injection Hmap as Hm Hmap. destruct Hp as [Hi Hp].
  split; [| now apply IH].
  clear IH Hp. revert ms Hmap. induction Hi as [| j ins Hj _ IH']; intros [| m' ms] Hmap;
    try discriminate; constructor.
  - cbn [map] in Hmap. injection Hmap as Hm' Hmap. rewrite Hm, Hm'. exact Hj.
  - cbn [map] in Hmap. injection Hmap as _ Hmap. now apply IH'.
Qed.

(** C2, amended: a run of adds from the initial state appends one record
    per add; each record carries the clock reading of its add as id and one
    of the six types, and the ids are pairwise different whenever the clock
    readings are. *)
Theorem C2_ids_follow_the_clock
  (ins : list inputs) (store : list (jsstring * jsstring)) :
  Forall (fun i => is_random (draw1 i) = true) ins ->
  exists st' ms,
    addModules ins (initial store) = Normal st' /\
    modules st' = VArr ms /\
    map id_of ms = map (fun i => VNum (reading i)) ins /\
    Forall (fun m => In (type_of m) types) ms /\
    (pairwise (fun a b => num_eqb (reading a) (reading b) = false) ins ->
     pairwise (fun a b => strict_eq (id_of a) (id_of b) = false) ms).
Proof.
  intros Hr.
  destruct (addModules_spec ins (initial store) [] eq_refl Hr)
    as (st' & ms & Hrun & Hms & Hids & Hty).
  exists st', ms. repeat split; try assumption.
  now apply pairwise_ids.
Qed.

Lemma C2_witness :
  Forall (fun i => is_random (draw1 i) = true) [same_instant; later_instant] /\
  exists st' ms,
    addModules [same_instant; later_instant] (initial []) = Normal st' /\
    modules st' = VArr ms /\
    map id_of ms
    = map (fun i => VNum (reading i)) [same_instant; later_instant] /\
    Forall (fun m => In (type_of m) types) ms /\
    (pairwise (fun a b => num_eqb (reading a) (reading b) = false)
       [same_instant; later_instant] ->
     pairwise (fun a b => strict_eq (id_of a) (id_of b) = false) ms).
Proof.
  split.
  - repeat constructor.
  - apply (C2_ids_follow_the_clock [same_instant; later_instant] []).
    repeat constructor.
Defined.

(** ** C7 *)

(** C7 as stated fails: a size that reads as [Infinity] is saved as [null]
    and loaded as [null]. *)
Lemma C7_counterexample :
  importLayout (Some overflow_text) (initial []) = Normal overflow_state /\
  modules overflow_state
  = VArr [VObj [(str "id", VNum (lit 1 0)); (str "size", VNum Infinity)]] /\
  (st1 <- saveLayout overflow_state ;;
   st2 <- loadLayout st1 ;;
   Normal (modules st2))
  = Normal (VArr [VObj [(str "id", VNum (lit 1 0)); (str "size", VNull)]]).
Proof.
  split; [vm_compute; reflexivity |]. split; vm_compute; reflexivity.
Qed.

(** C7, amended: when the registry holds only values JSON carries (no
    [undefined]; numbers finite and not [-0]; object keys in enumeration
    order), save followed by load restores the registry, record for record
    and field for field, and leaves the selection alone. *)
Theorem C7_save_then_load (st : State) :
  json_safe (modules st) = true ->
  exists st1 st2,
    saveLayout st = Normal st1 /\
    loadLayout st1 = Normal st2 /\
    modules st2 = modules st /\
    selected st2 = selected st /\
    alerts st2 = alerts st ++ [msg_saved; msg_loaded].
Proof.
  intros Hv.
  destruct (JSON_parse_stringify (modules st) Hv) as (c & t & Es & Ep).
  unfold saveLayout. rewrite Es.
  eexists. eexists. split; [reflexivity |].
  unfold loadLayout. cbn [localStorage alert setStorage].
  rewrite getItem_setItem, Ep. cbn [bind].
  split; [reflexivity |]. cbn. rewrite <- app_assoc. repeat split.
Qed.

Lemma C7_witness :
  json_safe (modules added_once) = true /\
  exists st1 st2,
    saveLayout added_once = Normal st1 /\
    loadLayout st1 = Normal st2 /\
    modules st2 = modules added_once /\
    selected st2 = selected added_once /\
    alerts st2 = alerts added_once ++ [msg_saved; msg_loaded].
Proof.
  split; [vm_compute; reflexivity | apply (C7_save_then_load added_once)].
  vm_compute; reflexivity.
Defined.

(** ** C8 *)

(** C8 as stated fails: for a crew of 2e21 the oxygen figure is written in
    exponent notation, not with two decimals. *)
Lemma C8_counterexample :
  dailyOxygen (lit 2 21) = str "1.68e+21" /\
  two_decimal_format (dailyOxygen (lit 2 21)) = false.
Proof. split; vm_compute; reflexivity. Qed.

Lemma toFixed_two (sg : bool) (m : positive) (e : Z) :
  at_least_1e21 m e = false ->
  toFixed (S754_finite sg m e) 2
  = (if sg then [45%N] else []) ++ two_decimals (nearest_scaled m e 2).
Proof.
  intros H. unfold toFixed. rewrite H.
  destruct (nearest_scaled_spec m e) as (Hn & _).
  now rewrite fixed_digits_two.
Qed.

(** C8, amended: the three figures depend on the crew count alone.  For a
    crew of 4 they are 3.36, 10.00 and 2.48, for a crew of 0 they are 0.00.
    In general, when the binary64 product of crew and rate is finite and
    below 10^21 in magnitude, the figure is that product rounded to the
    nearest hundredth (the larger one of two) and written with a sign, if
    negative, and exactly two decimals. *)
Theorem C8_estimates_have_two_decimals :
  (dailyOxygen (lit 4 0) = str "3.36" /\
   dailyWater (lit 4 0) = str "10.00" /\
   dailyFood (lit 4 0) = str "2.48" /\
   dailyOxygen (lit 0 0) = str "0.00" /\
   dailyWater (lit 0 0) = str "0.00" /\
   dailyFood (lit 0 0) = str "0.00") /\
  forall (crew rate : number) (text : jsstring),
    In (rate, text) (estimates crew) ->
    (forall s, num_mul crew rate = S754_zero s -> text = str "0.00") /\
    (forall sg m e,
        num_mul crew rate = S754_finite sg m e ->
        at_least_1e21 m e = false ->
        let n := nearest_scaled m e 2 in
        text = (if sg then [45%N] else []) ++ two_decimals n /\
        two_decimal_format text = true /\
        0 <= n /\
        (0 <= e -> n = 100 * (Z.pos m * 2 ^ e)) /\
        (e < 0 ->
         - 2 ^ (- e) < 2 * (n * 2 ^ (- e) - 100 * Z.pos m) <= 2 ^ (- e))).
Proof.
  split; [repeat split; vm_compute; reflexivity |].
  intros crew rate text Hin.
  assert (Ht : text = toFixed (num_mul crew rate) 2).
  { unfold estimates in Hin. cbn [In] in Hin.
    destruct Hin as [H | [H | [H | []]]];
      pose proof (f_equal fst H) as Hr; pose proof (f_equal snd H) as Hx;
      cbn [fst snd] in Hr, Hx; rewrite <- Hr, <- Hx; reflexivity. }
  split.
  - intros s Hz. rewrite Ht, Hz. reflexivity.
  - intros sg m e Hp Hs. cbv zeta. rewrite Ht, Hp.
    rewrite toFixed_two by assumption.
    destruct (nearest_scaled_spec m e) as (Hn & H1 & H2).
    split; [reflexivity |].
    split; [now apply two_decimals_format |].
    split; [assumption | split; assumption].
Qed.

Lemma C8_witness :
  In (lit 84 (-2), dailyOxygen (lit 4 0)) (estimates (lit 4 0)) /\
  num_mul (lit 4 0) (lit 84 (-2)) = S754_finite false 7566047373982433 (-51) /\
  at_least_1e21 7566047373982433 (-51) = false /\
  dailyOxygen (lit 4 0)
  = [] ++ two_decimals (nearest_scaled 7566047373982433 (-51) 2) /\
  two_decimal_format (dailyOxygen (lit 4 0)) = true.
Proof.
  split; [left; reflexivity |]. split; [reflexivity |]. split; [reflexivity |].
  pose proof (proj2 C8_estimates_have_two_decimals (lit 4 0) (lit 84 (-2))
                (dailyOxygen (lit 4 0)) (or_introl eq_refl)) as [_ H].
  specialize (H false 7566047373982433%positive (-51) eq_refl eq_refl).
  cbv zeta in H. destruct H as (H1 & H2 & _). split; assumption.
Defined.

(** ** Storage *)

Lemma getItem_setItem_other (k k0 v : jsstring)
  (store : list (jsstring * jsstring)) :
  jsstring_eqb k0 k = false ->
  getItem k0 (setItem k v store) = getItem k0 store.
Proof.
  intros Hne. induction store as [| [k' v'] r IH]; cbn.
  - now rewrite Hne.
  - destruct (jsstring_eqb k k') eqn:E; cbn.
    + apply jsstring_eqb_eq in E. subst k'. now rewrite Hne.
    + now rewrite IH.
Qed.

Lemma setItem_setItem (k v v' : jsstring)
  (store : list (jsstring * jsstring)) :
  setItem k v (setItem k v' store) = setItem k v store.
Proof.
  induction store as [| [k' w] r IH]; cbn.
  - now rewrite jsstring_eqb_refl.
  - destruct (jsstring_eqb k k') eqn:E; cbn; rewrite E; [reflexivity |].
    now rewrite IH.
Qed.

(** X1: save writes the slot [astrohab_layout] and nothing else: every other key
    of the storage keeps its value, the slot holds the text of the registry,
    and registry, selection, crew and mode are as before. *)
Theorem save_writes_one_slot (st : State) (k : jsstring) :
  jsstring_eqb k slot = false ->
  exists st',
    saveLayout st = Normal st' /\
    getItem k (localStorage st') = getItem k (localStorage st) /\
    getItem slot (localStorage st') = Some (stored_text (modules st)) /\
    modules st' = modules st /\ selected st' = selected st /\
    crew st' = crew st /\ controlsMode st' = controlsMode st /\
    alerts st' = alerts st ++ [msg_saved].
Proof.
  intros Hk. eexists. split; [reflexivity |].
  cbn [localStorage alert setStorage].
  split; [now apply getItem_setItem_other |].
  split; [apply getItem_setItem |]. repeat split.
Qed.

Lemma save_writes_one_slot_witness :
  jsstring_eqb (str "theme") slot = false /\
  exists st',
    saveLayout (initial other_store) = Normal st' /\
    getItem (str "theme") (localStorage st')
    = getItem (str "theme") (localStorage (initial other_store)) /\
    getItem slot (localStorage st')
    = Some (stored_text (modules (initial other_store))) /\
    modules st' = modules (initial other_store) /\
    selected st' = selected (initial other_store) /\
    crew st' = crew (initial other_store) /\
    controlsMode st' = controlsMode (initial other_store) /\
    alerts st' = alerts (initial other_store) ++ [msg_saved].
Proof.
  split; [reflexivity |].
  apply (save_writes_one_slot (initial other_store) (str "theme")).
  reflexivity.
Defined.

(** X2: a save overwrites the save before it: after two saves the storage is
    what the second save alone would have left, whatever the registry was
    at the first. *)
Theorem save_overwrites (st st1 st2 : State) (v : Value) :
  saveLayout st = Normal st1 ->
  saveLayout (setModules v st1) = Normal st2 ->
  exists st3,
    saveLayout (setModules v st) = Normal st3 /\
    localStorage st2 = localStorage st3.
Proof.
  intros H1 H2. eexists. split; [reflexivity |].
  unfold saveLayout in H1, H2. injection H1 as <-. injection H2 as <-.
  cbn [localStorage alert setStorage setModules modules].
  apply setItem_setItem.
Qed.

Lemma save_overwrites_witness :
  exists st1 st2,
    saveLayout (initial other_store) = Normal st1 /\
    saveLayout (setModules (VArr [VNull]) st1) = Normal st2 /\
    exists st3,
      saveLayout (setModules (VArr [VNull]) (initial other_store))
      = Normal st3 /\
      localStorage st2 = localStorage st3.
Proof.
  eexists. eexists. split; [reflexivity |]. split; [reflexivity |].
  eapply (save_overwrites (initial other_store)); reflexivity.
Defined.

(** ** Load *)

Lemma JSON_parse_throws (text : jsstring) (e : exn) :
  JSON_parse text = Throw e -> e = SyntaxError.
Proof.
  unfold JSON_parse.
  destruct (parse_value _ text) as [[v rest] |]; [| congruence].
  destruct (skip_ws rest); congruence.
Qed.

(** X3: load does not catch what import catches: when the slot holds a
    non-empty text that is no JSON, load throws a SyntaxError (no message,
    nothing set), where import of the same text returns, with the
    invalid-file message shown and the rest of the state as it was. *)
Theorem load_throws_where_import_reports
  (st : State) (text : jsstring) (e : exn) :
  getItem slot (localStorage st) = Some text ->
  text <> [] ->
  JSON_parse text = Throw e ->
  loadLayout st = Throw SyntaxError /\
  exists st',
    importLayout (Some text) st = Normal st' /\
    alerts st' = alerts st ++ [msg_invalid] /\
    modules st' = modules st /\
    selected st' = selected st /\
    crew st' = crew st /\ controlsMode st' = controlsMode st /\
    localStorage st' = localStorage st.
Proof.
  intros Hs Hne Hp. pose proof (JSON_parse_throws text e Hp) as ->.
  unfold loadLayout, importLayout. rewrite Hs.
  destruct text as [| c t]; [now contradiction Hne |].
  rewrite Hp. split; [reflexivity |].
  eexists. split; [reflexivity |]. repeat split.
Qed.

Lemma load_throws_where_import_reports_witness :
  loadLayout (initial broken_store) = Throw SyntaxError /\
  exists st',
    importLayout (Some (str "[1,")) (initial broken_store) = Normal st' /\
    alerts st' = alerts (initial broken_store) ++ [msg_invalid] /\
    modules st' = modules (initial broken_store) /\
    selected st' = selected (initial broken_store) /\
    crew st' = crew (initial broken_store) /\
    controlsMode st' = controlsMode (initial broken_store) /\
    localStorage st' = localStorage (initial broken_store).
Proof.
  apply (load_throws_where_import_reports (initial broken_store) (str "[1,")
           SyntaxError).
  - reflexivity.
  - discriminate.
  - vm_compute. reflexivity.
Defined.

(** ** Filtering and finding by id *)

Lemma filterM_keep (v : Value) (l : list Value) :
  Forall (other_id v) l ->
  filterM (fun m => id <- Get m (str "id") ;;
                    Normal (negb (strict_eq id v))) l
  = Normal l.
Proof.
  induction 1 as [| x l (id & Hg & He) _ IH]; [reflexivity |].
  cbn [filterM]. rewrite Hg. cbn [bind]. rewrite He, IH. reflexivity.
Qed.

Lemma mapM_keep (v : Value) (f : Value -> Value) (l : list Value) :
  Forall (other_id v) l ->
  mapM (fun m => id <- Get m (str "id") ;;
                 Normal (if strict_eq id v then f m else m)) l
  = Normal l.
Proof.
  induction 1 as [| x l (id & Hg & He) _ IH]; [reflexivity |].
  cbn [mapM]. rewrite Hg. cbn [bind]. rewrite He, IH. reflexivity.
Qed.

Lemma findM_first (v : Value) (l1 l2 : list Value) (m : Value) :
  Forall (other_id v) l1 -> has_id v m ->
  findM (fun m => id <- Get m (str "id") ;; Normal (strict_eq id v))
        (l1 ++ m :: l2)
  = Normal m.
Proof.
  intros H1 (id & Hg & He).
  induction H1 as [| x l (id' & Hg' & He') _ IH]; cbn [app findM].
  - rewrite Hg. cbn [bind]. now rewrite He.
  - rewrite Hg'. cbn [bind]. now rewrite He'.
Qed.

Lemma findM_none (v : Value) (l : list Value) :
  Forall (other_id v) l ->
  findM (fun m => id <- Get m (str "id") ;; Normal (strict_eq id v)) l
  = Normal VUndefined.
Proof.
  induction 1 as [| x l (id & Hg & He) _ IH]; [reflexivity |].
  cbn [findM]. rewrite Hg. cbn [bind]. now rewrite He.
Qed.

(** A number that is no NaN equals itself. *)
Lemma num_eqb_refl (x : number) : x <> S754_nan -> num_eqb x x = true.
Proof.
  intros Hx. destruct x as [s | s | | s m e]; try now destruct s.
  - now contradiction Hx.
  - unfold num_eqb, SFeqb. cbn [SFcompare].
    rewrite Z.compare_refl.
    destruct s; cbn; now rewrite Pos.compare_cont_refl.
Qed.

Lemma truthy_num_eqb (x : number) :
  truthy (VNum x) = true -> num_eqb x x = true.
Proof.
  intros H. apply num_eqb_refl. intros ->. discriminate H.
Qed.

(** ** Delete with a selection that is in no record *)

(** X4: when the selection is set but no record carries it (as after a load or
    an import), delete removes nothing, shows no warning and clears the
    selection.  The selection is a number, a string or [true] here: an
    object is the id of the record it was taken from. *)
Theorem delete_dangling_selection (st : State) (l : list Value) :
  modules st = VArr l ->
  truthy (selected st) = true ->
  is_primitive (selected st) = true ->
  Forall (other_id (selected st)) l ->
  exists st',
    deleteModule st = Normal st' /\
    modules st' = VArr l /\
    selected st' = VNull /\
    alerts st' = alerts st /\
    localStorage st' = localStorage st.
Proof.
  intros Hm Ht _ Hl. unfold deleteModule. rewrite Ht, Hm.
  cbn [negb call_filter].
  rewrite (filterM_keep _ _ Hl). cbn [bind].
  eexists. split; [reflexivity |]. repeat split.
Qed.

Lemma delete_dangling_selection_witness :
  exists st',
    deleteModule dangling = Normal st' /\
    modules st' = VArr [VObj [(str "id", VNum (lit 5 0))]] /\
    selected st' = VNull /\
    alerts st' = alerts dangling /\
    localStorage st' = localStorage dangling.
Proof.
  apply (delete_dangling_selection dangling
           [VObj [(str "id", VNum (lit 5 0))]]).
  - reflexivity.
  - reflexivity.
  - reflexivity.
  - constructor; [| constructor].
    exists (VNum (lit 5 0)). split; vm_compute; reflexivity.
Defined.

(** ** Add, then delete *)

(** X5: an add followed at once by a delete gives the registry back, when the
    clock reading is a number other than 0 and NaN that no record of the
    registry has as id. *)
Theorem add_then_delete
  (st : State) (l : list Value) (now r1 r2 r3 : number) :
  modules st = VArr l ->
  is_random r1 = true ->
  truthy (VNum now) = true ->
  Forall (other_id (VNum now)) l ->
  exists st1 st2,
    addModule now r1 r2 r3 st = Normal st1 /\
    deleteModule st1 = Normal st2 /\
    modules st2 = modules st /\
    selected st2 = VNull /\
    alerts st2 = alerts st.
Proof.
  intros Hm Hr Ht Hl.
  destruct (addModule_spec st l now r1 r2 r3 Hm Hr)
    as (type & label & color & _ & Hadd).
  eexists. eexists. split; [exact Hadd |].
  unfold deleteModule. cbn [selected setSelected setModules modules].
  rewrite Ht. cbn [negb call_filter].
  rewrite (filterM_split (VNum now) l []).
  - cbn [bind]. rewrite app_nil_r. split; [reflexivity |].
    cbn. now rewrite Hm.
  - assumption.
  - exists (VNum now). split; [reflexivity |]. now apply truthy_num_eqb.
  - constructor.
Qed.

Lemma add_then_delete_witness :
  exists st1 st2,
    addModule (lit 1730000000001 0) sample_r sample_r sample_r added_once
    = Normal st1 /\
    deleteModule st1 = Normal st2 /\
    modules st2 = modules added_once /\
    selected st2 = VNull /\
    alerts st2 = alerts added_once.
Proof.
  apply (add_then_delete added_once [added_record]).
  - vm_compute. reflexivity.
  - reflexivity.
  - reflexivity.
  - constructor; [| constructor].
    exists (VNum sample_now). split; vm_compute; reflexivity.
Defined.

(** ** The selected module *)

(** X6: [selectedModule] is the first record whose id equals the selection,
    whatever follows it in the registry, and [undefined] when the selection
    is no object and no record has it as id. *)
Theorem selectedModule_is_first_match (st : State) :
  (forall l1 l2 m,
      modules st = VArr (l1 ++ m :: l2) ->
      Forall (other_id (selected st)) l1 -> has_id (selected st) m ->
      selectedModule st = Normal m) /\
  (forall l,
      modules st = VArr l ->
      is_primitive (selected st) = true ->
      Forall (other_id (selected st)) l ->
      selectedModule st = Normal VUndefined).
Proof.
  split.
  - intros l1 l2 m Hm H1 Hid. unfold selectedModule. rewrite Hm.
    now apply findM_first.
  - intros l Hm _ Hl. unfold selectedModule. rewrite Hm.
    now apply findM_none.
Qed.

Lemma selectedModule_is_first_match_witness :
  selectedModule added_twice
  = Normal (match modules added_twice with
            | VArr (m :: _) => m
            | _ => VNull
            end) /\
  selectedModule dangling = Normal VUndefined.
Proof.
  split.
  - apply (proj1 (selectedModule_is_first_match added_twice) []
             [match modules added_twice with
              | VArr (_ :: m :: _) => m
              | _ => VNull
              end]).
    + vm_compute. reflexivity.
    + constructor.
    + exists (VNum sample_now). split; vm_compute; reflexivity.
  - apply (proj2 (selectedModule_is_first_match dangling)
             [VObj [(str "id", VNum (lit 5 0))]]).
    + reflexivity.
    + reflexivity.
    + constructor; [| constructor].
      exists (VNum (lit 5 0)). split; vm_compute; reflexivity.
Defined.

(** X7: after an add whose clock reading is a number other than NaN that no
    earlier record has as id, the selected module is the record just
    added. *)
Theorem add_selects_new_record
  (st : State) (l : list Value) (now r1 r2 r3 : number) :
  modules st = VArr l ->
  is_random r1 = true ->
  num_eqb now now = true ->
  Forall (other_id (VNum now)) l ->
  exists st1 m,
    addModule now r1 r2 r3 st = Normal st1 /\
    modules st1 = VArr (l ++ [m]) /\
    selectedModule st1 = Normal m.
Proof.
  intros Hm Hr Hn Hl.
  destruct (addModule_spec st l now r1 r2 r3 Hm Hr)
    as (type & label & color & _ & Hadd).
  eexists. eexists. split; [exact Hadd |]. split; [reflexivity |].
  unfold selectedModule. cbn [selected setSelected setModules modules].
  apply findM_first; [assumption |].
  exists (VNum now). split; [reflexivity | assumption].
Qed.

Lemma add_selects_new_record_witness :
  exists st1 m,
    addModule (lit 1730000000001 0) sample_r sample_r sample_r added_once
    = Normal st1 /\
    modules st1 = VArr ([added_record] ++ [m]) /\
    selectedModule st1 = Normal m.
Proof.
  apply (add_selects_new_record added_once [added_record]).
  - vm_compute. reflexivity.
  - reflexivity.
  - reflexivity.
  - constructor; [| constructor].
    exists (VNum sample_now). split; vm_compute; reflexivity.
Defined.

(** ** Properties set twice *)

Lemma replace_replace (k : jsstring) (v1 v2 : Value) props :
  replace k v2 (replace k v1 props) = replace k v2 props.
Proof.
  induction props as [| [k' v'] r IH]; [reflexivity |].
  cbn. destruct (jsstring_eqb k k') eqn:E; cbn; rewrite E; [reflexivity |].
  now rewrite IH.
Qed.

Lemma replace_insert_new (k : jsstring) (v1 v2 : Value) props :
  lookup k props = None ->
  replace k v2 (insert_new k v1 props) = insert_new k v2 props.
Proof.
  induction props as [| [k' v'] r IH]; cbn.
  - intros _. now rewrite jsstring_eqb_refl.
  - destruct (jsstring_eqb k k') eqn:E; [discriminate |]. intros H.
    destruct (key_index k), (key_index k'); try destruct (_ <? _);
      cbn; rewrite ?jsstring_eqb_refl, ?E, ?IH; auto.
Qed.

Lemma obj_set_obj_set (k : jsstring) (v1 v2 : Value) props :
  obj_set k v2 (obj_set k v1 props) = obj_set k v2 props.
Proof.
  unfold obj_set at 1. rewrite lookup_obj_set_same.
  unfold obj_set. destruct (lookup k props) eqn:E.
  - apply replace_replace.
  - now apply replace_insert_new.
Qed.

Lemma mapM_ext (f g : Value -> completion Value) (l : list Value) :
  (forall x, f x = g x) -> mapM f l = mapM g l.
Proof.
  intros H. induction l as [| x l IH]; [reflexivity |].
  cbn [mapM]. now rewrite H, IH.
Qed.

(** Equal numbers are the same number, or two zeros. *)
Lemma num_eqb_true (a b : number) :
  num_eqb a b = true ->
  a = b \/ exists s s', a = S754_zero s /\ b = S754_zero s'.
Proof.
  unfold num_eqb, SFeqb.
  destruct a as [s | s | | s m e], b as [s' | s' | | s' m' e'];
    cbn [SFcompare]; intros H; try discriminate H;
    try (destruct s; discriminate H); try (destruct s'; discriminate H).
  - right. now exists s, s'.
  - destruct s, s'; try discriminate H; now left.
  - destruct s, s'; try discriminate H;
      destruct (Z.compare_spec e e') as [-> | |]; try discriminate H;
      destruct (Pos.compare_cont Eq m m') eqn:C; try discriminate H;
      left; apply Pos.compare_eq in C; now subst.
Qed.

Lemma strict_eq_trans (a b c : Value) :
  strict_eq a b = true -> strict_eq c a = strict_eq c b.
Proof.
  destruct a, b; try discriminate; cbn [strict_eq]; intros H;
    try reflexivity.
  - apply Bool.eqb_prop in H. now subst.
  - apply num_eqb_true in H as [-> | (s & s' & -> & ->)]; [reflexivity |].
    destruct c as [| | | y | | |]; reflexivity.
  - apply jsstring_eqb_eq in H. now subst.
Qed.

(** ** Updates of the selected module *)

(** X8: setting one field of the selected module twice is setting it once to
    the second value: the first value leaves no trace, whatever the
    registry holds. *)
Theorem update_last_write_wins
  (st st1 : State) (field : jsstring) (v1 v2 : Value) :
  jsstring_eqb field (str "id") = false ->
  updateSelected field v1 st = Normal st1 ->
  updateSelected field v2 st1 = updateSelected field v2 st.
Proof.
  intros Hf H1. unfold updateSelected in *.
  destruct (truthy (selected st)) eqn:Ht; cbn [negb] in *.
  - apply bind_Normal in H1 as (ms & Hms & H1). injection H1 as <-.
    cbn [selected setModules modules]. rewrite Ht. cbn [negb].
    destruct (modules st) as [| | | | | l |]; try discriminate.
    cbn [call_map] in Hms. apply bind_Normal in Hms as (l' & Hl' & Hms).
    injection Hms as <-. cbn [call_map].
    assert (E : mapM (fun m => id <- Get m (str "id") ;;
                               Normal (if strict_eq id (selected st)
                                       then spread_with m field v2 else m)) l'
                = mapM (fun m => id <- Get m (str "id") ;;
                                 Normal (if strict_eq id (selected st)
                                         then spread_with m field v2 else m)) l).
    { clear - Hl' Hf Ht. revert l' Hl'.
      induction l as [| x l IH]; intros l' H.
      - injection H as <-. reflexivity.
      - cbn [mapM] in H.
        apply bind_Normal in H as (y & Hy & H).
        apply bind_Normal in H as (r & Hr & H). injection H as <-.
        apply bind_Normal in Hy as (id & Hg & Hy).
        cbn [mapM]. rewrite (IH r Hr), Hg. cbn [bind].
        destruct (strict_eq id (selected st)) eqn:He.
        + injection Hy as <-.
          assert (Hid : has_id (selected st) x) by (now exists id).
          destruct (has_id_object _ _ Ht Hid)
            as (props & id' & -> & Hl & He').
          unfold spread_with at 1. cbn [Get own_props].
          rewrite lookup_obj_set_other, Hl
            by (now rewrite jsstring_eqb_sym).
          cbn [bind]. rewrite He'.
          unfold spread_with. cbn [own_props].
          now rewrite obj_set_obj_set.
        + injection Hy as <-. rewrite Hg. cbn [bind]. now rewrite He. }
    now rewrite E.
  - injection H1 as <-. rewrite Ht. reflexivity.
Qed.

Lemma update_last_write_wins_witness :
  updateSelected (str "label") (VStr (str "B"))
    (setModules
       (VArr [spread_with added_record (str "label") (VStr (str "A"))])
       added_once)
  = updateSelected (str "label") (VStr (str "B")) added_once.
Proof.
  apply (update_last_write_wins added_once _ (str "label")
           (VStr (str "A")) (VStr (str "B"))).
  - reflexivity.
  - vm_compute. reflexivity.
Defined.

Lemma mapM_prefix (v : Value) (f : Value -> Value) (l1 l2 : list Value) :
  Forall (other_id v) l1 ->
  mapM (fun m => id <- Get m (str "id") ;;
                 Normal (if strict_eq id v then f m else m)) (l1 ++ l2)
  = (r <- mapM (fun m => id <- Get m (str "id") ;;
                         Normal (if strict_eq id v then f m else m)) l2 ;;
     Normal (l1 ++ r)).
Proof.
  induction 1 as [| x l (id & Hg & He) _ IH]; cbn [app].
  - now destruct (mapM _ l2).
  - cbn [mapM]. rewrite Hg. cbn [bind]. rewrite He, IH.
    now destruct (mapM _ l2).
Qed.

(** X9: what the edit panel shows follows the edit: after an update of a field
    other than [id] that returns, the selected module is the updated copy
    of the first record carrying the selected id, and its field holds the
    new value. *)
Theorem update_shows_in_panel
  (st st' : State) (l1 l2 : list Value) (m : Value)
  (field : jsstring) (value : Value) :
  modules st = VArr (l1 ++ m :: l2) ->
  truthy (selected st) = true ->
  Forall (other_id (selected st)) l1 ->
  has_id (selected st) m ->
  jsstring_eqb field (str "id") = false ->
  updateSelected field value st = Normal st' ->
  selectedModule st' = Normal (spread_with m field value) /\
  Get (spread_with m field value) field = Normal value.
Proof.
  intros Hm Ht H1 Hid Hf Hu. split.
  - unfold updateSelected in Hu. rewrite Ht, Hm in Hu.
    cbn [negb call_map] in Hu.
    rewrite (mapM_prefix _ (fun m => spread_with m field value) l1 _ H1) in Hu.
    apply bind_Normal in Hu as (ms & Hms & Hu). injection Hu as <-.
    apply bind_Normal in Hms as (l' & Hl' & Hms). injection Hms as <-.
    apply bind_Normal in Hl' as (r & Hr & Hl'). injection Hl' as <-.
    cbn [mapM] in Hr.
    apply bind_Normal in Hr as (y & Hy & Hr).
    apply bind_Normal in Hr as (r' & _ & Hr). injection Hr as <-.
    pose proof Hid as (id & Hg & He). rewrite Hg in Hy. cbn [bind] in Hy.
    rewrite He in Hy. injection Hy as <-.
    unfold selectedModule. cbn [selected setModules modules].
    apply findM_first; [assumption |].
    now apply has_id_spread.
  - unfold spread_with, Get. now rewrite lookup_obj_set_same.
Qed.

Lemma update_shows_in_panel_witness :
  selectedModule
    (setModules
       (VArr [spread_with added_record (str "label") (VStr (str "A"))])
       added_once)
  = Normal (spread_with added_record (str "label") (VStr (str "A"))) /\
  Get (spread_with added_record (str "label") (VStr (str "A"))) (str "label")
  = Normal (VStr (str "A")).
Proof.
  apply (update_shows_in_panel added_once _ [] [] added_record
           (str "label") (VStr (str "A"))).
  - vm_compute. reflexivity.
  - reflexivity.
  - constructor.
  - exists (VNum sample_now). split; vm_compute; reflexivity.
  - reflexivity.
  - vm_compute. reflexivity.
Defined.

(** ** Moving a module *)

(** X10: the end of a drag moves the record that carries the id of the dragged
    one: its position becomes [[x, y, z]], its other fields stay, the other
    records, their number and order, the selection and the rest of the
    state are untouched.  There is no check of the id for truthiness here:
    a record with id 0 moves. *)
Theorem drag_moves_the_record
  (st : State) (l1 l2 : list Value) (m m0 mid : Value) (px py pz : number) :
  modules st = VArr (l1 ++ m0 :: l2) ->
  Get m (str "id") = Normal mid ->
  has_id mid m0 ->
  Forall (other_id mid) l1 ->
  Forall (other_id mid) l2 ->
  exists st' props',
    onMouseUp m px py pz st = Normal st' /\
    modules st' = VArr (l1 ++ VObj props' :: l2) /\
    lookup (str "position") props'
    = Some (VArr [VNum px; VNum py; VNum pz]) /\
    (forall k, jsstring_eqb k (str "position") = false ->
               lookup k props' = lookup k (own_props m0)) /\
    selected st' = selected st /\
    alerts st' = alerts st /\ crew st' = crew st /\
    controlsMode st' = controlsMode st /\ localStorage st' = localStorage st.
Proof.
  intros Hm Hg Hid H1 H2.
  exists (setModules
            (VArr (l1 ++ VObj (obj_set (str "position")
                                 (VArr [VNum px; VNum py; VNum pz])
                                 (own_props m0)) :: l2)) st).
  exists (obj_set (str "position") (VArr [VNum px; VNum py; VNum pz])
            (own_props m0)).
  split; [| split; [reflexivity | split; [| split]]].
  - unfold onMouseUp. rewrite Hm. cbn [call_map].
    rewrite (mapM_ext _
               (fun x => id <- Get x (str "id") ;;
                         Normal (if strict_eq id mid
                                 then spread_with x (str "position")
                                        (VArr [VNum px; VNum py; VNum pz])
                                 else x))).
    + rewrite (mapM_split mid
                 (fun x => spread_with x (str "position")
                             (VArr [VNum px; VNum py; VNum pz]))
                 l1 l2 m0 H1 Hid H2).
      reflexivity.
    + intros x. destruct (Get x (str "id")); [| reflexivity].
      cbn [bind]. now rewrite Hg.
  - apply lookup_obj_set_same.
  - intros k Hk. now apply lookup_obj_set_other.
  - repeat split.
Qed.

Lemma drag_moves_the_record_witness :
  exists st' props',
    onMouseUp zero_record (lit 1 0) (lit 0 0) (lit 2 0) zero_selected
    = Normal st' /\
    modules st' = VArr ([] ++ VObj props' :: []) /\
    lookup (str "position") props'
    = Some (VArr [VNum (lit 1 0); VNum (lit 0 0); VNum (lit 2 0)]) /\
    (forall k, jsstring_eqb k (str "position") = false ->
               lookup k props' = lookup k (own_props zero_record)) /\
    selected st' = selected zero_selected /\
    alerts st' = alerts zero_selected /\ crew st' = crew zero_selected /\
    controlsMode st' = controlsMode zero_selected /\
    localStorage st' = localStorage zero_selected.
Proof.
  apply (drag_moves_the_record zero_selected [] [] zero_record zero_record
           (VNum (lit 0 0))).
  - reflexivity.
  - reflexivity.
  - exists (VNum (lit 0 0)). split; reflexivity.
  - constructor.
  - constructor.
Defined.

(** X11: for the module the gizmo is drawn around (the one [isSelected] holds
    for) and a truthy selection, the end of a drag is the update of the
    field [position] of the selected module, failures included. *)
Theorem drag_is_position_update
  (st : State) (m : Value) (px py pz : number) :
  truthy (selected st) = true ->
  isSelected m st = Normal true ->
  onMouseUp m px py pz st
  = updateSelected (str "position") (VArr [VNum px; VNum py; VNum pz]) st.
Proof.
  intros Ht Hs. unfold isSelected in Hs.
  apply bind_Normal in Hs as (mid & Hg & Hs). injection Hs as Hs.
  unfold onMouseUp, updateSelected. rewrite Ht. cbn [negb].
  destruct (modules st) as [| | | | | l |]; try reflexivity.
  cbn [call_map].
  rewrite (mapM_ext _
             (fun x => id <- Get x (str "id") ;;
                       Normal (if strict_eq id (selected st)
                               then spread_with x (str "position")
                                      (VArr [VNum px; VNum py; VNum pz])
                               else x))); [reflexivity |].
  intros x. destruct (Get x (str "id")) as [id | e]; [| reflexivity].
  cbn [bind]. rewrite Hg. cbn [bind].
  now rewrite (strict_eq_trans _ _ id Hs).
Qed.

Lemma drag_is_position_update_witness :
  onMouseUp added_record (lit 1 0) (lit 0 0) (lit 2 0) added_once
  = updateSelected (str "position")
      (VArr [VNum (lit 1 0); VNum (lit 0 0); VNum (lit 2 0)]) added_once.
Proof.
  apply (drag_is_position_update added_once added_record).
  - reflexivity.
  - vm_compute. reflexivity.
Defined.

(** ** Rounding never loses a number at or above the smallest exponent *)

Lemma finish_nonzero (sx : bool) (m e : Z) (s : bool) :
  0 < m -> finish sx m e <> S754_zero s.
Proof.
  intros Hm. unfold finish. destruct m as [| p | p]; try lia.
  destruct (e <=? emax - prec); discriminate.
Qed.

Lemma binary_round_aux_nonzero (sx : bool) (M ex : Z) (s : bool) :
  0 < M -> -1074 <= ex ->
  binary_round_aux prec emax sx M ex loc_Exact <> S754_zero s.
Proof.
  intros HM Hex. rewrite binary_round_aux_exact by assumption. cbv zeta.
  set (g := fexp64 (Zdigits2 M + ex)).
  assert (Hg : g = Z.max (Zdigits2 M + ex - 53) (-1074))
    by (unfold g; now rewrite fexp64_eq).
  destruct (Z.leb_spec g ex) as [Hle | Hgt].
  - now apply finish_nonzero.
  - pose proof (Zdigits2_bounds M HM) as [HM1 _].
    assert (Hn : g - ex = Zdigits2 M - 53) by lia.
    assert (Hn0 : 0 < Zdigits2 M - 53) by lia.
    assert (Hq : 2 ^ 52 <= M / 2 ^ (g - ex)).
    { rewrite Hn. apply Z.div_le_lower_bound; [apply pow2_pos; lia |].
      rewrite <- pow2_split by lia.
      replace (Zdigits2 M - 53 + 52) with (Zdigits2 M - 1) by lia.
      exact HM1. }
    pose proof (rne_bounds M (g - ex) ltac:(lia) ltac:(lia)) as [B _].
    assert (0 < 2 ^ 52) by (apply pow2_pos; lia).
    destruct (rne M (g - ex) =? 2 ^ prec).
    + apply finish_nonzero. apply pow2_pos. unfold prec. lia.
    + apply finish_nonzero. lia.
Qed.

Lemma binary_round_nonzero (sx : bool) (mx : positive) (ex : Z) (s : bool) :
  -1074 <= ex -> binary_round prec emax sx mx ex <> S754_zero s.
Proof.
  intros Hex. unfold binary_round.
  fold (fexp64 (Z.pos (digits2_pos mx) + ex)).
  set (g := fexp64 (Z.pos (digits2_pos mx) + ex)).
  assert (Hg0 : -1074 <= g) by (unfold g; rewrite fexp64_eq; lia).
  pose proof (shl_align_spec mx ex g) as Hs.
  destruct (shl_align mx ex g) as [mz ez]. destruct Hs as [Hez _].
  apply binary_round_aux_nonzero; lia.
Qed.

(** A coordinate [Math.random() * 6 - 3] is a finite number of the format
    and not [-0]. *)
Lemma position_json_number (r : number) :
  is_random r = true ->
  json_number (num_sub (num_mul r (lit 6 0)) (lit 3 0)) = true.
Proof.
  intros Hr. pose proof (position_bounds r Hr) as (Hv & Hlo & Hhi).
  cbv zeta in *.
  assert (Hz : num_sub (num_mul r (lit 6 0)) (lit 3 0) <> S754_zero true).
  { rewrite lit_6, lit_3.
    destruct (mul_six r Hr) as [[s ->] | (mR & eR & -> & Hb & _)].
    - discriminate.
    - pose proof (bounded_facts mR eR Hb) as (E & _ & _).
      unfold num_sub, SFsub. cbn [cond_Zopp].
      rewrite binary_normalize_cases.
      destruct (_ - _) as [| d | d]; [discriminate | |];
        apply binary_round_nonzero; lia. }
  destruct (num_sub (num_mul r (lit 6 0)) (lit 3 0)) as [s | s | | s m e].
  - destruct s; [now contradiction Hz | reflexivity].
  - destruct s; [discriminate Hlo | discriminate Hhi].
  - discriminate Hlo.
  - exact Hv.
Qed.

(** ** Values the storage carries, kept by the editor *)

Lemma keys_canonical_snoc_other (ks : list jsstring) (k : jsstring) :
  keys_canonical ks = true ->
  existsb (jsstring_eqb k) ks = false ->
  key_index k = None ->
  keys_canonical (ks ++ [k]) = true.
Proof.
  intros Hc Hn Hk. induction ks as [| a ks IH]; [cbn; now rewrite Hk |].
  cbn [keys_canonical app] in *.
  apply andb_true_iff in Hc as [Hc Hc3].
  apply andb_true_iff in Hc as [Hc1 Hc2].
  cbn [existsb] in Hn. apply orb_false_iff in Hn as [Hn1 Hn2].
  rewrite (IH Hc3 Hn2), andb_true_r.
  apply andb_true_iff. split.
  - rewrite existsb_app. cbn [existsb].
    apply negb_true_iff in Hc1. rewrite Hc1, orb_false_r. cbn [orb].
    rewrite jsstring_eqb_sym. now rewrite Hn1.
  - destruct (key_index a); rewrite forallb_app, Hc2; cbn; now rewrite Hk.
Qed.

Lemma insert_new_other (k : jsstring) (v : Value)
  (props : list (jsstring * Value)) :
  key_index k = None -> insert_new k v props = props ++ [(k, v)].
Proof.
  intros Hk. induction props as [| [k' v'] r IH]; [reflexivity |].
  cbn [insert_new app]. now rewrite Hk, IH.
Qed.

Lemma lookup_existsb (k : jsstring) (props : list (jsstring * Value)) :
  lookup k props = None -> existsb (jsstring_eqb k) (map fst props) = false.
Proof.
  induction props as [| [k' v'] r IH]; [reflexivity |].
  cbn. destruct (jsstring_eqb k k'); [discriminate | exact IH].
Qed.

Lemma forallb_snd_replace (k : jsstring) (v : Value) props :
  json_safe v = true ->
  forallb json_safe (map snd props) = true ->
  forallb json_safe (map snd (replace k v props)) = true.
Proof.
  intros Hv. induction props as [| [k' v'] r IH]; [reflexivity |].
  cbn. intros H. apply andb_true_iff in H as [H1 H2].
  destruct (jsstring_eqb k k'); cbn.
  - now rewrite Hv, H2.
  - now rewrite H1, IH.
Qed.

Lemma json_safe_obj_set (k : jsstring) (v : Value) props :
  key_index k = None -> json_safe v = true ->
  json_safe (VObj props) = true ->
  json_safe (VObj (obj_set k v props)) = true.
Proof.
  intros Hk Hv H. rewrite json_safe_obj in *.
  apply andb_true_iff in H as [H1 H2]. unfold obj_set.
  destruct (lookup k props) eqn:E.
  - rewrite map_fst_replace, H1. now apply forallb_snd_replace.
  - rewrite insert_new_other by assumption.
    rewrite !map_app, forallb_app, H2. cbn [map fst snd forallb].
    rewrite Hv. cbn [andb]. rewrite andb_true_r.
    apply keys_canonical_snoc_other; [assumption | | assumption].
    now apply lookup_existsb.
Qed.

Lemma filterM_forallb (P : Value -> bool) (f : Value -> completion bool)
  (l l' : list Value) :
  forallb P l = true -> filterM f l = Normal l' -> forallb P l' = true.
Proof.
  revert l'. induction l as [| x l IH]; intros l' H Hf.
  - injection Hf as <-. reflexivity.
  - cbn [forallb] in H. apply andb_true_iff in H as [Hx Hl].
    cbn [filterM] in Hf.
    apply bind_Normal in Hf as (b & _ & Hf).
    apply bind_Normal in Hf as (r & Hr & Hf). injection Hf as <-.
    destruct b; [cbn; rewrite Hx |]; now apply IH.
Qed.

Lemma json_safe_module_of (now : number) (type label color : jsstring)
  (x z : number) :
  json_number now = true -> json_number x = true -> json_number z = true ->
  json_safe (module_of now type label color x z) = true.
Proof.
  intros Hn Hx Hz. unfold module_of. rewrite json_safe_obj.
  cbn [map fst snd forallb]. rewrite !json_safe_arr.
  cbn [forallb json_safe]. rewrite Hn, Hx, Hz.
  vm_compute. reflexivity.
Qed.

Lemma mapM_json_safe (sel : Value) (field : jsstring) (value : Value)
  (l l' : list Value) :
  truthy sel = true -> key_index field = None -> json_safe value = true ->
  forallb json_safe l = true ->
  mapM (fun m => id <- Get m (str "id") ;;
                 Normal (if strict_eq id sel
                         then spread_with m field value else m)) l
  = Normal l' ->
  forallb json_safe l' = true.
Proof.
  intros Ht Hk Hv. revert l'. induction l as [| x l IH]; intros l' H Hm.
  - injection Hm as <-. reflexivity.
  - cbn [forallb] in H. apply andb_true_iff in H as [Hx Hl].
    cbn [mapM] in Hm.
    apply bind_Normal in Hm as (y & Hy & Hm).
    apply bind_Normal in Hm as (r & Hr & Hm). injection Hm as <-.
    cbn [forallb]. rewrite (IH r Hl Hr), andb_true_r.
    apply bind_Normal in Hy as (id & Hg & Hy).
    destruct (strict_eq id sel) eqn:He; injection Hy as <-; [| exact Hx].
    assert (Hid : has_id sel x) by (now exists id).
    destruct (has_id_object _ _ Ht Hid) as (props & id' & -> & _ & _).
    unfold spread_with. cbn [own_props]. now apply json_safe_obj_set.
Qed.

(** [addModule] reads the registry through its iterator only. *)
Lemma addModule_iterate (st : State) (l : list Value)
  (now r1 r2 r3 : number) :
  iterate (modules st) = Normal l ->
  addModule now r1 r2 r3 st
  = addModule now r1 r2 r3 (setModules (VArr l) st).
Proof.
  intros Hi. unfold addModule.
  destruct (array_get types _) as [| | | | type | |]; try reflexivity.
  destruct (Get colors type) as [color | e]; [| reflexivity].
  cbn [bind modules setModules iterate]. rewrite Hi. reflexivity.
Qed.

Lemma code_points_json_safe (s : jsstring) :
  forallb json_safe (code_points s) = true.
Proof.
  assert (H : forall n s, (List.length s <= n)%nat ->
                          forallb json_safe (code_points s) = true).
  { intros n. induction n as [| n IH]; intros [| c [| d r]] Hl;
      try reflexivity; cbn [List.length] in Hl; try lia.
    cbn [code_points].
    destruct (is_high_surrogate c && is_low_surrogate d).
    - cbn [forallb json_safe andb]. apply IH. cbn [List.length]. lia.
    - change (forallb json_safe (VStr [c] :: code_points (d :: r)) = true).
      cbn [forallb json_safe andb]. apply IH. cbn [List.length]. lia. }
  now apply (H (List.length s)).
Qed.

Lemma iterate_json_safe (v : Value) (l : list Value) :
  json_safe v = true -> iterate v = Normal l -> forallb json_safe l = true.
Proof.
  intros Hs Hi. destruct v; try discriminate; injection Hi as <-.
  - apply code_points_json_safe.
  - now rewrite <- json_safe_arr.
Qed.

Lemma addModule_json_safe (st st' : State) (i : inputs) :
  json_safe (modules st) = true -> sane i ->
  addModule (reading i) (draw1 i) (draw2 i) (draw3 i) st = Normal st' ->
  json_safe (modules st') = true.
Proof.
  intros Hs (Hn & H1 & H2 & H3) Ha.
  destruct (iterate (modules st)) as [l | e] eqn:Hi.
  - rewrite (addModule_iterate st l _ _ _ _ Hi) in Ha.
    destruct (addModule_spec (setModules (VArr l) st) l (reading i)
                (draw1 i) (draw2 i) (draw3 i) eq_refl H1)
      as (type & label & color & _ & Heq).
    rewrite Heq in Ha. injection Ha as <-.
    cbn [modules setSelected setModules].
    rewrite json_safe_arr, forallb_app, (iterate_json_safe _ l Hs Hi).
    cbn [forallb andb]. rewrite andb_true_r.
    apply json_safe_module_of;
      [assumption | now apply position_json_number ..].
  - unfold addModule in Ha.
    destruct (array_get types _) as [| | | | type | |]; try discriminate.
    apply bind_Normal in Ha as (color & _ & Ha).
    rewrite Hi in Ha. discriminate.
Qed.

Lemma deleteModule_json_safe (st st' : State) :
  json_safe (modules st) = true ->
  deleteModule st = Normal st' -> json_safe (modules st') = true.
Proof.
  intros Hs Hd. unfold deleteModule in Hd.
  destruct (truthy (selected st)); cbn [negb] in Hd.
  - apply bind_Normal in Hd as (ms & Hms & Hd). injection Hd as <-.
    cbn [modules setSelected setModules].
    destruct (modules st) as [| | | | | l |]; try discriminate.
    cbn [call_filter] in Hms.
    apply bind_Normal in Hms as (l' & Hl' & Hms). injection Hms as <-.
    rewrite json_safe_arr in *. eapply filterM_forallb; eassumption.
  - injection Hd as <-. exact Hs.
Qed.

Lemma updateSelected_json_safe
  (st st' : State) (field : jsstring) (value : Value) :
  json_safe (modules st) = true ->
  key_index field = None -> json_safe value = true ->
  updateSelected field value st = Normal st' ->
  json_safe (modules st') = true.
Proof.
  intros Hs Hk Hv Hu. unfold updateSelected in Hu.
  destruct (truthy (selected st)) eqn:Ht; cbn [negb] in Hu.
  - apply bind_Normal in Hu as (ms & Hms & Hu). injection Hu as <-.
    cbn [modules setModules].
    destruct (modules st) as [| | | | | l |]; try discriminate.
    cbn [call_map] in Hms.
    apply bind_Normal in Hms as (l' & Hl' & Hms). injection Hms as <-.
    rewrite json_safe_arr in *.
    eapply (mapM_json_safe (selected st)); eassumption.
  - injection Hu as <-. exact Hs.
Qed.

(** X12: what the editor does to a registry keeps it within the values the
    storage carries faithfully: from such a registry, an add with a finite
    clock reading and draws in [[0, 1)], a delete, and an update of a field
    whose name is no array index, to such a value, each lead to such a
    registry again. *)
Theorem editing_keeps_registry_savable (st : State) :
  json_safe (modules st) = true ->
  (forall i st',
      sane i ->
      addModule (reading i) (draw1 i) (draw2 i) (draw3 i) st = Normal st' ->
      json_safe (modules st') = true) /\
  (forall st', deleteModule st = Normal st' ->
               json_safe (modules st') = true) /\
  (forall field value st',
      key_index field = None -> json_safe value = true ->
      updateSelected field value st = Normal st' ->
      json_safe (modules st') = true).
Proof.
  intros Hs. split; [| split].
  - intros i st'. now apply addModule_json_safe.
  - intros st'. now apply deleteModule_json_safe.
  - intros field value st'. now apply updateSelected_json_safe.
Qed.

Lemma editing_keeps_registry_savable_witness :
  json_safe (modules added_once) = true /\
  (forall i st',
      sane i ->
      addModule (reading i) (draw1 i) (draw2 i) (draw3 i) added_once
      = Normal st' ->
      json_safe (modules st') = true) /\
  (forall st', deleteModule added_once = Normal st' ->
               json_safe (modules st') = true) /\
  (forall field value st',
      key_index field = None -> json_safe value = true ->
      updateSelected field value added_once = Normal st' ->
      json_safe (modules st') = true).
Proof.
  assert (H : json_safe (modules added_once) = true)
    by (vm_compute; reflexivity).
  split; [exact H | exact (editing_keeps_registry_savable added_once H)].
Defined.

Lemma addModules_json_safe (ins : list inputs) (st : State) (l : list Value) :
  modules st = VArr l -> json_safe (modules st) = true ->
  Forall sane ins ->
  exists st',
    addModules ins st = Normal st' /\ json_safe (modules st') = true.
Proof.
  revert st l. induction ins as [| i ins IH]; intros st l Hm Hs Hi.
  - now exists st.
  - inversion Hi as [| ? ? Hsane Hi']; subst.
    pose proof Hsane as (_ & H1 & _).
    destruct (addModule_spec st l (reading i) (draw1 i) (draw2 i) (draw3 i)
                Hm H1) as (type & label & color & _ & Heq).
    pose proof (addModule_json_safe st _ i Hs Hsane Heq) as Hs'.
    match type of Heq with
    | _ = Normal ?s => set (st1 := s) in *
    end.
    assert (Hm1 : exists l1, modules st1 = VArr l1) by (eexists; reflexivity).
    destruct Hm1 as (l1 & Hm1).
    destruct (IH st1 l1 Hm1 Hs' Hi') as (st' & Hrun & Hsafe).
    exists st'. split; [| assumption].
    cbn [addModules]. rewrite Heq. exact Hrun.
Qed.

(** X13: a layout built by adds alone comes back from the storage as it was:
    after any run of adds from the initial state, with finite clock
    readings and draws in [[0, 1)], save followed by load restores the
    registry, positions included, and leaves the selection. *)
Theorem built_layout_survives_save_load
  (ins : list inputs) (store : list (jsstring * jsstring)) :
  Forall sane ins ->
  exists st st1 st2,
    addModules ins (initial store) = Normal st /\
    saveLayout st = Normal st1 /\
    loadLayout st1 = Normal st2 /\
    modules st2 = modules st /\
    selected st2 = selected st.
Proof.
  intros Hi.
  destruct (addModules_json_safe ins (initial store) [] eq_refl eq_refl Hi)
    as (st & Hrun & Hs).
  destruct (JSON_parse_stringify (modules st) Hs) as (c & t & Es & Ep).
  exists st. eexists. eexists. split; [exact Hrun |].
  unfold saveLayout. rewrite Es. split; [reflexivity |].
  unfold loadLayout. cbn [localStorage alert setStorage].
  rewrite getItem_setItem, Ep. cbn [bind].
  split; [reflexivity |]. split; reflexivity.
Qed.

Lemma built_layout_survives_save_load_witness :
  exists st st1 st2,
    addModules [same_instant; later_instant] (initial []) = Normal st /\
    saveLayout st = Normal st1 /\
    loadLayout st1 = Normal st2 /\
    modules st2 = modules st /\
    selected st2 = selected st.
Proof.
  apply (built_layout_survives_save_load [same_instant; later_instant] []).
  repeat constructor.
Defined.

(** *** Without a gap the text is that of the plain serializer *)

Lemma join_with_comma (l : list jsstring) : join_with [44%N] l = join l.
Proof.
  induction l as [| x [| y r] IH]; try reflexivity.
  change (join_with [44%N] (x :: y :: r))
    with (x ++ [44%N] ++ join_with [44%N] (y :: r)).
  now rewrite IH.
Qed.

Lemma wrap_no_gap (open close : code_unit) (indent : jsstring)
  (parts : list jsstring) :
  wrap open close [] indent parts = [open] ++ join parts ++ [close].
Proof.
  destruct parts as [| x r]; [reflexivity |].
  unfold wrap. now rewrite join_with_comma.
Qed.

Lemma serialize_gap_arr (gap indent : jsstring) (l : list Value) :
  serialize_gap gap indent (VArr l)
  = Some (wrap 91%N 93%N gap indent
            (map (element_text_gap gap (indent ++ gap)) l)).
Proof. reflexivity. Qed.

Lemma serialize_gap_obj (gap indent : jsstring)
  (props : list (jsstring * Value)) :
  serialize_gap gap indent (VObj props)
  = Some (wrap 123%N 125%N gap indent
            (flat_map (member_text_gap gap (indent ++ gap)) props)).
Proof.
  cbn [serialize_gap]. do 2 f_equal.
  induction props as [| [k x] r IH]; [reflexivity |].
  cbn [flat_map]. unfold member_text_gap at 1. cbn [fst snd].
  destruct (serialize_gap gap (indent ++ gap) x); cbn [app]; now rewrite IH.
Qed.

Lemma serialize_obj_members (props : list (jsstring * Value)) :
  serialize (VObj props)
  = Some ([123%N]
          ++ join (flat_map (fun kv =>
                               match serialize (snd kv) with
                               | Some t => [quote (fst kv) ++ [58%N] ++ t]
                               | None => []
                               end) props)
          ++ [125%N]).
Proof.
  cbn [serialize]. do 4 f_equal.
  induction props as [| [k x] r IH]; [reflexivity |].
  cbn [flat_map fst snd].
  destruct (serialize x); cbn [app]; [f_equal |]; exact IH.
Qed.

Lemma serialize_gap_none (indent : jsstring) (v : Value) :
  serialize_gap [] indent v = serialize v.
Proof.
  revert indent.
  induction v as [| | b | x | s | l IH | props IH] using Value_induction;
    intros indent; try reflexivity.
  - rewrite serialize_gap_arr, serialize_arr, wrap_no_gap.
    assert (E : map (element_text_gap [] (indent ++ [])) l
                = map element_text l).
    { induction IH as [| x r Hx _ IHr]; [reflexivity |].
      cbn [map]. unfold element_text_gap at 1, element_text at 1.
      now rewrite Hx, IHr. }
    now rewrite E.
  - rewrite serialize_gap_obj, serialize_obj_members, wrap_no_gap.
    assert (E : flat_map (member_text_gap [] (indent ++ [])) props
                = flat_map (fun kv =>
                              match serialize (snd kv) with
                              | Some t => [quote (fst kv) ++ [58%N] ++ t]
                              | None => []
                              end) props).
    { induction IH as [| [k x] r Hx _ IHr]; [reflexivity |].
      cbn [flat_map]. unfold member_text_gap at 1. cbn [fst snd] in *.
      now rewrite Hx, IHr. }
    now rewrite E.
Qed.

(** ** White space between the tokens *)

Lemma skip_ws_app (w s : jsstring) :
  forallb is_ws w = true -> skip_ws (w ++ s) = skip_ws s.
Proof.
  induction w as [| c w IH]; [reflexivity |]. cbn [forallb app skip_ws].
  intros H. apply andb_true_iff in H as [Hc Hw]. rewrite Hc. now apply IH.
Qed.

Lemma parse_value_skip (fuel : nat) (w s : jsstring) :
  forallb is_ws w = true -> parse_value fuel (w ++ s) = parse_value fuel s.
Proof.
  intros Hw. destruct fuel as [| f]; [reflexivity |].
  cbn [parse_value]. now rewrite skip_ws_app.
Qed.

Lemma parse_elements_skip (fuel : nat) (w s : jsstring) :
  forallb is_ws w = true ->
  parse_elements fuel (w ++ s) = parse_elements fuel s.
Proof.
  intros Hw. destruct fuel as [| f]; [reflexivity |].
  cbn [parse_elements]. now rewrite parse_value_skip.
Qed.

Lemma parse_members_skip (fuel : nat) (w s : jsstring)
  (acc : list (jsstring * Value)) :
  forallb is_ws w = true ->
  parse_members fuel (w ++ s) acc = parse_members fuel s acc.
Proof.
  intros Hw. destruct fuel as [| f]; [reflexivity |].
  cbn [parse_members]. now rewrite skip_ws_app.
Qed.

Lemma parse_value_bracket_skip (fuel : nat) (w s : jsstring) :
  forallb is_ws w = true ->
  parse_value fuel (91%N :: w ++ s) = parse_value fuel (91%N :: s).
Proof.
  intros Hw. destruct fuel as [| f]; [reflexivity |].
  cbn [parse_value skip_ws is_ws].
  now rewrite skip_ws_app, parse_elements_skip.
Qed.

Lemma parse_value_brace_skip (fuel : nat) (w s : jsstring) :
  forallb is_ws w = true ->
  parse_value fuel (123%N :: w ++ s) = parse_value fuel (123%N :: s).
Proof.
  intros Hw. destruct fuel as [| f]; [reflexivity |].
  cbn [parse_value skip_ws is_ws].
  now rewrite skip_ws_app, parse_members_skip.
Qed.

Lemma is_ws_delimits (c : code_unit) (r : jsstring) :
  is_ws c = true -> delimits (c :: r) = true.
Proof.
  intros H. code_unit_cases c; try discriminate H; reflexivity.
Qed.

Lemma delimits_ws_app (w s : jsstring) :
  forallb is_ws w = true -> delimits s = true -> delimits (w ++ s) = true.
Proof.
  destruct w as [| c w]; [auto |]. cbn [forallb app]. intros H _.
  apply andb_true_iff in H as [Hc _]. now apply is_ws_delimits.
Qed.

Lemma all_ws_app (a b : jsstring) : all_ws a -> all_ws b -> all_ws (a ++ b).
Proof. unfold all_ws. intros Ha Hb. now rewrite forallb_app, Ha, Hb. Qed.

Lemma wrap_shape (open close : code_unit) (gap indent : jsstring)
  (parts : list jsstring) :
  all_ws gap -> all_ws indent -> parts <> [] ->
  exists w w',
    all_ws w /\ all_ws w' /\
    wrap open close gap indent parts
    = [open] ++ w ++ join_with (44%N :: w) parts ++ w' ++ [close].
Proof.
  intros Hg Hi Hp. destruct parts as [| x r]; [now contradiction Hp |].
  unfold wrap. destruct gap as [| g gap'].
  - exists [], []. repeat split.
  - exists (10%N :: indent ++ g :: gap'), (10%N :: indent).
    split; [| split].
    + apply (all_ws_app [10%N]); [reflexivity | now apply all_ws_app].
    + now apply (all_ws_app [10%N]).
    + reflexivity.
Qed.

Lemma colon_shape (gap : jsstring) :
  all_ws gap -> exists wc, all_ws wc /\ colon gap = 58%N :: wc.
Proof.
  intros _. destruct gap; [exists [] | exists [32%N]]; now split.
Qed.

Lemma parse_elements_join_with (w w' : jsstring) (T : Value -> jsstring)
  (l : list Value) :
  all_ws w -> all_ws w' -> l <> [] ->
  Forall (fun x => parses x (T x)) l ->
  forall f rest,
    (weights l <= f)%nat ->
    parse_elements f (join_with (44%N :: w) (map T l) ++ w' ++ 93%N :: rest)
    = Some (l, rest).
Proof.
  intros Hw Hw' Hne H. induction H as [| x r Hx Hr IH]; [now contradiction Hne |].
  intros f rest Hf. cbn [weights fold_right] in Hf. fold (weights r) in Hf.
  destruct f as [| f]; [lia |]. cbn [parse_elements].
  destruct r as [| y r'].
  - cbn [map join_with].
    rewrite (Hx f (w' ++ 93%N :: rest))
      by (lia || (apply delimits_ws_app; [assumption | reflexivity])).
    rewrite skip_ws_app by assumption. reflexivity.
  - change (join_with (44%N :: w) (map T (x :: y :: r')))
      with (T x ++ (44%N :: w) ++ join_with (44%N :: w) (map T (y :: r'))).
    rewrite <- !app_assoc. cbn [app].
    rewrite (Hx f) by (lia || reflexivity).
    cbn [skip_ws is_ws].
    rewrite parse_elements_skip by assumption.
    rewrite IH by (discriminate || lia). reflexivity.
Qed.

Lemma parse_members_join_with (w w' wc : jsstring) (T : Value -> jsstring)
  (props : list (jsstring * Value)) :
  all_ws w -> all_ws w' -> all_ws wc -> props <> [] ->
  Forall (fun kv => parses (snd kv) (T (snd kv))) props ->
  forall f rest acc,
    (weights (map snd props) <= f)%nat ->
    parse_members f
      (join_with (44%N :: w) (map (member wc T) props)
       ++ w' ++ 125%N :: rest) acc
    = Some (fold_left (fun a kv => obj_set (fst kv) (snd kv) a) props acc,
            rest).
Proof.
  intros Hw Hw' Hwc Hne H.
  induction H as [| [k x] r Hx Hr IH]; [now contradiction Hne |].
  intros f rest acc Hf. cbn [map snd weights fold_right] in Hf.
  fold (weights (map snd r)) in Hf. cbn [snd] in Hx.
  destruct f as [| f]; [lia |]. cbn [parse_members fold_left fst snd].
  destruct r as [| kv r'].
  - cbn [map join_with]. unfold member, quote. cbn [fst snd].
    rewrite <- !app_assoc. cbn [app skip_ws is_ws].
    rewrite parse_chars_quote_chars. cbn [skip_ws is_ws].
    rewrite parse_value_skip by assumption.
    assert (Hp : parse_value f (T x ++ w' ++ 125%N :: rest)
                 = Some (x, w' ++ 125%N :: rest)).
    { apply Hx; [lia |]. apply delimits_ws_app; [assumption | reflexivity]. }
    replace (parse_value f _) with (Some (x, w' ++ 125%N :: rest))
      by (symmetry; exact Hp).
    rewrite skip_ws_app by assumption. reflexivity.
  - change (join_with (44%N :: w) (map (member wc T) ((k, x) :: kv :: r')))
      with (member wc T (k, x) ++ (44%N :: w)
            ++ join_with (44%N :: w) (map (member wc T) (kv :: r'))).
    unfold member at 1, quote. cbn [fst snd].
    rewrite <- !app_assoc. cbn [app skip_ws is_ws].
    rewrite parse_chars_quote_chars. cbn [skip_ws is_ws].
    rewrite parse_value_skip by assumption.
    match goal with
    | |- context [parse_value f (T x ++ ?s)] =>
        assert (Hp : parse_value f (T x ++ s) = Some (x, s))
          by (apply Hx; [lia | reflexivity]);
        replace (parse_value f _) with (Some (x, s)) by (symmetry; exact Hp)
    end.
    cbn [skip_ws is_ws].
    rewrite parse_members_skip by assumption.
    rewrite IH by (discriminate || lia). reflexivity.
Qed.

Lemma join_with_weights (c : code_unit) (s : jsstring)
  (ws : list nat) (ts : list jsstring) :
  Forall2 (fun w t => (w <= List.length t)%nat) ws ts ->
  (fold_right (fun w n => S (w + n)) O ws
   <= S (List.length (join_with (c :: s) ts)))%nat.
Proof.
  induction 1 as [| w t ws ts Hw Hr IH]; [cbn; lia |].
  cbn [fold_right]. destruct Hr as [| w' t' ws' ts' Hw' Hr'].
  - cbn [fold_right join_with]. lia.
  - change (join_with (c :: s) (t :: t' :: ts'))
      with (t ++ (c :: s) ++ join_with (c :: s) (t' :: ts')).
    rewrite !length_app. cbn [List.length].
    unfold jsstring, code_unit in *. lia.
Qed.

Lemma join_with_head (sep : jsstring) (c : code_unit) (t : jsstring)
  (r : list jsstring) :
  exists t', join_with sep ((c :: t) :: r) = c :: t'.
Proof. destruct r; cbn [join_with app]; eauto. Qed.

Lemma parses_back_gap_text (gap indent : jsstring) (x : Value) :
  all_ws indent -> parses_back_gap gap x ->
  serialize_gap gap indent x <> None /\
  (exists c t, element_text_gap gap indent x = c :: t /\ opens_value c) /\
  (weight x <= List.length (element_text_gap gap indent x))%nat /\
  parses x (element_text_gap gap indent x).
Proof.
  intros Hi H. destruct (H indent Hi) as (c & t & E & Hc & Hl & Hp).
  unfold element_text_gap. rewrite E.
  split; [discriminate |]. split; [now exists c, t |]. now split.
Qed.

Lemma primitive_parses_back_gap (gap : jsstring) (v : Value) :
  (forall indent, serialize_gap gap indent v = serialize v) ->
  json_safe v = true -> parses_back_gap gap v.
Proof.
  intros Hs Hv indent _.
  destruct (serialize_head v Hv) as (c & t & E & Hc).
  destruct (parse_serialize v Hv) as (t0 & E0 & Hp).
  rewrite E in E0. injection E0 as <-.
  exists c, t. rewrite Hs. split; [exact E |]. split; [exact Hc |].
  split; [exact (weight_le_length v Hv _ E) | exact Hp].
Qed.

(** Every safe value parses back from its indented text, for any gap of
    white space. *)
Theorem parse_serialize_gap (gap : jsstring) (v : Value) :
  all_ws gap -> json_safe v = true -> parses_back_gap gap v.
Proof.
  intros Hg.
  induction v as [| | b | x | s | l IH | props IH] using Value_induction;
    intros Hv; try discriminate;
    try (apply primitive_parses_back_gap; [reflexivity | exact Hv]).
  - (* arrays *)
    intros indent Hi. rewrite serialize_gap_arr.
    rewrite json_safe_arr in Hv.
    pose proof (forallb_Forall_impl _ _ _ IH Hv) as Hall.
    destruct l as [| x r].
    { exists 91%N, [93%N]. split; [reflexivity |].
      split; [right; cbn; tauto |]. split; [cbn; lia |].
      intros [| f] rest Hf _; [cbn in Hf; lia | reflexivity]. }
    set (inner := indent ++ gap).
    assert (Hin : all_ws inner) by (now apply all_ws_app).
    set (T := element_text_gap gap inner).
    assert (HT : Forall (fun x => parses x (T x)) (x :: r)).
    { eapply Forall_impl; [| exact Hall].
      intros y Hy. now apply (parses_back_gap_text gap inner y Hin Hy). }
    assert (HL : Forall2 (fun w t => (w <= List.length t)%nat)
                   (map weight (x :: r)) (map T (x :: r))).
    { clear - Hall Hin. induction Hall as [| y q Hy _ IHq]; [constructor |].
      cbn [map]. constructor; [| exact IHq].
      now apply (parses_back_gap_text gap inner y Hin Hy). }
    inversion Hall as [| ? ? Hx _]; subst.
    destruct (parses_back_gap_text gap inner x Hin Hx)
      as (_ & (c & t & Et & Hc) & _ & _).
    destruct (opens_value_facts c Hc) as (Hws & H93 & _).
    destruct (wrap_shape 91%N 93%N gap indent (map T (x :: r)) Hg Hi
                ltac:(discriminate)) as (w & w' & Hw & Hw' & Ewrap).
    rewrite Ewrap.
    destruct (join_with_head (44%N :: w) c t (map T r)) as (t' & Ej).
    assert (Ej' : join_with (44%N :: w) (map T (x :: r)) = c :: t').
    { cbn [map]. fold T in Et. rewrite Et. exact Ej. }
    exists 91%N. eexists. split; [reflexivity |].
    split; [right; cbn; tauto |]. split.
    + rewrite weight_arr, weights_fold.
      pose proof (join_with_weights 44%N w _ _ HL) as Hj.
      cbn [List.length]. rewrite !length_app. cbn [List.length].
      unfold jsstring, code_unit in *. lia.
    + intros fuel rest Hf _. rewrite weight_arr in Hf.
      destruct fuel as [| f]; [lia |].
      pose proof (parse_elements_join_with w w' T (x :: r) Hw Hw'
                    ltac:(discriminate) HT f rest ltac:(lia)) as Hp.
      cbn [app]. rewrite <- !app_assoc. cbn [app].
      rewrite parse_value_bracket_skip by assumption.
      rewrite Ej' in *. cbn [app] in *.
      rewrite (parse_value_array f c _ Hws H93).
      replace (parse_elements f _) with (Some (x :: r, rest))
        by (symmetry; exact Hp).
      reflexivity.
  - (* objects *)
    intros indent Hi. rewrite serialize_gap_obj.
    rewrite json_safe_obj in Hv. apply andb_true_iff in Hv as [Hk Hv].
    assert (Hall : Forall (fun kv => parses_back_gap gap (snd kv)) props).
    { clear Hk. induction IH as [| kv r Hx _ IHr]; [constructor |].
      cbn in Hv. apply andb_true_iff in Hv as [H1 H2].
      constructor; auto. }
    destruct props as [| [k x] r].
    { exists 123%N, [125%N]. split; [reflexivity |].
      split; [right; cbn; tauto |]. split; [cbn; lia |].
      intros [| f] rest Hf _; [cbn in Hf; lia | reflexivity]. }
    set (inner := indent ++ gap).
    assert (Hin : all_ws inner) by (now apply all_ws_app).
    set (T := element_text_gap gap inner).
    destruct (colon_shape gap Hg) as (wc & Hwc & Ec).
    assert (HT : Forall (fun kv => parses (snd kv) (T (snd kv)))
                   ((k, x) :: r)).
    { eapply Forall_impl; [| exact Hall].
      intros kv Hy. now apply (parses_back_gap_text gap inner _ Hin Hy). }
    assert (EM : flat_map (member_text_gap gap inner) ((k, x) :: r)
                 = map (member wc T) ((k, x) :: r)).
    { clear - Hall Hin Ec.
      induction Hall as [| kv q Hy _ IHq]; [reflexivity |].
      cbn [flat_map map]. rewrite IHq.
      destruct (Hy inner Hin) as (c & t & E & _).
      unfold member_text_gap, member, T, element_text_gap.
      rewrite E, Ec. reflexivity. }
    assert (HL : Forall2 (fun w t => (w <= List.length t)%nat)
                   (map weight (map snd ((k, x) :: r)))
                   (map (member wc T) ((k, x) :: r))).
    { clear - Hall Hin. induction Hall as [| kv q Hy _ IHq]; [constructor |].
      cbn [map]. constructor; [| exact IHq].
      destruct (parses_back_gap_text gap inner _ Hin Hy) as (_ & _ & Hl & _).
      unfold member. fold T in Hl. rewrite !length_app.
      unfold jsstring, code_unit in *. lia. }
    rewrite EM.
    destruct (wrap_shape 123%N 125%N gap indent
                (map (member wc T) ((k, x) :: r)) Hg Hi
                ltac:(discriminate)) as (w & w' & Hw & Hw' & Ewrap).
    rewrite Ewrap.
    assert (Ej : exists t', join_with (44%N :: w)
                              (map (member wc T) ((k, x) :: r))
                            = 34%N :: t').
    { cbn [map]. unfold member at 1, quote. cbn [fst app].
      apply join_with_head. }
    destruct Ej as (t' & Ej).
    exists 123%N. eexists. split; [reflexivity |].
    split; [right; cbn; tauto |]. split.
    + rewrite weight_obj, weights_fold.
      pose proof (join_with_weights 44%N w _ _ HL) as Hj.
      cbn [List.length]. rewrite !length_app. cbn [List.length].
      unfold jsstring, code_unit in *. lia.
    + intros fuel rest Hf _. rewrite weight_obj in Hf.
      destruct fuel as [| f]; [lia |].
      pose proof (parse_members_join_with w w' wc T ((k, x) :: r) Hw Hw' Hwc
                    ltac:(discriminate) HT f rest [] ltac:(lia)) as Hp.
      rewrite rebuild_canonical in Hp by exact Hk.
      cbn [app]. rewrite <- !app_assoc. cbn [app].
      rewrite parse_value_brace_skip by assumption.
      rewrite Ej in *. cbn [app] in *.
      cbn [parse_value skip_ws is_ws].
      replace (parse_members f _ _) with (Some ((k, x) :: r, rest))
        by (symmetry; exact Hp).
      reflexivity.
Qed.

(** [JSON.parse(JSON.stringify(v, null, space))] is [v] for every safe
    value and every number of spaces. *)
Lemma JSON_parse_stringify_space (v : Value) (space : Z) :
  json_safe v = true ->
  exists t, JSON_stringify_space v space = Some t /\
            JSON_parse t = Normal v.
Proof.
  intros Hv. unfold JSON_stringify_space.
  set (gap := repeat 32%N (Z.to_nat (Z.min 10 space))).
  assert (Hg : all_ws gap).
  { unfold all_ws, gap. induction (Z.to_nat _); [reflexivity | exact IHn]. }
  destruct (parse_serialize_gap gap v Hg Hv [] eq_refl)
    as (c & t & E & _ & Hl & Hp).
  exists (c :: t). split; [exact E |].
  unfold JSON_parse.
  specialize (Hp (S (List.length (c :: t))) [] ltac:(lia) eq_refl).
  rewrite app_nil_r in Hp. rewrite Hp. reflexivity.
Qed.

Lemma stable_nil : stable [].
Proof. intros b. reflexivity. Qed.

Lemma stable_app (a b : jsstring) : stable a -> stable b -> stable (a ++ b).
Proof.
  intros Ha Hb r. now rewrite <- !app_assoc, Ha, Hb.
Qed.

Lemma stable_char (c : code_unit) :
  is_high_surrogate c = false -> is_low_surrogate c = false -> stable [c].
Proof. intros Hh Hl b. cbn [app to_usv]. now rewrite Hh, Hl. Qed.

Lemma ascii_no_surrogate (c : code_unit) :
  is_ascii c = true ->
  is_high_surrogate c = false /\ is_low_surrogate c = false.
Proof.
  unfold is_ascii, is_high_surrogate, is_low_surrogate. intros H.
  apply N.ltb_lt in H.
  split; apply andb_false_iff; left; apply N.leb_gt; lia.
Qed.

Lemma stable_ascii (t : jsstring) : forallb is_ascii t = true -> stable t.
Proof.
  induction t as [| c t IH]; [intros _; apply stable_nil |].
  cbn [forallb]. intros H. apply andb_true_iff in H as [Hc Ht].
  destruct (ascii_no_surrogate c Hc) as [Hh Hl].
  apply (stable_app [c] t); [now apply stable_char | now apply IH].
Qed.

Lemma stable_pair (c d : code_unit) :
  is_high_surrogate c = true -> is_low_surrogate d = true -> stable [c; d].
Proof. intros Hc Hd b. cbn [app to_usv]. now rewrite Hc, Hd. Qed.

Lemma hex_char_ascii (d : N) : (d < 16)%N -> is_ascii (hex_char d) = true.
Proof.
  intros H. unfold is_ascii, hex_char. destruct (d <? 10)%N; apply N.ltb_lt; lia.
Qed.

Lemma stable_unicode_escape (c : code_unit) : stable (unicode_escape c).
Proof.
  apply stable_ascii. unfold unicode_escape. cbn [forallb].
  rewrite !hex_char_ascii by (apply N.mod_lt; discriminate). reflexivity.
Qed.

Lemma stable_quote_char (c : code_unit) :
  is_high_surrogate c = false -> is_low_surrogate c = false ->
  stable (quote_char c).
Proof.
  intros Hh Hl.
  assert (H : quote_char c = [c] \/ forallb is_ascii (quote_char c) = true)
    by (code_unit_cases c; (now left) || (now right)).
  destruct H as [-> | H]; [now apply stable_char | now apply stable_ascii].
Qed.

Lemma stable_quote_chars (s : jsstring) : stable (quote_chars s).
Proof.
  assert (H : forall n s, (List.length s <= n)%nat -> stable (quote_chars s)).
  { clear s. induction n as [| n IH]; intros s Hn.
    - destruct s; [apply stable_nil | cbn in Hn; lia].
    - destruct s as [| c r]; [apply stable_nil |].
      cbn [List.length] in Hn. cbn [quote_chars].
      destruct (is_high_surrogate c) eqn:Hh.
      + destruct r as [| d r']; [apply stable_unicode_escape |].
        destruct (is_low_surrogate d) eqn:Hd.
        * apply (stable_app [c; d]); [now apply stable_pair |].
          apply IH. cbn [List.length] in Hn. lia.
        * apply stable_app; [apply stable_unicode_escape | apply IH; lia].
      + destruct (is_low_surrogate c) eqn:Hl.
        * apply stable_app; [apply stable_unicode_escape | apply IH; lia].
        * apply stable_app; [now apply stable_quote_char | apply IH; lia]. }
  now apply (H (List.length s)).
Qed.

Lemma stable_quote (s : jsstring) : stable (quote s).
Proof.
  unfold quote. apply (stable_app [34%N]); [now apply stable_ascii |].
  apply stable_app; [apply stable_quote_chars | now apply stable_ascii].
Qed.

(** *** Numbers are written in ASCII *)

Lemma digit_char_ascii (n : Z) : n < 10 -> is_ascii (digit_char n) = true.
Proof. intros H. unfold is_ascii, digit_char. apply N.ltb_lt. lia. Qed.

Lemma digits_le_ascii (fuel : nat) (n : Z) :
  forallb is_ascii (digits_le fuel n) = true.
Proof.
  revert n. induction fuel as [| f IH]; intros n; [reflexivity |].
  cbn [digits_le]. destruct (Z.ltb_spec n 10).
  - cbn [forallb]. now rewrite digit_char_ascii.
  - cbn [forallb]. rewrite IH, digit_char_ascii; [reflexivity |].
    pose proof (Z.mod_pos_bound n 10). lia.
Qed.

Lemma forallb_rev_true {A} (f : A -> bool) (l : list A) :
  forallb f l = true -> forallb f (rev l) = true.
Proof.
  rewrite !forallb_forall. intros H x Hx. apply H. now apply in_rev.
Qed.

Lemma to_digits_ascii (n : Z) : forallb is_ascii (to_digits n) = true.
Proof. unfold to_digits. apply forallb_rev_true, digits_le_ascii. Qed.

Lemma zeros_ascii (n : Z) : forallb is_ascii (zeros n) = true.
Proof. unfold zeros. induction (Z.to_nat n); cbn; auto. Qed.

Lemma place_digits_ascii (ds : jsstring) (n : Z) :
  forallb is_ascii ds = true -> forallb is_ascii (place_digits ds n) = true.
Proof.
  intros H. unfold place_digits.
  destruct (_ && _); [now rewrite forallb_app, H, zeros_ascii |].
  destruct (_ && _).
  { rewrite !forallb_app, forallb_firstn, forallb_skipn
      by assumption. reflexivity. }
  destruct (_ && _).
  { rewrite !forallb_app, H, zeros_ascii. reflexivity. }
  cbv zeta. destruct ds as [| d [| d' r]]; [reflexivity | |].
  - cbn [forallb] in H. apply andb_true_iff in H as [Hd _].
    rewrite forallb_app, to_digits_ascii. cbn [forallb]. rewrite Hd.
    now destruct (0 <=? n - 1).
  - remember (d' :: r) as rest. cbn [forallb] in H.
    apply andb_true_iff in H as [Hd Hr].
    rewrite !forallb_app, Hr, to_digits_ascii. cbn [forallb]. rewrite Hd.
    now destruct (0 <=? n - 1).
Qed.

Lemma Number_toString_ascii (x : number) :
  forallb is_ascii (Number_toString x) = true.
Proof.
  destruct x as [s | s | | s m e]; try reflexivity.
  - now destruct s.
  - unfold Number_toString. rewrite forallb_app.
    destruct (decimal_of m e) as [[d E] |].
    + cbv zeta. rewrite place_digits_ascii by apply to_digits_ascii.
      now destruct s.
    + now destruct s.
Qed.

(** *** Every text of the serializer *)

Lemma stable_join_with (sep : jsstring) (parts : list jsstring) :
  stable sep -> Forall stable parts -> stable (join_with sep parts).
Proof.
  intros Hs H. induction H as [| x r Hx Hr IH]; [apply stable_nil |].
  destruct r as [| y r']; [exact Hx |].
  change (join_with sep (x :: y :: r'))
    with (x ++ sep ++ join_with sep (y :: r')).
  apply stable_app; [assumption |]. now apply stable_app.
Qed.

Lemma stable_wrap (open close : code_unit) (gap indent : jsstring)
  (parts : list jsstring) :
  is_ascii open = true -> is_ascii close = true ->
  stable gap -> stable indent -> Forall stable parts ->
  stable (wrap open close gap indent parts).
Proof.
  intros Ho Hc Hg Hi Hp.
  assert (So : stable [open]) by (apply stable_ascii; cbn; now rewrite Ho).
  assert (Sc : stable [close]) by (apply stable_ascii; cbn; now rewrite Hc).
  assert (Sn : stable [10%N]) by (now apply stable_ascii).
  unfold wrap. destruct parts as [| x r].
  - apply (stable_app [open] [close]); assumption.
  - destruct gap as [| g gap'].
    + apply stable_app; [assumption |]. apply stable_app; [| assumption].
      apply stable_join_with; [now apply stable_ascii | assumption].
    + cbv zeta.
      assert (Sin : stable (indent ++ g :: gap')) by (now apply stable_app).
      repeat (apply stable_app; try assumption).
      apply stable_join_with; [| assumption].
      apply (stable_app [44%N; 10%N]); [now apply stable_ascii | assumption].
Qed.

Lemma stable_serialize_gap (gap : jsstring) (v : Value) :
  stable gap ->
  forall indent t,
    stable indent -> serialize_gap gap indent v = Some t -> stable t.
Proof.
  intros Hg.
  induction v as [| | b | x | s | l IH | props IH] using Value_induction;
    intros indent t Hi Ht.
  - discriminate.
  - injection Ht as <-. now apply stable_ascii.
  - destruct b; injection Ht as <-; now apply stable_ascii.
  - injection Ht as <-. apply stable_ascii.
    destruct (is_finite x); [apply Number_toString_ascii | reflexivity].
  - injection Ht as <-. apply stable_quote.
  - rewrite serialize_gap_arr in Ht. injection Ht as <-.
    apply stable_wrap; try reflexivity; try assumption.
    assert (Hin : stable (indent ++ gap)) by (now apply stable_app).
    induction IH as [| x r Hx _ IHr]; [constructor |].
    cbn [map]. constructor; [| exact IHr].
    unfold element_text_gap.
    destruct (serialize_gap gap (indent ++ gap) x) as [tx |] eqn:E.
    + now apply (Hx (indent ++ gap)).
    + now apply stable_ascii.
  - rewrite serialize_gap_obj in Ht. injection Ht as <-.
    apply stable_wrap; try reflexivity; try assumption.
    assert (Hin : stable (indent ++ gap)) by (now apply stable_app).
    induction IH as [| [k x] r Hx _ IHr]; [constructor |].
    cbn [flat_map]. apply Forall_app. split; [| exact IHr].
    unfold member_text_gap. cbn [fst snd] in *.
    destruct (serialize_gap gap (indent ++ gap) x) as [tx |] eqn:E;
      [| constructor].
    constructor; [| constructor].
    apply stable_app; [apply stable_quote |].
    apply stable_app; [| now apply (Hx (indent ++ gap))].
    apply stable_ascii. now destruct gap.
Qed.

Lemma stable_indented_text (v : Value) : stable (indented_text v).
Proof.
  unfold indented_text, JSON_stringify_space.
  destruct (serialize_gap _ [] v) as [t |] eqn:E.
  - eapply stable_serialize_gap; [| apply stable_nil | exact E].
    now apply stable_ascii.
  - now apply stable_ascii.
Qed.

(** X14: the exported file holds the indented JSON text of the registry as it
    is: whatever strings the registry holds, no character of the text is
    replaced on the way into the blob, because the text has no surrogate
    without its partner.  The file is named [astrohab_layout.json]. *)
Theorem export_writes_the_json_text (st : State) :
  file_text (exportLayout st) = indented_text (modules st) /\
  file_name (exportLayout st) = str "astrohab_layout.json" /\
  mime_type (exportLayout st) = str "application/json".
Proof.
  split; [| split; reflexivity].
  unfold exportLayout. cbn [file_text]. fold (indented_text (modules st)).
  pose proof (stable_indented_text (modules st) []) as H.
  now rewrite !app_nil_r in H.
Qed.

(** X15: importing an exported file restores the registry it was exported from:
    for a registry of values JSON carries, the text of the export, given to
    import in any later state, is accepted: the registry becomes equal to
    the exported one, the success message is shown, and the selection of
    the later state stays. *)
Theorem export_then_import_restores (st later : State) :
  json_safe (modules st) = true ->
  exists st',
    importLayout (Some (file_text (exportLayout st))) later = Normal st' /\
    modules st' = modules st /\
    alerts st' = alerts later ++ [msg_imported] /\
    selected st' = selected later.
Proof.
  intros Hs.
  assert (E : file_text (exportLayout st) = indented_text (modules st)).
  { unfold exportLayout. cbn [file_text]. fold (indented_text (modules st)).
    pose proof (stable_indented_text (modules st) []) as H.
    now rewrite !app_nil_r in H. }
  rewrite E. unfold indented_text.
  destruct (JSON_parse_stringify_space (modules st) 2 Hs) as (t & Et & Ep).
  rewrite Et. unfold importLayout. rewrite Ep.
  eexists. split; [reflexivity |]. repeat split.
Qed.

Lemma export_then_import_restores_witness :
  exists st',
    importLayout (Some (file_text (exportLayout added_once))) zero_selected
    = Normal st' /\
    modules st' = modules added_once /\
    alerts st' = alerts zero_selected ++ [msg_imported] /\
    selected st' = selected zero_selected.
Proof.
  apply (export_then_import_restores added_once zero_selected).
  vm_compute. reflexivity.
Defined.

Lemma normalize_arr (l : list Value) :
  normalize (VArr l) = VArr (map normalize l).
Proof.
  cbn [normalize]. f_equal;
    try (induction l as [| x r IH]; [reflexivity |];
         cbn [map]; now rewrite <- IH).
Qed.

Lemma normalize_obj (props : list (jsstring * Value)) :
  normalize (VObj props) = VObj (kept props).
Proof.
  cbn [normalize]. f_equal. unfold kept.
  induction props as [| [k x] r IH]; [reflexivity |].
  cbn [flat_map fst snd]. rewrite <- IH. now destruct x.
Qed.

Lemma well_formed_arr (l : list Value) :
  well_formed (VArr l) = forallb well_formed l.
Proof.
  cbn [well_formed];
    try (induction l as [| x r IH]; [reflexivity |];
         cbn [forallb]; now rewrite <- IH).
Qed.

Lemma well_formed_obj (props : list (jsstring * Value)) :
  well_formed (VObj props)
  = keys_canonical (map fst props) && forallb well_formed (map snd props).
Proof.
  cbn [well_formed]. f_equal. induction props as [| [k x] r IH]; [reflexivity |].
  cbn [map snd forallb]. now rewrite <- IH.
Qed.

(** *** The text does not tell a value from its normal form *)

Lemma element_text_normalize (x : Value) :
  (x <> VUndefined -> serialize (normalize x) = serialize x) ->
  element_text (normalize x) = element_text x.
Proof.
  intros H. destruct x as [| | b | y | s | l | props];
    try (unfold element_text; rewrite H by discriminate; reflexivity).
  reflexivity.
Qed.

Lemma serialize_normalize (v : Value) :
  v <> VUndefined -> serialize (normalize v) = serialize v.
Proof.
  induction v as [| | b | x | s | l IH | props IH] using Value_induction;
    intros Hv; try reflexivity.
  - now contradiction Hv.
  - destruct x as [s | s | | s m e]; try reflexivity; now destruct s.
  - rewrite normalize_arr, !serialize_arr. do 4 f_equal.
    rewrite map_map. apply map_ext_in. intros x Hx.
    apply element_text_normalize. rewrite Forall_forall in IH. now apply IH.
  - rewrite normalize_obj, !serialize_obj_members.
    assert (E : flat_map (fun kv =>
                            match serialize (snd kv) with
                            | Some t => [quote (fst kv) ++ [58%N] ++ t]
                            | None => []
                            end) (kept props)
                = flat_map (fun kv =>
                              match serialize (snd kv) with
                              | Some t => [quote (fst kv) ++ [58%N] ++ t]
                              | None => []
                              end) props).
    { clear Hv. unfold kept.
      induction IH as [| [k x] r Hx _ IHr]; [reflexivity |].
      cbn [flat_map fst snd] in *. rewrite <- IHr.
      destruct x as [| | b | y | s | l | q];
        try (cbn [flat_map app fst snd];
             rewrite Hx by discriminate; reflexivity);
        reflexivity. }
    now rewrite E.
Qed.

(** *** The normal form is a value the text carries faithfully *)

Lemma existsb_kept (f : jsstring -> bool) (props : list (jsstring * Value)) :
  existsb f (map fst props) = false -> existsb f (map fst (kept props)) = false.
Proof.
  unfold kept. induction props as [| [k x] r IH]; [reflexivity |].
  cbn [map fst existsb flat_map snd]. intros H.
  apply orb_false_iff in H as [H1 H2].
  destruct x; cbn [app map fst existsb]; rewrite ?H1; auto.
Qed.

Lemma forallb_kept (f : jsstring -> bool) (props : list (jsstring * Value)) :
  forallb f (map fst props) = true -> forallb f (map fst (kept props)) = true.
Proof.
  unfold kept. induction props as [| [k x] r IH]; [reflexivity |].
  cbn [map fst forallb flat_map snd]. intros H.
  apply andb_true_iff in H as [H1 H2].
  destruct x; cbn [app map fst forallb]; rewrite ?H1; auto.
Qed.

Lemma keys_canonical_kept (props : list (jsstring * Value)) :
  keys_canonical (map fst props) = true ->
  keys_canonical (map fst (kept props)) = true.
Proof.
  induction props as [| [k x] r IH]; [reflexivity |].
  cbn [map fst keys_canonical]. intros H.
  apply andb_true_iff in H as [H H3].
  apply andb_true_iff in H as [H1 H2].
  apply negb_true_iff in H1.
  assert (G : keys_canonical (k :: map fst (kept r)) = true).
  { cbn [keys_canonical]. rewrite (existsb_kept _ r H1), (IH H3).
    cbn [negb andb]. rewrite andb_true_r.
    destruct (key_index k); now apply forallb_kept. }
  unfold kept in *. cbn [flat_map snd fst].
  destruct x; cbn [app map fst]; try exact G. now apply IH.
Qed.

Lemma json_safe_normalize (v : Value) :
  well_formed v = true -> json_safe (normalize v) = true.
Proof.
  induction v as [| | b | x | s | l IH | props IH] using Value_induction;
    intros Hv; try reflexivity.
  - destruct x as [s | s | | s m e]; try reflexivity. exact Hv.
  - rewrite normalize_arr, json_safe_arr. rewrite well_formed_arr in Hv.
    induction IH as [| x r Hx _ IHr]; [reflexivity |].
    cbn [forallb map] in *. apply andb_true_iff in Hv as [H1 H2].
    now rewrite Hx, IHr.
  - rewrite normalize_obj, json_safe_obj. rewrite well_formed_obj in Hv.
    apply andb_true_iff in Hv as [Hk Hv].
    rewrite (keys_canonical_kept props Hk). cbn [andb].
    clear Hk. unfold kept.
    induction IH as [| [k x] r Hx _ IHr]; [reflexivity |].
    cbn [forallb map snd flat_map fst] in *.
    apply andb_true_iff in Hv as [H1 H2].
    destruct x; cbn [app map snd forallb]; rewrite ?(Hx H1); auto.
Qed.

Lemma normalize_safe (v : Value) : json_safe v = true -> normalize v = v.
Proof.
  induction v as [| | b | x | s | l IH | props IH] using Value_induction;
    intros Hv; try reflexivity; try discriminate.
  - destruct x as [s | s | | s m e]; try discriminate; [| reflexivity].
    destruct s; [discriminate | reflexivity].
  - rewrite normalize_arr. rewrite json_safe_arr in Hv. f_equal.
    induction IH as [| x r Hx _ IHr]; [reflexivity |].
    cbn [forallb map] in *. apply andb_true_iff in Hv as [H1 H2].
    now rewrite Hx, IHr.
  - rewrite normalize_obj. rewrite json_safe_obj in Hv.
    apply andb_true_iff in Hv as [_ Hv]. f_equal. unfold kept.
    induction IH as [| [k x] r Hx _ IHr]; [reflexivity |].
    cbn [forallb map snd flat_map fst] in *.
    apply andb_true_iff in Hv as [H1 H2].
    rewrite (IHr H2).
    destruct x; try discriminate; cbn [app]; now rewrite (Hx H1).
Qed.

(** X16: load after save never throws on a well-formed registry, and what it
    brings back is the registry in normal form: [undefined] elements,
    [NaN] and the infinities as [null], [-0] as [0], properties without a
    value dropped, everything else as it was.  A second save and load
    changes nothing more. *)
Theorem save_then_load_normalizes (st : State) :
  well_formed (modules st) = true ->
  modules st <> VUndefined ->
  exists st1 st2 st3 st4,
    saveLayout st = Normal st1 /\
    loadLayout st1 = Normal st2 /\
    modules st2 = normalize (modules st) /\
    selected st2 = selected st /\
    saveLayout st2 = Normal st3 /\
    loadLayout st3 = Normal st4 /\
    modules st4 = modules st2.
Proof.
  intros Hw Hu.
  pose proof (json_safe_normalize _ Hw) as Hs.
  destruct (JSON_parse_stringify _ Hs) as (c & t & Es & Ep).
  unfold JSON_stringify in Es.
  rewrite (serialize_normalize _ Hu) in Es.
  assert (R : forall s v c t,
             serialize (modules s) = Some (c :: t) ->
             JSON_parse (c :: t) = Normal v ->
             exists s1 s2,
               saveLayout s = Normal s1 /\ loadLayout s1 = Normal s2 /\
               modules s2 = v /\ selected s2 = selected s).
  { clear. intros s v c t Es Ep.
    unfold saveLayout, JSON_stringify. rewrite Es.
    eexists. eexists. split; [reflexivity |].
    unfold loadLayout. cbn [localStorage alert setStorage].
    rewrite getItem_setItem, Ep. cbn [bind]. now repeat split. }
  destruct (R st _ c t Es Ep) as (st1 & st2 & H1 & H2 & H3 & H4).
  assert (Es2 : serialize (modules st2) = Some (c :: t)).
  { rewrite H3, (serialize_normalize _ Hu). exact Es. }
  assert (Ep2 : JSON_parse (c :: t) = Normal (modules st2))
    by (now rewrite H3).
  destruct (R st2 _ c t Es2 Ep2) as (st3 & st4 & H5 & H6 & H7 & _).
  exists st1, st2, st3, st4. repeat split; assumption.
Qed.

Lemma save_then_load_normalizes_witness :
  exists st1 st2 st3 st4,
    saveLayout unsafe_state = Normal st1 /\
    loadLayout st1 = Normal st2 /\
    modules st2 = normalize (modules unsafe_state) /\
    selected st2 = selected unsafe_state /\
    saveLayout st2 = Normal st3 /\
    loadLayout st3 = Normal st4 /\
    modules st4 = modules st2.
Proof.
  apply (save_then_load_normalizes unsafe_state).
  - reflexivity.
  - discriminate.
Defined.

Example StringToNumber_samples :
  StringToNumber (str "") = pos_zero /\
  StringToNumber (str "  42 ") = lit 42 0 /\
  StringToNumber (str "-0") = S754_zero true /\
  StringToNumber (str ".5") = lit 5 (-1) /\
  StringToNumber (str "5.") = lit 5 0 /\
  StringToNumber (str "1e3") = lit 1000 0 /\
  StringToNumber (str "0x1F") = lit 31 0 /\
  StringToNumber (str "0b") = NaN /\
  StringToNumber (str "-0x1F") = NaN /\
  StringToNumber (str "+Infinity") = Infinity /\
  StringToNumber (str "1 2") = NaN /\
  StringToNumber (str "12px") = NaN /\
  StringToNumber (str "1e") = NaN.
Proof. repeat split; vm_compute; reflexivity. Qed.

Lemma token_char_no_ws (c : code_unit) :
  token_char c = true -> is_str_ws c = false.
Proof.
  unfold token_char, is_str_ws. intros H.
  apply andb_true_iff in H as [H1 H2].
  apply N.leb_le in H1. apply N.ltb_lt in H2.
  apply orb_false_iff. split.
  - cbn [existsb].
    repeat (apply orb_false_iff; split; [apply N.eqb_neq; lia |]).
    reflexivity.
  - apply andb_false_iff. left. apply N.leb_gt. lia.
Qed.

Lemma is_digit_token (c : code_unit) : is_digit c = true -> token_char c = true.
Proof.
  unfold is_digit, token_char. intros H. apply andb_true_iff in H as [H1 H2].
  apply N.leb_le in H1, H2.
  apply andb_true_iff. split; [apply N.leb_le | apply N.ltb_lt]; lia.
Qed.

Lemma numeric_char_token (c : code_unit) :
  numeric_char c = true -> token_char c = true.
Proof.
  unfold numeric_char. intros H. apply orb_true_iff in H as [H | H].
  - now apply is_digit_token.
  - cbn [existsb] in H.
    repeat (apply orb_true_iff in H as [H | H];
            [apply N.eqb_eq in H; now subst |]).
    discriminate.
Qed.

Lemma digits_numeric (ds : jsstring) :
  forallb is_digit ds = true -> forallb numeric_char ds = true.
Proof.
  rewrite !forallb_forall. intros H c Hc. unfold numeric_char.
  now rewrite (H c Hc).
Qed.

Lemma numeric_tokens (s : jsstring) :
  forallb numeric_char s = true -> forallb token_char s = true.
Proof.
  rewrite !forallb_forall. intros H c Hc. apply numeric_char_token.
  now apply H.
Qed.

Lemma place_digits_numeric (ds : jsstring) (n : Z) :
  forallb is_digit ds = true ->
  forallb numeric_char (place_digits ds n) = true.
Proof.
  intros Hd. pose proof (digits_numeric ds Hd) as H. unfold place_digits.
  destruct (_ && _).
  { rewrite forallb_app, H. apply digits_numeric, zeros_digits. }
  destruct (_ && _).
  { rewrite !forallb_app, forallb_firstn, forallb_skipn by assumption.
    reflexivity. }
  destruct (_ && _).
  { rewrite !forallb_app, H, (digits_numeric _ (zeros_digits _)).
    reflexivity. }
  cbv zeta.
  assert (He : forallb numeric_char (to_digits (Z.abs (n - 1))) = true)
    by (apply digits_numeric, to_digits_all_digits; lia).
  destruct ds as [| d [| d' r]]; [reflexivity | |].
  - cbn [forallb] in H. apply andb_true_iff in H as [Hc _].
    rewrite forallb_app. apply andb_true_iff. split; [| exact He].
    cbn [forallb]. rewrite Hc. now destruct (0 <=? n - 1).
  - remember (d' :: r) as rest. cbn [forallb] in H.
    apply andb_true_iff in H as [Hc Hr].
    rewrite !forallb_app.
    apply andb_true_iff; split; [cbn [forallb]; now rewrite Hc |].
    apply andb_true_iff; split; [exact Hr |].
    apply andb_true_iff; split; [now destruct (0 <=? n - 1) | exact He].
Qed.

Lemma finite_text_numeric (m : positive) (e : Z) :
  bounded prec emax m e = true ->
  forallb numeric_char (Number_toString (S754_finite false m e)) = true.
Proof.
  intros Hb.
  destruct (decimal_of_reads_back m e Hb) as (d & E & Hd & Hp & _).
  unfold Number_toString. rewrite Hd. cbv zeta. cbn [app].
  apply place_digits_numeric, to_digits_all_digits. lia.
Qed.

Lemma Number_toString_tokens (x : number) :
  valid_number x = true -> forallb token_char (Number_toString x) = true.
Proof.
  intros Hx. destruct x as [s | s | | s m e]; try reflexivity.
  - now destruct s.
  - cbn in Hx. pose proof (numeric_tokens _ (finite_text_numeric m e Hx)) as H.
    change (Number_toString (S754_finite s m e))
      with ((if s then [45%N] else [])
            ++ Number_toString (S754_finite false m e)).
    rewrite forallb_app. apply andb_true_iff. split; [now destruct s | exact H].
Qed.

Lemma drop_ws_tokens (s : jsstring) :
  forallb token_char s = true -> drop_ws s = s.
Proof.
  destruct s as [| c r]; [reflexivity |]. cbn [forallb drop_ws]. intros H.
  apply andb_true_iff in H as [Hc _]. now rewrite (token_char_no_ws c Hc).
Qed.

Lemma trim_tokens (s : jsstring) : forallb token_char s = true -> trim s = s.
Proof.
  intros H. unfold trim. rewrite (drop_ws_tokens s H).
  rewrite drop_ws_tokens by (now apply forallb_rev_true).
  apply rev_involutive.
Qed.

(** *** A number token of JSON is a decimal literal of the same value *)

Lemma parse_exp_end_no_digit (s : jsstring) (ex : Z) :
  parse_exp s = Some (ex, []) -> no_digit_ahead s = true.
Proof.
  destruct s as [| c r]; [reflexivity |]. cbn [no_digit_ahead].
  intros H. destruct (is_digit c) eqn:Hc; [| reflexivity].
  exfalso. revert H. code_unit_cases c; try discriminate Hc;
    cbn [parse_exp]; discriminate.
Qed.

Lemma parse_frac_shape (s2 fp s3 : jsstring) :
  parse_frac s2 = Some (fp, s3) ->
  match s2 with
  | 46%N :: r => take_digits r
  | _ => ([], s2)
  end = (fp, s3) /\
  (fp = [] -> s3 = s2).
Proof.
  unfold parse_frac. intros H.
  destruct s2 as [| c r]; [injection H as <- <-; now split |].
  destruct (N.eq_dec c 46) as [-> | Hne].
  - destruct (take_digits r) as [[| d ds] rest]; [discriminate |].
    injection H as <- <-. split; [reflexivity | discriminate].
  - assert (E : match c :: r with
                | 46%N :: r0 => take_digits r0
                | _ => ([], c :: r)
                end = ([], c :: r)
                /\ Some (fp, s3) = Some ([], c :: r)).
    { revert H. code_unit_cases c; try (now contradiction Hne);
        intros H; (split; [reflexivity | now rewrite <- H]). }
    destruct E as [E1 E2]. injection E2 as -> ->. now split.
Qed.

Lemma parse_int_take_digits (s1 ip s2 : jsstring) :
  parse_int s1 = Some (ip, s2) -> no_digit_ahead s2 = true ->
  take_digits s1 = (ip, s2) /\ ip <> [].
Proof.
  intros H Hn. destruct s1 as [| c r]; [discriminate |].
  destruct (N.eq_dec c 48) as [-> | Hne].
  - cbn [parse_int] in H. injection H as <- <-.
    split; [| discriminate].
    exact (take_digits_app [48%N] r eq_refl Hn).
  - assert (E : parse_int (c :: r)
                = if is_digit c
                  then let '(ds, rest) := take_digits r in Some (c :: ds, rest)
                  else None).
    { code_unit_cases c; try reflexivity. now contradiction Hne. }
    rewrite E in H. cbn [take_digits].
    destruct (is_digit c); [| discriminate].
    destruct (take_digits r) as [ds rest]. injection H as <- <-.
    split; [reflexivity | discriminate].
Qed.

Lemma decimal_literal_of_token (s : jsstring) (x : number) :
  (forall r, s <> 45%N :: r) ->
  parse_number s = Some (x, []) -> decimal_literal s = Some x.
Proof.
  intros Hs H.
  destruct s as [| c r]; [discriminate |].
  rewrite parse_number_unsigned in H by (intros ->; now apply (Hs r)).
  destruct (parse_int (c :: r)) as [[ip s2] |] eqn:Ei; [| discriminate].
  destruct (parse_frac s2) as [[fp s3] |] eqn:Ef; [| discriminate].
  destruct (parse_exp s3) as [[ex s4] |] eqn:Ee; [| discriminate].
  injection H as <- ->.
  destruct (parse_frac_shape s2 fp s3 Ef) as [Hf Hf0].
  assert (Hn : no_digit_ahead s2 = true).
  { destruct s2 as [| d r2]; [reflexivity |].
    destruct (N.eq_dec d 46) as [-> | Hd]; [reflexivity |].
    assert (fp = [] /\ s3 = d :: r2) as [-> ->].
    { revert Hf. code_unit_cases d; try (now contradiction Hd);
        intros Hf; injection Hf as <- <-; now split. }
    now apply (parse_exp_end_no_digit _ ex). }
  destruct (parse_int_take_digits _ _ _ Ei Hn) as [Et Hip].
  unfold decimal_literal. rewrite Et, Hf, Ee.
  destruct (ip ++ fp) eqn:E; [| reflexivity].
  apply app_eq_nil in E as [-> _]. now contradiction Hip.
Qed.

Lemma Number_toString_not_Infinity (m : positive) (e : Z) :
  bounded prec emax m e = true ->
  exists c t, Number_toString (S754_finite false m e) = c :: t /\
              is_digit c = true.
Proof.
  intros Hb.
  destruct (number_text_head (S754_finite false m e) Hb)
    as (c & t & E & [Hc | ->]).
  - now exists c, t.
  - exfalso. cbn in Hb.
    destruct (decimal_of_reads_back m e Hb) as (s & E' & Hdec & Hs & _).
    destruct (to_digits_head s Hs) as (c & r & Eds & Hc & _).
    unfold Number_toString in E. rewrite Hdec, Eds in E. cbv zeta in E.
    cbn [app] in E.
    destruct (place_digits_head c r (zlength (c :: r) + E') Hc)
      as (c0 & r0 & E0 & Hc0).
    rewrite E0 in E. injection E as -> _. discriminate Hc0.
Qed.

Lemma digit_first_decimal (c : code_unit) (t : jsstring) :
  is_digit c = true ->
  str_decimal (c :: t) = decimal_literal (c :: t).
Proof.
  intros Hc.
  assert (E1 : str_decimal (c :: t) = str_unsigned_decimal (c :: t))
    by (code_unit_cases c; try reflexivity; discriminate Hc).
  rewrite E1. unfold str_unsigned_decimal.
  assert (E2 : jsstring_eqb (c :: t) (str "Infinity") = false).
  { cbn. unfold cu_eqb. unfold is_digit in Hc.
    apply andb_true_iff in Hc as [_ Hc]. apply N.leb_le in Hc.
    destruct (N.eqb_spec c 73); [lia | reflexivity]. }
  now rewrite E2.
Qed.

Lemma numeric_non_decimal (c : code_unit) (t : jsstring) :
  forallb numeric_char (c :: t) = true ->
  non_decimal_literal (c :: t) = None.
Proof.
  intros H. destruct t as [| p [| d r]];
    try (code_unit_cases c; reflexivity).
  cbn [forallb] in H. apply andb_true_iff in H as [_ H].
  apply andb_true_iff in H as [Hp _].
  assert (E : (p =? 120)%N || (p =? 88)%N = false
              /\ (p =? 111)%N || (p =? 79)%N = false
              /\ (p =? 98)%N || (p =? 66)%N = false).
  { unfold numeric_char, is_digit in Hp. cbn [existsb] in Hp.
    repeat split; apply orb_false_iff; split; apply N.eqb_neq; intros ->;
      discriminate Hp. }
  destruct E as (E1 & E2 & E3).
  assert (G : non_decimal_literal (c :: p :: d :: r)
              = match c with
                | 48%N =>
                    match (if (p =? 120)%N || (p =? 88)%N then Some 16
                           else if (p =? 111)%N || (p =? 79)%N then Some 8
                           else if (p =? 98)%N || (p =? 66)%N then Some 2
                           else None) with
                    | Some b =>
                        match radix_value b 0 (d :: r) with
                        | Some n => Some (number_of_Z n)
                        | None => None
                        end
                    | None => None
                    end
                | _ => None
                end) by (code_unit_cases c; reflexivity).
  rewrite G, E1, E2, E3. code_unit_cases c; reflexivity.
Qed.

(** [Number(String(x))] is [x], but for [-0], which is printed as [0]. *)
Lemma StringToNumber_toString (x : number) :
  valid_number x = true ->
  StringToNumber (Number_toString x)
  = match x with
    | S754_zero _ => pos_zero
    | _ => x
    end.
Proof.
  intros Hx. destruct x as [s | s | | s m e]; try reflexivity.
  - now destruct s.
  - pose proof (Number_toString_tokens _ Hx) as Htok.
    cbn in Hx.
    pose proof (finite_text_numeric m e Hx) as Hnum.
    destruct (Number_toString_not_Infinity m e Hx) as (c & t & E & Hc).
    pose proof (parse_number_toString (S754_finite false m e) [] Hx eq_refl)
      as Hp.
    rewrite app_nil_r, E in Hp.
    assert (Hd : decimal_literal (c :: t) = Some (S754_finite false m e)).
    { apply decimal_literal_of_token; [| exact Hp].
      intros r Hr. injection Hr as -> _. discriminate Hc. }
    unfold StringToNumber. rewrite (trim_tokens _ Htok).
    change (Number_toString (S754_finite s m e))
      with ((if s then [45%N] else [])
            ++ Number_toString (S754_finite false m e)).
    rewrite E in *. destruct s; cbn [app].
    + cbn [non_decimal_literal str_decimal].
      unfold str_unsigned_decimal.
      assert (E2 : jsstring_eqb (c :: t) (str "Infinity") = false).
      { rewrite <- (digit_first_decimal c t Hc) in Hd.
        destruct (jsstring_eqb (c :: t) (str "Infinity")) eqn:EI;
          [| reflexivity].
        apply jsstring_eqb_eq in EI. injection EI as -> _. discriminate Hc. }
      rewrite E2, Hd. reflexivity.
    + rewrite (numeric_non_decimal c t Hnum).
      rewrite (digit_first_decimal c t Hc), Hd. reflexivity.
Qed.

(** X17: the crew field shows the crew count as text, and that text reads back
    as the same count: entering what the field shows leaves the state as it
    is, for every crew count of the format other than [-0] (shown as [0]
    and read as [+0]). *)
Theorem crew_input_round_trip (st : State) :
  valid_number (crew st) = true ->
  crew st <> S754_zero true ->
  onChange_crew_input (Number_toString (crew st)) st = st.
Proof.
  intros Hv Hz. unfold onChange_crew_input, onChange_crew, setCrew.
  rewrite (StringToNumber_toString _ Hv).
  destruct st as [ms sel c mode store al]. cbn in *.
  destruct c as [s | s | | s m e]; try reflexivity.
  destruct s; [now contradiction Hz | reflexivity].
Qed.

Lemma crew_input_round_trip_witness :
  onChange_crew_input (Number_toString (crew (initial []))) (initial [])
  = initial [].
Proof.
  apply (crew_input_round_trip (initial [])).
  - reflexivity.
  - discriminate.
Defined.

Lemma drop_ws_blank (s : jsstring) :
  forallb is_str_ws s = true -> drop_ws s = [].
Proof.
  induction s as [| c r IH]; [reflexivity |]. cbn [forallb drop_ws].
  intros H. apply andb_true_iff in H as [Hc Hr]. rewrite Hc. now apply IH.
Qed.

(** X18: a crew field left empty, or holding white space only, counts as a crew
    of zero: the crew becomes [+0] and the three figures read 0.00. *)
Theorem blank_crew_input_is_zero (value : jsstring) (st : State) :
  forallb is_str_ws value = true ->
  crew (onChange_crew_input value st) = pos_zero /\
  dailyOxygen (crew (onChange_crew_input value st)) = str "0.00" /\
  dailyWater (crew (onChange_crew_input value st)) = str "0.00" /\
  dailyFood (crew (onChange_crew_input value st)) = str "0.00".
Proof.
  intros H.
  assert (E : crew (onChange_crew_input value st) = pos_zero).
  { unfold onChange_crew_input, onChange_crew, setCrew, StringToNumber, trim.
    cbn [crew]. now rewrite (drop_ws_blank value H). }
  rewrite E. repeat split; reflexivity.
Qed.

Lemma blank_crew_input_is_zero_witness :
  crew (onChange_crew_input [32%N; 9%N] (initial [])) = pos_zero /\
  dailyOxygen (crew (onChange_crew_input [32%N; 9%N] (initial [])))
  = str "0.00" /\
  dailyWater (crew (onChange_crew_input [32%N; 9%N] (initial [])))
  = str "0.00" /\
  dailyFood (crew (onChange_crew_input [32%N; 9%N] (initial [])))
  = str "0.00".
Proof.
  apply (blank_crew_input_is_zero [32%N; 9%N] (initial [])). reflexivity.
Defined.

Example Module_samples :
  (exists v, Module (own_props added_record) = Normal v /\
             mesh_geometries v
             = [coneGeometry [VNum (num_div (lit 2 0) (lit 12 (-1)));
                              VNum (num_mul (lit 2 0) (lit 18 (-1)));
                              VNum (lit 32 0)]] /\
             text_position v
             = [VNum (lit 0 0); VNum (lit 25 (-1)); VNum (lit 0 0)]) /\
  ToString (VArr [VNum (lit 1 0); VNull; VArr [VStr (str "a"); VBool true]])
  = Normal (str "1,,a,true") /\
  js_add (VStr (str "2")) (lit 5 (-1)) = Normal (VStr (str "20.5")) /\
  js_mul (VStr (str "2")) (lit 3 0) = Normal (VNum (lit 6 0)) /\
  js_mul (VArr []) (lit 3 0) = Normal (VNum (lit 0 0)) /\
  js_mul (VObj []) (lit 3 0) = Normal (VNum NaN).
Proof.
  split; [eexists; split; [vm_compute; reflexivity |];
          split; vm_compute; reflexivity |].
  repeat split; vm_compute; reflexivity.
Qed.

Lemma Get_Normal (m : Value) (k : jsstring) :
  nullish m = false -> exists v, Get m k = Normal v.
Proof.
  destruct m; try discriminate; intros _; cbn [Get];
    try destruct (jsstring_eqb k (str "length")); eauto.
Qed.

Lemma Get_Throw (m : Value) (k : jsstring) :
  nullish m = true -> Get m k = Throw TypeError.
Proof. destruct m; try discriminate; reflexivity. Qed.

Lemma stringable_arr (l : list Value) :
  stringable (VArr l) = forallb stringable l.
Proof. cbn [stringable]. try (induction l; cbn; congruence). Qed.

Lemma ToString_stringable (v : Value) :
  (stringable v = true -> exists s, ToString v = Normal s) /\
  (stringable v = false -> ToString v = Throw TypeError).
Proof.
  induction v as [| | b | x | s | l IH | props IH] using Value_induction;
    try solve [split; [intros _; cbn; eauto | cbn; discriminate]].
  - split; [intros _; destruct b; cbn; eauto | cbn; discriminate].
  - rewrite stringable_arr. cbn [ToString].
    induction IH as [| x r Hx _ IHr]; [split; [cbn; eauto | discriminate] |].
    cbn [forallb]. destruct Hx as [Hx1 Hx2]. destruct IHr as [Hr1 Hr2].
    destruct (stringable x) eqn:Ex; cbn [andb].
    + destruct (Hx1 eq_refl) as (s & Es). split.
      * intros Hr. destruct (Hr1 Hr) as (s' & Es').
        apply bind_Normal in Es' as (ts & Ets & _).
        rewrite Ets. cbn [bind].
        destruct x; rewrite ?Es; cbn [bind]; eauto.
      * intros Hr. specialize (Hr2 Hr).
        match type of Hr2 with
        | bind ?p _ = _ => destruct p as [ts | e] eqn:Ets
        end; [discriminate |].
        cbn [bind] in Hr2. injection Hr2 as ->.
        destruct x; rewrite ?Es; cbn [bind]; reflexivity.
    + split; [discriminate |]. intros _.
      rewrite (Hx2 eq_refl). destruct x; try discriminate; reflexivity.
  - cbn [stringable ToString]. destruct (lookup _ props);
      split; try discriminate; eauto.
Qed.

Lemma element_key_stringable (v : Value) :
  (stringable v = true -> exists k, element_key v = Normal k) /\
  (stringable v = false -> element_key v = Throw TypeError).
Proof.
  destruct (ToString_stringable v) as [H1 H2]. split; intros H.
  - destruct (H1 H) as (s & Es). unfold element_key. rewrite Es.
    destruct v; cbn [bind]; eauto.
  - unfold element_key. rewrite (H2 H). destruct v; try discriminate H;
      reflexivity.
Qed.

Lemma render_item_renders (st : State) (m : Value) :
  (renders m = true -> exists it, render_item st m = Normal it) /\
  (renders m = false -> render_item st m = Throw TypeError).
Proof.
  unfold renders, render_item, id_of.
  destruct (nullish m) eqn:Hm.
  - split; [discriminate |]. intros _. now rewrite (Get_Throw m _ Hm).
  - destruct (Get_Normal m (str "id") Hm) as (id & Ei).
    destruct (Get_Normal m (str "type") Hm) as (ty & Et).
    rewrite Ei, Et. cbn [bind negb andb].
    destruct (element_key_stringable id) as [I1 I2].
    destruct (element_key_stringable (prop "key" (own_props m)))
      as [K1 K2].
    destruct (stringable (prop "key" (own_props m))).
    + destruct (K1 eq_refl) as (k & ->). cbn [bind].
      destruct (stringable id).
      * destruct (I1 eq_refl) as (k' & ->). cbn [bind].
        split; [eauto | discriminate].
      * rewrite (I2 eq_refl). split; [discriminate | reflexivity].
    + rewrite (K2 eq_refl). rewrite andb_false_r.
      split; [discriminate | reflexivity].
Qed.

Lemma renders_not_nullish (l : list Value) :
  forallb renders l = true ->
  forallb (fun m => negb (nullish m)) l = true.
Proof.
  induction l as [| m r IH]; [reflexivity |].
  cbn [forallb]. intros H. apply andb_true_iff in H as [Hm Hr].
  rewrite (IH Hr), andb_true_r. unfold renders in Hm.
  apply andb_true_iff in Hm as [Hm _]. now apply andb_true_iff in Hm as [Hm _].
Qed.

Lemma render_items_Normal (st : State) (l : list Value) :
  forallb renders l = true ->
  exists its, render_items st l = Normal its.
Proof.
  induction l as [| m r IH]; [now exists [] |].
  cbn [forallb]. intros H. apply andb_true_iff in H as [Hm Hr].
  destruct (IH Hr) as (its & E).
  destruct (proj1 (render_item_renders st m) Hm) as (it & Ei).
  cbn [render_items]. rewrite Ei, E. cbn [bind]. eauto.
Qed.

Lemma render_items_Throw (st : State) (l : list Value) :
  forallb renders l = false ->
  render_items st l = Throw TypeError.
Proof.
  induction l as [| m r IH]; [discriminate |].
  cbn [forallb]. intros H. cbn [render_items].
  destruct (renders m) eqn:Hm.
  - destruct (proj1 (render_item_renders st m) Hm) as (it & ->).
    cbn [bind]. cbn [andb] in H. now rewrite (IH H).
  - now rewrite (proj2 (render_item_renders st m) Hm).
Qed.

Lemma findM_sound (v : Value) (l : list Value) :
  forallb (fun m => negb (nullish m)) l = true ->
  exists sm,
    findM (fun m => id <- Get m (str "id") ;; Normal (strict_eq id v)) l
    = Normal sm /\
    (sm = VUndefined \/ nullish sm = false).
Proof.
  induction l as [| m r IH]; [exists VUndefined; now split; [| left] |].
  cbn [forallb]. intros H. apply andb_true_iff in H as [Hm Hr].
  apply negb_true_iff in Hm.
  destruct (Get_Normal m (str "id") Hm) as (id & Ei).
  cbn [findM]. rewrite Ei. cbn [bind].
  destruct (strict_eq id v); [exists m; split; [reflexivity | now right] |].
  now apply IH.
Qed.

Lemma findM_throws (v : Value) (l : list Value) (e : exn) :
  findM (fun m => id <- Get m (str "id") ;; Normal (strict_eq id v)) l
  = Throw e ->
  e = TypeError.
Proof.
  induction l as [| m r IH]; [discriminate |].
  cbn [findM]. destruct (nullish m) eqn:Hm.
  - rewrite (Get_Throw m _ Hm). intros H. now injection H as <-.
  - destruct (Get_Normal m (str "id") Hm) as (id & Ei).
    rewrite Ei. cbn [bind].
    destruct (strict_eq id v); [discriminate | exact IH].
Qed.

Lemma render_panel_Normal (st : State) (sm : Value) :
  sm = VUndefined \/ nullish sm = false ->
  exists p, render_panel st sm = Normal p.
Proof.
  intros [-> | H]; [now exists None |].
  unfold render_panel. destruct (truthy sm); [| now exists None].
  destruct (Get_Normal sm (str "label") H) as (a & ->).
  destruct (Get_Normal sm (str "color") H) as (b & ->).
  destruct (Get_Normal sm (str "size") H) as (c & ->).
  destruct (Get_Normal sm (str "type") H) as (d & ->).
  cbn [bind]. eauto.
Qed.

Lemma App_render_throws (st : State) (e : exn) :
  App_render st = Throw e -> e = TypeError.
Proof.
  unfold App_render, selectedModule. intros H.
  destruct (modules st) as [| | | | | l |]; try (injection H as <-; reflexivity).
  destruct (findM _ l) as [sm | e'] eqn:Ef.
  - cbn [bind] in H.
    destruct (forallb renders l) eqn:E.
    + exfalso.
      destruct (findM_sound (selected st) l (renders_not_nullish l E))
        as (sm' & Es & Hsm).
      rewrite Es in Ef. injection Ef as ->.
      destruct (render_items_Normal st l E) as (its & Ei). rewrite Ei in H.
      cbn [bind] in H.
      destruct (render_panel_Normal st sm Hsm) as (p & Ep). rewrite Ep in H.
      discriminate.
    + rewrite (render_items_Throw st l E) in H. now injection H as <-.
  - cbn [bind] in H. injection H as <-.
    now apply findM_throws in Ef.
Qed.

(** X19: the function [App] returns exactly when the registry is an array whose
    elements are neither [null] nor [undefined] and have an id and a [key]
    with a conversion to a string (React makes element keys of the two);
    on every other registry it throws a TypeError. *)
Theorem render_succeeds_iff (st : State) :
  ((exists l, modules st = VArr l /\ forallb renders l = true)
   <-> exists v, App_render st = Normal v) /\
  (forall e, App_render st = Throw e -> e = TypeError).
Proof.
  split; [| apply App_render_throws].
  split.
  - intros (l & Hm & Hl). unfold App_render, selectedModule. rewrite Hm.
    destruct (findM_sound (selected st) l (renders_not_nullish l Hl))
      as (sm & -> & Hsm).
    cbn [bind].
    destruct (render_items_Normal st l Hl) as (its & ->). cbn [bind].
    destruct (render_panel_Normal st sm Hsm) as (p & ->). cbn [bind].
    eauto.
  - intros (v & H). unfold App_render in H.
    apply bind_Normal in H as (sm & Hsm & H).
    apply bind_Normal in H as (its & Hits & _).
    destruct (modules st) as [| | | | | l |]; try discriminate.
    exists l. split; [reflexivity |].
    destruct (forallb _ l) eqn:E; [reflexivity |].
    rewrite (render_items_Throw st l E) in Hits. discriminate.
Qed.

(** On the registry [[{"id":{"toString":1}}]] App throws; on [[{"id":{}}]]
    it returns, the fragment keyed [[object Object]]; a record without id
    gives a fragment without key. *)
Example render_samples :
  App_render
    (setModules
       (VArr [VObj [(str "id", VObj [(str "toString", VNum (lit 1 0))])]])
       (initial []))
  = Throw TypeError /\
  (exists v,
     App_render
       (setModules (VArr [VObj [(str "id", VObj [])]; VObj []]) (initial []))
     = Normal v /\
     map item_key (view_items v) = [Some (str "[object Object]"); None]).
Proof.
  split; [vm_compute; reflexivity |].
  eexists. split; vm_compute; reflexivity.
Qed.

(** X20: import takes any JSON value for the registry, and the view does not
    survive one that is no array: when the text parses to anything but an
    array, import reports success and the next render throws a
    TypeError. *)
Theorem import_of_non_array_breaks_render
  (st : State) (text : jsstring) (data : Value) :
  JSON_parse text = Normal data ->
  (forall l, data <> VArr l) ->
  exists st',
    importLayout (Some text) st = Normal st' /\
    alerts st' = alerts st ++ [msg_imported] /\
    App_render st' = Throw TypeError.
Proof.
  intros Hp Hd. eexists. unfold importLayout. rewrite Hp.
  split; [reflexivity |]. split; [reflexivity |].
  unfold App_render, selectedModule. cbn [modules alert setModules].
  destruct data as [| | | | | l |]; try reflexivity.
  now contradiction (Hd l).
Qed.

Lemma import_of_non_array_breaks_render_witness :
  exists st',
    importLayout (Some (str "{}")) (initial []) = Normal st' /\
    alerts st' = alerts (initial []) ++ [msg_imported] /\
    App_render st' = Throw TypeError.
Proof.
  apply (import_of_non_array_breaks_render (initial []) (str "{}") (VObj [])).
  - vm_compute. reflexivity.
  - discriminate.
Defined.

Lemma strict_eq_sym (a b : Value) : strict_eq a b = strict_eq b a.
Proof.
  assert (H : forall a b, strict_eq a b = true -> strict_eq b a = true).
  { clear. intros a b H.
    destruct a, b; try discriminate; cbn [strict_eq] in *; try reflexivity.
    - apply Bool.eqb_prop in H. subst. apply Bool.eqb_reflx.
    - pose proof H as H'.
      apply num_eqb_true in H' as [-> | (s & s' & -> & ->)];
        [exact H | reflexivity].
    - now rewrite jsstring_eqb_sym. }
  destruct (strict_eq a b) eqn:E1, (strict_eq b a) eqn:E2; try reflexivity.
  - apply H in E1. congruence.
  - apply H in E2. congruence.
Qed.

Lemma render_item_gizmo (st : State) (m : Value) (it : item_view) :
  render_item st m = Normal it ->
  item_gizmo it = strict_eq (selected st) (id_of m).
Proof.
  unfold render_item, id_of. intros H.
  apply bind_Normal in H as (id & Hid & H). rewrite Hid.
  apply bind_Normal in H as (ty & _ & H).
  apply bind_Normal in H as (mk & _ & H).
  apply bind_Normal in H as (id' & _ & H).
  apply bind_Normal in H as (k & _ & H).
  injection H as <-. reflexivity.
Qed.

Lemma render_items_gizmo (st : State) (l : list Value) :
  forallb renders l = true ->
  exists its,
    render_items st l = Normal its /\
    map item_gizmo its = map (fun m => strict_eq (selected st) (id_of m)) l.
Proof.
  induction l as [| m r IH]; [now exists [] |].
  cbn [forallb]. intros H. apply andb_true_iff in H as [Hm Hr].
  destruct (IH Hr) as (its & E & Hg).
  destruct (proj1 (render_item_renders st m) Hm) as (it & Ei).
  exists (it :: its). cbn [render_items]. rewrite Ei, E. cbn [bind].
  split; [reflexivity |]. cbn [map].
  now rewrite (render_item_gizmo st m it Ei), Hg.
Qed.

Lemma findM_objects (v : Value) (l : list Value) :
  forallb is_object l = true ->
  findM (fun m => id <- Get m (str "id") ;; Normal (strict_eq id v)) l
  = Normal (match find (fun m => strict_eq v (id_of m)) l with
            | Some m => m
            | None => VUndefined
            end).
Proof.
  induction l as [| m r IH]; [reflexivity |].
  cbn [forallb]. intros H. apply andb_true_iff in H as [Hm Hr].
  destruct m as [| | | | | | props]; try discriminate.
  cbn [findM find Get bind id_of].
  rewrite (strict_eq_sym v). destruct (strict_eq _ v); [reflexivity |].
  now apply IH.
Qed.

Lemma render_panel_object (st : State) (props : list (jsstring * Value)) :
  render_panel st (VObj props) = Normal (Some (panel_of st props)).
Proof. reflexivity. Qed.

(** X21: gizmo and edit panel go together.  In the view of a registry of
    objects that App renders, with a selection that is no object, the
    modules inside the transform gizmo are those whose id equals the
    selection; the edit panel is there exactly when there is one, and it
    shows the fields of the first of them. *)
Theorem panel_follows_gizmo (st : State) (l : list Value) :
  modules st = VArr l ->
  forallb is_object l = true ->
  forallb renders l = true ->
  is_primitive (selected st) = true ->
  exists v,
    App_render st = Normal v /\
    map item_gizmo (view_items v)
    = map (fun m => strict_eq (selected st) (id_of m)) l /\
    view_panel v
    = match find (fun m => strict_eq (selected st) (id_of m)) l with
      | Some m => Some (panel_of st (own_props m))
      | None => None
      end /\
    (view_panel v = None <-> existsb item_gizmo (view_items v) = false).
Proof.
  intros Hm Ho Hr _. unfold App_render, selectedModule. rewrite Hm.
  rewrite (findM_objects _ l Ho).
  destruct (render_items_gizmo st l Hr) as (its & -> & Hg).
  cbn [bind].
  assert (Hp : render_panel st
                 (match find (fun m => strict_eq (selected st) (id_of m)) l
                  with
                  | Some m => m
                  | None => VUndefined
                  end)
               = Normal
                   (match find (fun m => strict_eq (selected st) (id_of m)) l
                    with
                    | Some m => Some (panel_of st (own_props m))
                    | None => None
                    end)).
  { destruct (find _ l) as [m |] eqn:Ef; [| reflexivity].
    apply find_some in Ef as [Hin _].
    rewrite forallb_forall in Ho. specialize (Ho m Hin).
    destruct m; try discriminate. apply render_panel_object. }
  rewrite Hp. cbn [bind]. eexists. split; [reflexivity |].
  cbn [view_items view_panel]. split; [exact Hg |]. split; [reflexivity |].
  assert (He : existsb item_gizmo its
               = existsb (fun m => strict_eq (selected st) (id_of m)) l).
  { clear - Hg. revert its Hg.
    induction l as [| m r IH]; intros [| it its] Hg; try discriminate;
      [reflexivity |].
    cbn [map] in Hg. injection Hg as H1 H2.
    cbn [existsb]. now rewrite H1, (IH its H2). }
  rewrite He. clear. induction l as [| m r IH]; [now split |].
  cbn [find existsb]. destruct (strict_eq (selected st) (id_of m)).
  - split; discriminate.
  - exact IH.
Qed.

Lemma panel_follows_gizmo_witness :
  exists v,
    App_render added_twice = Normal v /\
    map item_gizmo (view_items v)
    = map (fun m => strict_eq (selected added_twice) (id_of m))
          (match modules added_twice with
           | VArr l => l
           | _ => []
           end) /\
    view_panel v
    = match find (fun m => strict_eq (selected added_twice) (id_of m))
              (match modules added_twice with
               | VArr l => l
               | _ => []
               end) with
      | Some m => Some (panel_of added_twice (own_props m))
      | None => None
      end /\
    (view_panel v = None <-> existsb item_gizmo (view_items v) = false).
Proof.
  apply (panel_follows_gizmo added_twice).
  - vm_compute. reflexivity.
  - vm_compute. reflexivity.
  - vm_compute. reflexivity.
  - reflexivity.
Defined.

(** ** The geometry of a module *)

Lemma ToNumber_primitive (a : Value) :
  is_primitive a = true -> exists x, ToNumber a = Normal x.
Proof. destruct a; try discriminate; intros _; cbn; eauto. Qed.

Lemma js_add_primitive (a : Value) (y : number) :
  is_primitive a = true -> exists v, js_add a y = Normal v.
Proof. destruct a; try discriminate; intros _; cbn; eauto. Qed.

Lemma is_type_true (T : Value) (t : string) :
  is_type T t = true -> T = VStr (str t).
Proof.
  unfold is_type. destruct T; try discriminate. cbn [strict_eq].
  intros H. apply jsstring_eqb_eq in H. now subst.
Qed.

Ltac in_types := unfold types; cbn [In]; auto 10.

Ltac settle_types :=
  repeat match goal with
         | |- context [is_type (VStr ?s) ?t] =>
             let b := eval vm_compute in (is_type (VStr s) t) in
             change (is_type (VStr s) t) with b
         end.

(** What [Module] returns for a size that is a primitive, by type. *)
Lemma Module_geometry (props : list (jsstring * Value)) :
  is_primitive (prop "size" props) = true ->
  exists v,
    Module props = Normal v /\
    (In (prop "type" props) types -> exists g, mesh_geometries v = [g]) /\
    (~ In (prop "type" props) types -> mesh_geometries v = []) /\
    group_position v = prop "position" props /\
    material_color v = prop "color" props /\
    text_children v = prop "label" props.
Proof.
  intros Hs.
  destruct (ToNumber_primitive _ Hs) as (x & Ex).
  destruct (js_add_primitive _ (lit 5 (-1)) Hs) as (y & Ey).
  unfold Module. cbv zeta. unfold js_div, js_mul. rewrite Ex, Ey.
  cbn [bind].
  generalize (prop "type" props). intros T.
  assert (Hin : forall t,
            In (VStr (str t)) types -> is_type T t = true -> In T types).
  { intros t Ht E. apply is_type_true in E. now subst. }
  destruct (is_type T "cube") eqn:E1;
    [pose proof (Hin "cube"%string ltac:(in_types) E1);
     apply is_type_true in E1; subst T; settle_types;
     eexists; split; [reflexivity |];
     cbn [when bind app mesh_geometries group_position material_color
          text_children];
     repeat split; eauto; tauto |].
  destruct (is_type T "sphere") eqn:E2;
    [pose proof (Hin "sphere"%string ltac:(in_types) E2);
     apply is_type_true in E2; subst T; settle_types;
     eexists; split; [reflexivity |];
     cbn [when bind app mesh_geometries group_position material_color
          text_children];
     repeat split; eauto; tauto |].
  destruct (is_type T "cylinder") eqn:E3;
    [pose proof (Hin "cylinder"%string ltac:(in_types) E3);
     apply is_type_true in E3; subst T; settle_types;
     eexists; split; [reflexivity |];
     cbn [when bind app mesh_geometries group_position material_color
          text_children];
     repeat split; eauto; tauto |].
  destruct (is_type T "cone") eqn:E4;
    [pose proof (Hin "cone"%string ltac:(in_types) E4);
     apply is_type_true in E4; subst T; settle_types;
     eexists; split; [reflexivity |];
     cbn [when bind app mesh_geometries group_position material_color
          text_children];
     repeat split; eauto; tauto |].
  destruct (is_type T "solar") eqn:E5;
    [pose proof (Hin "solar"%string ltac:(in_types) E5);
     apply is_type_true in E5; subst T; settle_types;
     eexists; split; [reflexivity |];
     cbn [when bind app mesh_geometries group_position material_color
          text_children];
     repeat split; eauto; tauto |].
  destruct (is_type T "tunnel") eqn:E6;
    [pose proof (Hin "tunnel"%string ltac:(in_types) E6);
     apply is_type_true in E6; subst T; settle_types;
     eexists; split; [reflexivity |];
     cbn [when bind app mesh_geometries group_position material_color
          text_children];
     repeat split; eauto; tauto |].
  eexists. split; [reflexivity |]. cbn [when bind app mesh_geometries
    group_position material_color text_children].
  repeat split; try reflexivity.
  intros Hi. exfalso. unfold types in Hi. cbn [In] in Hi.
  unfold is_type in *.
  repeat (destruct Hi as [<- | Hi]; [discriminate |]). contradiction.
Qed.

(** X22: [Module] draws one geometry for each of the six types and none for
    anything else, and it returns for every size that is no object: the
    arithmetic on the size converts it to a number, and the height of the
    label is a number or, for a size that is a string, a string. *)
Theorem Module_draws_one_geometry (props : list (jsstring * Value)) :
  is_primitive (prop "size" props) = true ->
  exists v,
    Module props = Normal v /\
    (In (prop "type" props) types -> exists g, mesh_geometries v = [g]) /\
    (~ In (prop "type" props) types -> mesh_geometries v = []) /\
    group_position v = prop "position" props /\
    material_color v = prop "color" props /\
    text_children v = prop "label" props.
Proof.
  intros Hs. destruct (Module_geometry props Hs) as (v & Hv & Hrest).
  exists v. split; [exact Hv | exact Hrest].
Qed.

Lemma Module_draws_one_geometry_witness :
  exists v,
    Module (own_props added_record) = Normal v /\
    (In (prop "type" (own_props added_record)) types ->
     exists g, mesh_geometries v = [g]) /\
    (~ In (prop "type" (own_props added_record)) types ->
     mesh_geometries v = []) /\
    group_position v = prop "position" (own_props added_record) /\
    material_color v = prop "color" (own_props added_record) /\
    text_children v = prop "label" (own_props added_record).
Proof.
  apply (Module_draws_one_geometry (own_props added_record)).
  vm_compute. reflexivity.
Defined.

(** X23: a module made by add is drawn: for a registry that is an array and a
    first draw in [[0, 1)], the record add appends makes [Module] return a
    view with exactly one geometry, its label as text and its position as
    the position of the group. *)
Theorem added_module_is_drawn
  (st : State) (l : list Value) (now r1 r2 r3 : number) :
  modules st = VArr l -> is_random r1 = true ->
  exists st' m v g,
    addModule now r1 r2 r3 st = Normal st' /\
    modules st' = VArr (l ++ [m]) /\
    Module (own_props m) = Normal v /\
    mesh_geometries v = [g] /\
    Normal (text_children v) = Get m (str "label") /\
    Normal (group_position v) = Get m (str "position").
Proof.
  intros Hm Hr.
  destruct (addModule_spec st l now r1 r2 r3 Hm Hr)
    as (type & label & color & Hin & Hadd).
  set (m := module_of now type label color
              (num_sub (num_mul r2 (lit 6 0)) (lit 3 0))
              (num_sub (num_mul r3 (lit 6 0)) (lit 3 0))) in *.
  destruct (Module_geometry (own_props m) eq_refl)
    as (v & Hv & H1 & _ & Hp & _ & Ht).
  assert (Hty : In (prop "type" (own_props m)) types).
  { unfold catalogue in Hin. cbn [In] in Hin.
    repeat (destruct Hin as [Hin | Hin];
            [injection Hin as <- <- <-; vm_compute; tauto |]).
    contradiction. }
  destruct (H1 Hty) as (g & Hg).
  eexists. exists m, v, g. split; [exact Hadd |].
  split; [reflexivity |]. split; [exact Hv |]. split; [exact Hg |].
  rewrite Ht, Hp. split; reflexivity.
Qed.

Lemma added_module_is_drawn_witness :
  exists st' m v g,
    addModule sample_now sample_r sample_r sample_r (initial [])
    = Normal st' /\
    modules st' = VArr ([] ++ [m]) /\
    Module (own_props m) = Normal v /\
    mesh_geometries v = [g] /\
    Normal (text_children v) = Get m (str "label") /\
    Normal (group_position v) = Get m (str "position").
Proof.
  apply (added_module_is_drawn (initial []) []); reflexivity.
Defined.

(** ** Selecting by click *)

(** X24: a click on a module of the registry selects it, whatever was selected
    before: when the id of the clicked record equals itself (it is no NaN
    and no object), the selection is afterwards the id of a record of the
    registry, the clicked record is drawn inside the gizmo, and the
    registry is untouched. *)
Theorem click_selects_the_module
  (st : State) (l : list Value) (m id : Value) :
  modules st = VArr l -> In m l ->
  Get m (str "id") = Normal id ->
  strict_eq id id = true ->
  exists st',
    onClick m st = Normal st' /\
    selected st' = id /\
    modules st' = modules st /\
    selection_valid st' /\
    isSelected m st' = Normal true.
Proof.
  intros Hm Hin Hg He. exists (setSelected id st).
  unfold onClick. rewrite Hg. cbn [bind].
  split; [reflexivity |]. split; [reflexivity |]. split; [reflexivity |].
  split.
  - right. exists l, m. split; [exact Hm |]. split; [exact Hin |].
    exists id. now split.
  - unfold isSelected. rewrite Hg. cbn [bind selected setSelected].
    now rewrite He.
Qed.

Lemma click_selects_the_module_witness :
  exists st',
    onClick (VObj [(str "id", VNum (lit 5 0))]) dangling = Normal st' /\
    selected st' = VNum (lit 5 0) /\
    modules st' = modules dangling /\
    selection_valid st' /\
    isSelected (VObj [(str "id", VNum (lit 5 0))]) st' = Normal true.
Proof.
  apply (click_selects_the_module dangling
           [VObj [(str "id", VNum (lit 5 0))]]).
  - reflexivity.
  - left; reflexivity.
  - reflexivity.
  - reflexivity.
Defined.

(** X25: only the crew field changes the crew and only save writes the storage:
    add, delete, update, load, import, click and the end of a drag leave
    crew count, transform mode and storage as they are, and add, update,
    click and drag show no message. *)
Theorem handlers_leave_the_rest_alone (st st' : State) :
  (forall now r1 r2 r3,
      addModule now r1 r2 r3 st = Normal st' ->
      surroundings st' = surroundings st /\ alerts st' = alerts st) /\
  (deleteModule st = Normal st' -> surroundings st' = surroundings st) /\
  (forall field value,
      updateSelected field value st = Normal st' ->
      surroundings st' = surroundings st /\ alerts st' = alerts st) /\
  (loadLayout st = Normal st' -> surroundings st' = surroundings st) /\
  (forall file,
      importLayout file st = Normal st' ->
      surroundings st' = surroundings st) /\
  (forall m,
      onClick m st = Normal st' ->
      surroundings st' = surroundings st /\ alerts st' = alerts st /\
      modules st' = modules st) /\
  (forall m px py pz,
      onMouseUp m px py pz st = Normal st' ->
      surroundings st' = surroundings st /\ alerts st' = alerts st /\
      selected st' = selected st) /\
  (saveLayout st = Normal st' ->
   crew st' = crew st /\ controlsMode st' = controlsMode st /\
   modules st' = modules st /\ selected st' = selected st).
Proof.
  repeat split.
  - unfold addModule in H.
    destruct (array_get types _); try discriminate.
    apply bind_Normal in H as (c & _ & H).
    apply bind_Normal in H as (l & _ & H).
    apply bind_Normal in H as (i & _ & H). now injection H as <-.
  - unfold addModule in H.
    destruct (array_get types _); try discriminate.
    apply bind_Normal in H as (c & _ & H).
    apply bind_Normal in H as (l & _ & H).
    apply bind_Normal in H as (i & _ & H). now injection H as <-.
  - intros H. unfold deleteModule in H.
    destruct (negb _); [now injection H as <- |].
    apply bind_Normal in H as (ms & _ & H). now injection H as <-.
  - unfold updateSelected in H.
    destruct (negb _); [now injection H as <- |].
    apply bind_Normal in H as (ms & _ & H). now injection H as <-.
  - unfold updateSelected in H.
    destruct (negb _); [now injection H as <- |].
    apply bind_Normal in H as (ms & _ & H). now injection H as <-.
  - intros H. unfold loadLayout in H.
    destruct (getItem slot _) as [[| c t] |]; try (now injection H as <-).
    apply bind_Normal in H as (d & _ & H). now injection H as <-.
  - intros file H. unfold importLayout in H.
    destruct file as [text |]; [| now injection H as <-].
    destruct (JSON_parse text); now injection H as <-.
  - unfold onClick in H.
    apply bind_Normal in H as (i & _ & H). now injection H as <-.
  - unfold onClick in H.
    apply bind_Normal in H as (i & _ & H). now injection H as <-.
  - unfold onClick in H.
    apply bind_Normal in H as (i & _ & H). now injection H as <-.
  - unfold onMouseUp in H.
    apply bind_Normal in H as (ms & _ & H). now injection H as <-.
  - unfold onMouseUp in H.
    apply bind_Normal in H as (ms & _ & H). now injection H as <-.
  - unfold onMouseUp in H.
    apply bind_Normal in H as (ms & _ & H). now injection H as <-.
  - unfold saveLayout in H. now injection H as <-.
  - unfold saveLayout in H. now injection H as <-.
  - unfold saveLayout in H. now injection H as <-.
  - unfold saveLayout in H. now injection H as <-.
Qed.

Lemma handlers_leave_the_rest_alone_witness :
  surroundings added_once = surroundings (initial []) /\
  alerts added_once = alerts (initial []).
Proof.
  apply (proj1 (handlers_leave_the_rest_alone (initial []) added_once)
           sample_now sample_r sample_r sample_r).
  vm_compute. reflexivity.
Defined.

(** A record whose id equals a value other than [undefined] is an ordinary
    object with an [id] property. *)
Lemma has_id_defined (v m : Value) :
  v <> VUndefined -> has_id v m ->
  exists props id, m = VObj props /\ lookup (str "id") props = Some id /\
                   strict_eq id v = true.
Proof.
  intros Hv (id & Hg & He).
  assert (Hu : id <> VUndefined).
  { intros ->. destruct v; try discriminate. now contradiction Hv. }
  destruct m as [| | b | x | s | l | props]; try discriminate.
  - injection Hg as <-. now contradiction Hu.
  - injection Hg as <-. now contradiction Hu.
  - cbn in Hg. injection Hg as <-. now contradiction Hu.
  - cbn in Hg. injection Hg as <-. now contradiction Hu.
  - cbn [Get] in Hg. exists props.
    destruct (lookup (str "id") props) as [id' |] eqn:E.
    + injection Hg as ->. exists id. repeat split; assumption.
    + injection Hg as <-. now contradiction Hu.
Qed.

(** X26: the end of a drag keeps the selection on a record of the registry: if
    the selection is none or the id of a record before, it is so after,
    whichever module was dragged and wherever to. *)
Theorem drag_keeps_selection_valid
  (st st' : State) (m : Value) (px py pz : number) :
  selection_valid st ->
  selected st <> VUndefined ->
  onMouseUp m px py pz st = Normal st' ->
  selection_valid st'.
Proof.
  intros Hv Hu H. unfold onMouseUp in H.
  apply bind_Normal in H as (ms & Hms & H). injection H as <-.
  destruct Hv as [Hn | (l & r & Hl & Hin & Hr)]; [now left |].
  rewrite Hl in Hms. cbn [call_map] in Hms.
  apply bind_Normal in Hms as (l' & Hl' & Hms). injection Hms as <-.
  destruct (mapM_In _ l l' r Hl' Hin) as (r' & Hr' & Hin').
  right. exists l', r'. split; [reflexivity |]. split; [assumption |].
  cbn [selected setModules].
  destruct (has_id_defined _ _ Hu Hr) as (props & id & -> & Hlk & He).
  cbn [Get] in Hr'. rewrite Hlk in Hr'. cbn [bind] in Hr'.
  apply bind_Normal in Hr' as (mid & _ & Hr').
  destruct (strict_eq id mid); injection Hr' as <-.
  - exists id. split; [| assumption].
    unfold spread_with, Get. cbn [own_props].
    rewrite lookup_obj_set_other, Hlk; reflexivity.
  - exists id. split; [| assumption]. cbn [Get]. now rewrite Hlk.
Qed.

Lemma drag_keeps_selection_valid_witness :
  selection_valid
    (setModules
       (VArr [spread_with added_record (str "position")
                (VArr [VNum (lit 1 0); VNum (lit 0 0); VNum (lit 2 0)])])
       added_once).
Proof.
  apply (drag_keeps_selection_valid added_once _ added_record
           (lit 1 0) (lit 0 0) (lit 2 0)).
  - right. exists [added_record], added_record.
    split; [vm_compute; reflexivity |]. split; [left; reflexivity |].
    exists (VNum sample_now). split; vm_compute; reflexivity.
  - intros H. vm_compute in H. discriminate H.
  - vm_compute. reflexivity.
Defined.

(** X27: a crew count that is no finite number is shown as it is: for [NaN]
    (what a text that is no number reads as) and for the two infinities,
    each of the three figures is the name of the crew count itself, and
    not a number with two decimals. *)
Theorem non_finite_crew_is_shown_as_is (crew : number) :
  is_finite crew = false ->
  dailyOxygen crew = Number_toString crew /\
  dailyWater crew = Number_toString crew /\
  dailyFood crew = Number_toString crew /\
  In (Number_toString crew) [str "NaN"; str "Infinity"; str "-Infinity"] /\
  two_decimal_format (Number_toString crew) = false.
Proof.
  intros H. destruct crew as [s | s | | s m e]; try discriminate.
  - destruct s; repeat split; try reflexivity; cbn; tauto.
  - repeat split; try reflexivity. cbn. tauto.
Qed.

Lemma non_finite_crew_is_shown_as_is_witness :
  dailyOxygen NaN = Number_toString NaN /\
  dailyWater NaN = Number_toString NaN /\
  dailyFood NaN = Number_toString NaN /\
  In (Number_toString NaN) [str "NaN"; str "Infinity"; str "-Infinity"] /\
  two_decimal_format (Number_toString NaN) = false.
Proof. apply (non_finite_crew_is_shown_as_is NaN). reflexivity. Defined.
